(** * clang_wrapper.py: link-time provenance reconstruction

    A shallow embedding of
    [infra/base-images/base-builder/indexer/clang_wrapper.py] and the
    properties of its flag extraction, dependency-file parser, fragment
    reader, command matcher and dispatcher.

    Python [str] values are Rocq [string]s holding the UTF-8 encoding of
    the text.  Every ASCII character is one byte, so prefix and suffix
    tests against ASCII literals, and slices of a fixed number of ASCII
    characters, are the same on both sides. *)

From Stdlib Require Import Bool Arith ZArith Lia List Ascii String Permutation Sorted.
Import ListNotations.
Local Open Scope list_scope.
Local Open Scope string_scope.

(** ** Python string primitives *)

Module Py.

(** Characters that have no printable literal. *)
Definition tab : ascii := "009"%char.
Definition lf : ascii := "010"%char.
Definition cr : ascii := "013"%char.
Definition dquote : ascii := "034"%char.
Definition backslash : ascii := "092"%char.

Definition bytes (l : list nat) : string :=
  string_of_list_ascii (map ascii_of_nat l).

(** [s.startswith(p)] *)
Fixpoint startswith (s p : string) {struct p} : bool :=
  match p, s with
  | EmptyString, _ => true
  | String _ _, EmptyString => false
  | String a p', String b s' => Ascii.eqb a b && startswith s' p'
  end.

(** [s.endswith(p)]: [s] is [p], or a proper tail of [s] ends with [p]. *)
Fixpoint endswith (s p : string) : bool :=
  if String.eqb s p then true
  else match s with
       | EmptyString => false
       | String _ s' => endswith s' p
       end.

(** [s[n:]] *)
Fixpoint drop (n : nat) (s : string) : string :=
  match n, s with
  | O, _ => s
  | S _, EmptyString => EmptyString
  | S n', String _ s' => drop n' s'
  end.

(** [s[:-n]] for [n > 0] *)
Definition drop_last (n : nat) (s : string) : string :=
  String.substring 0 (String.length s - n) s.

(** [x in l] on a list of strings *)
Definition mem (x : string) (l : list string) : bool :=
  existsb (String.eqb x) l.

(** [sub in s] on strings *)
Fixpoint contains (s sub : string) : bool :=
  startswith s sub
  || match s with
     | EmptyString => false
     | String _ s' => contains s' sub
     end.

(** [sep.join(l)] *)
Fixpoint join (sep : string) (l : list string) : string :=
  match l with
  | [] => ""
  | [x] => x
  | x :: rest => x ++ sep ++ join sep rest
  end.

(** The characters [str.isspace] accepts, in UTF-8: U+0009..000D,
    U+001C..0020, U+0085, U+00A0, U+1680, U+2000..200A, U+2028, U+2029,
    U+202F, U+205F, U+3000. *)
Definition whitespace : list string :=
  map bytes
    [ [9]; [10]; [11]; [12]; [13]; [28]; [29]; [30]; [31]; [32];
      [194; 133]; [194; 160]; [225; 154; 128];
      [226; 128; 128]; [226; 128; 129]; [226; 128; 130]; [226; 128; 131];
      [226; 128; 132]; [226; 128; 133]; [226; 128; 134]; [226; 128; 135];
      [226; 128; 136]; [226; 128; 137]; [226; 128; 138];
      [226; 128; 168]; [226; 128; 169]; [226; 128; 175];
      [226; 129; 159]; [227; 128; 128] ].

(** One whitespace character removed from the left (right) end, if any. *)
Definition lstrip1 (s : string) : option string :=
  match find (startswith s) whitespace with
  | Some w => Some (drop (String.length w) s)
  | None => None
  end.

Definition rstrip1 (s : string) : option string :=
  match find (endswith s) whitespace with
  | Some w => Some (drop_last (String.length w) s)
  | None => None
  end.

Fixpoint strip_loop (step : string -> option string) (n : nat) (s : string) : string :=
  match n with
  | O => s
  | S n' => match step s with
            | Some s' => strip_loop step n' s'
            | None => s
            end
  end.

(** [s.strip()] *)
Definition strip (s : string) : string :=
  let l := strip_loop lstrip1 (String.length s) s in
  strip_loop rstrip1 (String.length l) l.

(** [for line in f] on a text file: the lines of the text, each with its
    terminating newline (the last one possibly without). *)
Fixpoint readlines (text : string) : list string :=
  match text with
  | EmptyString => []
  | String c rest =>
      if Ascii.eqb c lf then String c "" :: readlines rest
      else match readlines rest with
           | [] => [String c ""]
           | l :: ls => String c l :: ls
           end
  end.

(** [bytes.splitlines()]: split at LF, CR LF and CR, line ends dropped. *)
Fixpoint splitlines (b : string) : list string :=
  match b with
  | EmptyString => []
  | String c rest =>
      if Ascii.eqb c lf then "" :: splitlines rest
      else if Ascii.eqb c cr then
        match rest with
        | String d rest' => if Ascii.eqb d lf then "" :: splitlines rest'
                            else "" :: splitlines rest
        | EmptyString => [""]
        end
      else match splitlines rest with
           | [] => [String c ""]
           | l :: ls => String c l :: ls
           end
  end.

(** The characters of a [str]: every byte that is not a UTF-8
    continuation byte starts a character. *)
Definition is_continuation (c : ascii) : bool :=
  ((128 <=? nat_of_ascii c) && (nat_of_ascii c <? 192))%nat.

Fixpoint chars (s : string) : list string :=
  match s with
  | EmptyString => []
  | String c rest =>
      match rest with
      | EmptyString => [String c ""]
      | String d _ =>
          if is_continuation d then
            match chars rest with
            | ch :: chs => String c ch :: chs
            | [] => [String c ""]
            end
          else String c "" :: chars rest
      end
  end.

End Py.

(** ** [os.path] (posixpath) *)

Module OsPath.

Fixpoint has_sep (p : string) : bool :=
  match p with
  | EmptyString => false
  | String c p' => Ascii.eqb c "/" || has_sep p'
  end.

(** [os.path.basename(p)]: [p[p.rfind('/') + 1:]] *)
Fixpoint basename (p : string) : string :=
  match p with
  | EmptyString => ""
  | String c p' =>
      if has_sep p' then basename p'
      else if Ascii.eqb c "/" then p' else p
  end.

(** [os.path.join(a, b)] *)
Definition join (a b : string) : string :=
  if Py.startswith b "/" then b
  else if String.eqb a "" || Py.endswith a "/" then a ++ b
  else a ++ "/" ++ b.

End OsPath.

(** ** Insertion-ordered dictionaries

    A Python [dict] with [str] keys: an association list with distinct
    keys, in insertion order.  Assigning to an existing key keeps its
    position. *)

Module Dict.

Definition t (V : Type) : Type := list (string * V).

Fixpoint get {V} (k : string) (d : t V) : option V :=
  match d with
  | [] => None
  | (k', v) :: d' => if String.eqb k k' then Some v else get k d'
  end.

(** [k in d] *)
Definition mem {V} (k : string) (d : t V) : bool :=
  match get k d with Some _ => true | None => false end.

(** [d[k] = v] *)
Fixpoint set {V} (k : string) (v : V) (d : t V) : t V :=
  match d with
  | [] => [(k, v)]
  | (k', v') :: d' =>
      if String.eqb k k' then (k', v) :: d' else (k', v') :: set k v d'
  end.

Definition keys {V} (d : t V) : list string := map fst d.

(** [d.values()] *)
Definition values {V} (d : t V) : list V := map snd d.

(** [dict(pairs)] *)
Definition of_pairs {V} (pairs : list (string * V)) : t V :=
  fold_left (fun d kv => set (fst kv) (snd kv) d) pairs [].

End Dict.

(** ** Exceptions

    The program catches no exception: a call either returns a value or
    raises, and what is raised does not matter to what follows. *)
Inductive res (A : Type) : Type :=
| Ok (a : A)
| Raise.
Arguments Ok {A} a.
Arguments Raise {A}.

Definition bind {A B} (m : res A) (f : A -> res B) : res B :=
  match m with
  | Ok a => f a
  | Raise => Raise
  end.

Notation "x <- m ;; k" := (bind m (fun x => k))
  (at level 61, m at next level, right associativity).
Notation "' p <- m ;; k" := (bind m (fun p => k))
  (at level 61, p pattern, m at next level, right associativity).

Definition of_option {A} (o : option A) : res A :=
  match o with Some a => Ok a | None => Raise end.

(** [assert b] *)
Definition assert (b : bool) : res unit := if b then Ok tt else Raise.

Fixpoint mapM {A B} (f : A -> res B) (l : list A) : res (list B) :=
  match l with
  | [] => Ok []
  | x :: l' => y <- f x ;; ys <- mapM f l' ;; Ok (y :: ys)
  end.

(** ** JSON values and [json.loads]

    The values [json.loads] builds.  A number keeps its lexeme (no
    conversion to [int] or [float] is modelled; [NaN], [Infinity] and
    [-Infinity] are lexemes too), an object is the [dict] of its members. *)

#[local] Unset Elimination Schemes.
Inductive json : Type :=
| JNull
| JBool (b : bool)
| JNum (lexeme : string)
| JStr (s : string)
| JArr (items : list json)
| JObj (members : Dict.t json).
#[local] Set Elimination Schemes.

Module Json.

(** *** Lexical level *)

(** [WHITESPACE]: space, tab, line feed, carriage return. *)
Definition is_ws (c : ascii) : bool :=
  Ascii.eqb c " " || Ascii.eqb c Py.tab || Ascii.eqb c Py.lf || Ascii.eqb c Py.cr.

Fixpoint skip_ws (s : string) : string :=
  match s with
  | EmptyString => ""
  | String c s' => if is_ws c then skip_ws s' else s
  end.

Definition is_digit (c : ascii) : bool :=
  ((48 <=? nat_of_ascii c) && (nat_of_ascii c <=? 57))%nat.

(** The longest run of digits at the head, and what follows it. *)
Fixpoint span_digits (s : string) : string * string :=
  match s with
  | EmptyString => ("", "")
  | String c s' =>
      if is_digit c then let (ds, r) := span_digits s' in (String c ds, r)
      else ("", s)
  end.

(** [p] removed from the head of [s]. *)
Fixpoint strip_prefix (p s : string) {struct p} : option string :=
  match p, s with
  | EmptyString, _ => Some s
  | String _ _, EmptyString => None
  | String a p', String b s' => if Ascii.eqb a b then strip_prefix p' s' else None
  end.

(** [NUMBER_RE]: an integer part (an optional minus sign, then a single
    zero or a non-zero digit and any digits), an optional fraction (a dot
    and one digit or more) and an optional exponent (e or E, an optional
    sign, one digit or more).  Each group returns its lexeme and the
    rest; a group that does not match consumes nothing. *)
Definition match_int (s : string) : option (string * string) :=
  let (sign, s1) := match s with
                    | String c s' => if Ascii.eqb c "-" then ("-", s') else ("", s)
                    | EmptyString => ("", s)
                    end in
  match s1 with
  | EmptyString => None
  | String c s2 =>
      if Ascii.eqb c "0" then Some (sign ++ "0", s2)
      else if is_digit c then
        let (ds, r) := span_digits s2 in Some (sign ++ String c ds, r)
      else None
  end.

Definition match_frac (s : string) : string * string :=
  match s with
  | String c s1 =>
      if Ascii.eqb c "." then
        let (ds, r) := span_digits s1 in
        if String.eqb ds "" then ("", s) else (String "." ds, r)
      else ("", s)
  | EmptyString => ("", s)
  end.

Definition match_exp (s : string) : string * string :=
  match s with
  | String e s1 =>
      if Ascii.eqb e "e" || Ascii.eqb e "E" then
        let (sg, s2) := match s1 with
                        | String c s2 =>
                            if Ascii.eqb c "+" || Ascii.eqb c "-"
                            then (String c "", s2) else ("", s1)
                        | EmptyString => ("", s1)
                        end in
        let (ds, r) := span_digits s2 in
        if String.eqb ds "" then ("", s) else (String e (sg ++ ds), r)
      else ("", s)
  | EmptyString => ("", s)
  end.

Definition match_number (s : string) : option (string * string) :=
  match match_int s with
  | None => None
  | Some (i, r1) =>
      let (f, r2) := match_frac r1 in
      let (e, r3) := match_exp r2 in
      Some (i ++ f ++ e, r3)
  end.

(** *** Strings

    [scanstring] (strict): the body of a string literal after its opening
    quote, read by a three-state automaton.  A [\uXXXX] escape yields a
    UTF-16 code unit; a high surrogate directly followed by a low one is
    one character. *)
Inductive item : Type :=
| Byte (c : ascii)
| Unit (u : N).

Inductive sstate : Type :=
| SNormal
| SEscape
| SHex (k : nat) (acc : N).

Definition hex_digit (c : ascii) : option N :=
  let n := N_of_ascii c in
  if ((48 <=? n) && (n <=? 57))%N then Some (n - 48)%N
  else if ((97 <=? n) && (n <=? 102))%N then Some (n - 87)%N
  else if ((65 <=? n) && (n <=? 70))%N then Some (n - 55)%N
  else None.

(** [BACKSLASH]: the one-character escapes. *)
Definition simple_escape (c : ascii) : option ascii :=
  if Ascii.eqb c Py.dquote then Some Py.dquote
  else if Ascii.eqb c Py.backslash then Some Py.backslash
  else if Ascii.eqb c "/" then Some "/"%char
  else if Ascii.eqb c "b" then Some "008"%char
  else if Ascii.eqb c "f" then Some "012"%char
  else if Ascii.eqb c "n" then Some Py.lf
  else if Ascii.eqb c "r" then Some Py.cr
  else if Ascii.eqb c "t" then Some Py.tab
  else None.

Definition push (i : item) (r : option (list item * string))
  : option (list item * string) :=
  match r with
  | Some (its, rest) => Some (i :: its, rest)
  | None => None
  end.

Fixpoint scan_items (st : sstate) (s : string) : option (list item * string) :=
  match s with
  | EmptyString => None
  | String c s' =>
      match st with
      | SNormal =>
          if Ascii.eqb c Py.dquote then Some ([], s')
          else if Ascii.eqb c Py.backslash then scan_items SEscape s'
          else if (nat_of_ascii c <? 32)%nat then None
          else push (Byte c) (scan_items SNormal s')
      | SEscape =>
          if Ascii.eqb c "u" then scan_items (SHex 0 0) s'
          else match simple_escape c with
               | Some b => push (Byte b) (scan_items SNormal s')
               | None => None
               end
      | SHex k acc =>
          match hex_digit c with
          | None => None
          | Some d =>
              let acc' := (acc * 16 + d)%N in
              if (k =? 3)%nat then push (Unit acc') (scan_items SNormal s')
              else scan_items (SHex (S k) acc') s'
          end
      end
  end.

(** The UTF-8 encoding of a code point (a lone surrogate is encoded the
    same way, in three bytes). *)
Definition utf8 (n : N) : string :=
  let b (x : N) := ascii_of_N x in
  (if n <? 128 then String (b n) ""
   else if n <? 2048 then
     String (b (192 + n / 64)) (String (b (128 + n mod 64)) "")
   else if n <? 65536 then
     String (b (224 + n / 4096))
       (String (b (128 + (n / 64) mod 64)) (String (b (128 + n mod 64)) ""))
   else
     String (b (240 + n / 262144))
       (String (b (128 + (n / 4096) mod 64))
          (String (b (128 + (n / 64) mod 64)) (String (b (128 + n mod 64)) ""))))%N.

Definition is_high (u : N) : bool := ((55296 <=? u) && (u <=? 56319))%N.
Definition is_low (u : N) : bool := ((56320 <=? u) && (u <=? 57343))%N.

Fixpoint decode_items (l : list item) : string :=
  match l with
  | [] => ""
  | Byte c :: l' => String c (decode_items l')
  | Unit u :: l' =>
      match l' with
      | Unit lo :: l'' =>
          if is_high u && is_low lo
          then utf8 (65536 + ((u - 55296) * 1024 + (lo - 56320)))%N ++ decode_items l''
          else utf8 u ++ decode_items l'
      | _ => utf8 u ++ decode_items l'
      end
  end.

Definition scanstring (s : string) : option (string * string) :=
  match scan_items SNormal s with
  | Some (its, rest) => Some (decode_items its, rest)
  | None => None
  end.

(** The text after the character [c], when the text starts with it. *)
Definition expect (c : ascii) (s : string) : option string :=
  match s with
  | String c' s' => if Ascii.eqb c' c then Some s' else None
  | EmptyString => None
  end.

(** *** Values

    [scan_once], with the loops of [JSONArray] and [JSONObject].  [fuel]
    bounds the depth of the calls.  A call that returns has consumed a
    character, so the fuel [json_loads] starts with, one more than the
    text is long, is never what makes it fail
    ([FuelFacts.json_loads_any_fuel]). *)
Fixpoint scan_once (fuel : nat) (s : string) {struct fuel} : option (json * string) :=
  match fuel with
  | O => None
  | S fuel' =>
      match s with
      | EmptyString => None
      | String c s' =>
          if Ascii.eqb c Py.dquote then
            match scanstring s' with
            | Some (str, r) => Some (JStr str, r)
            | None => None
            end
          else if Ascii.eqb c "{" then
            match expect "}" (skip_ws s') with
            | Some r => Some (JObj [], r)
            | None =>
                match object_loop fuel' (skip_ws s') with
                | Some (pairs, r) => Some (JObj (Dict.of_pairs pairs), r)
                | None => None
                end
            end
          else if Ascii.eqb c "[" then
            match expect "]" (skip_ws s') with
            | Some r => Some (JArr [], r)
            | None =>
                match array_loop fuel' (skip_ws s') with
                | Some (values, r) => Some (JArr values, r)
                | None => None
                end
            end
          else if Ascii.eqb c "n" then
            option_map (pair JNull) (strip_prefix "ull" s')
          else if Ascii.eqb c "t" then
            option_map (pair (JBool true)) (strip_prefix "rue" s')
          else if Ascii.eqb c "f" then
            option_map (pair (JBool false)) (strip_prefix "alse" s')
          else if Ascii.eqb c "N" then
            option_map (pair (JNum "NaN")) (strip_prefix "aN" s')
          else if Ascii.eqb c "I" then
            option_map (pair (JNum "Infinity")) (strip_prefix "nfinity" s')
          else
            match strip_prefix "-Infinity" s with
            | Some r => Some (JNum "-Infinity", r)
            | None =>
                match match_number s with
                | Some (lexeme, r) => Some (JNum lexeme, r)
                | None => None
                end
            end
      end
  end

(** One turn of the array loop: a value, then [']'] or [','] . *)
with array_loop (fuel : nat) (s : string) {struct fuel} : option (list json * string) :=
  match fuel with
  | O => None
  | S fuel' =>
      match scan_once fuel' s with
      | None => None
      | Some (value, r) =>
          match expect "]" (skip_ws r) with
          | Some r1 => Some ([value], r1)
          | None =>
              match expect "," (skip_ws r) with
              | Some r1 =>
                  match array_loop fuel' (skip_ws r1) with
                  | Some (values, r2) => Some (value :: values, r2)
                  | None => None
                  end
              | None => None
              end
          end
      end
  end

(** One turn of the object loop: a key, [':'], a value, then ['}'] or [','] . *)
with object_loop (fuel : nat) (s : string) {struct fuel} : option (list (string * json) * string) :=
  match fuel with
  | O => None
  | S fuel' =>
      match expect Py.dquote s with
      | None => None
      | Some s0 =>
          match scanstring s0 with
          | None => None
          | Some (key, r) =>
              match expect ":" (skip_ws r) with
              | None => None
              | Some r1 =>
                  match scan_once fuel' (skip_ws r1) with
                  | None => None
                  | Some (value, r2) =>
                      match expect "}" (skip_ws r2) with
                      | Some r3 => Some ([(key, value)], r3)
                      | None =>
                          match expect "," (skip_ws r2) with
                          | Some r3 =>
                              match object_loop fuel' (skip_ws r3) with
                              | Some (pairs, r4) => Some ((key, value) :: pairs, r4)
                              | None => None
                              end
                          | None => None
                          end
                      end
                  end
              end
          end
      end
  end.

(** A text that starts with [','] or [']'], as the text after an item
    of an array does. *)
Definition delimited (t : string) : bool :=
  match t with
  | String c _ => Ascii.eqb c "," || Ascii.eqb c "]"
  | EmptyString => false
  end.

(** A scanner reads the same from a text and from that text followed by
    a delimited one. *)
Definition extends {A : Type} (scan : string -> option (A * string)) : Prop :=
  forall (s t : string) (a : A) (r : string),
    delimited t = true -> scan s = Some (a, r) -> scan (s ++ t) = Some (a, r ++ t).

(** What [scan] reads, [scan'] reads too. *)
Definition stable {A : Type} (scan scan' : string -> option (A * string)) : Prop :=
  forall (s : string) (x : A * string), scan s = Some x -> scan' s = Some x.

(** A scanner returns less text than it is given. *)
Definition shrinks {A : Type} (scan : string -> option (A * string)) : Prop :=
  forall (s : string) (a : A) (r : string),
    scan s = Some (a, r) -> String.length r < String.length s.

(** What is read with some fuel is read with as much fuel as characters
    are read. *)
Definition frugal {A : Type} (scan : nat -> string -> option (A * string)) (f : nat) : Prop :=
  forall (s : string) (a : A) (r : string) (f' : nat),
    scan f s = Some (a, r) ->
    String.length s - String.length r <= f' ->
    scan f' s = Some (a, r).

(** U+FEFF, which [json.loads] refuses at the head of a [str]. *)
Definition bom : string := Py.bytes [239; 187; 191].

End Json.

(** [json.loads(s)] for a [str]: optional whitespace, one value, optional
    whitespace, end of text. *)
Definition json_loads (s : string) : res json :=
  if Py.startswith s Json.bom then Raise
  else match Json.scan_once (S (String.length s)) (Json.skip_ws s) with
       | Some (v, r) => if String.eqb (Json.skip_ws r) "" then Ok v else Raise
       | None => Raise
       end.

(** ** Flag extraction *)

(** [get_flag_value]: the loop [for i in range(len(argv) - 1)] visits every
    position that has a successor; the recursion below does the same, with
    [a = argv[i]] and [v = argv[i + 1]]. *)
Fixpoint get_flag_value (argv : list string) (flag : string) : option string :=
  match argv with
  | a :: ((v :: _) as rest) =>
      if String.eqb a flag then Some v
      else if String.eqb flag "-o" && Py.startswith a flag then Some (Py.drop 2 a)
      else get_flag_value rest flag
  | _ => None
  end.

(** [remove_flag_and_value]: at the first position [i] that has a successor
    and matches, the result is [argv[:i] + argv[i + 2:]]. *)
Fixpoint remove_flag_and_value (argv : list string) (flag : string)
  : option (list string) :=
  match argv with
  | a :: ((_ :: tl) as rest) =>
      if String.eqb a flag then Some tl
      else if String.eqb flag "-o" && Py.startswith a flag then Some tl
      else option_map (cons a) (remove_flag_and_value rest flag)
  | _ => None
  end.

(** The test both loops apply to [argv[i]]. *)
Definition flag_at (flag a : string) : bool :=
  String.eqb a flag || (String.eqb flag "-o" && Py.startswith a flag).

(** ** Dynamic typing on JSON values *)

(** [v[key]] for a [str] key: a [KeyError] on a dict without the key, a
    [TypeError] on everything that is not a dict. *)
Definition py_getitem (v : json) (key : string) : res json :=
  match v with
  | JObj d => of_option (Dict.get key d)
  | _ => Raise
  end.

(** [for x in v]: the items of a list, the keys of a dict, the characters
    of a str; a [TypeError] otherwise. *)
Definition py_iter (v : json) : res (list json) :=
  match v with
  | JArr items => Ok items
  | JObj d => Ok (map JStr (Dict.keys d))
  | JStr s => Ok (map JStr (Py.chars s))
  | _ => Raise
  end.

(** A value where a path is expected ([os.fspath]): a str, or a [TypeError]. *)
Definition as_str (v : json) : res string :=
  match v with
  | JStr s => Ok s
  | _ => Raise
  end.

(** [v == s] for a str [s] *)
Definition is_str (v : json) (s : string) : bool :=
  match v with
  | JStr s' => String.eqb s' s
  | _ => false
  end.

(** [frozenset(v)], as the list of its str members (a member of another
    type is never equal to a path); a list or a dict among the members is
    unhashable. *)
Definition frozenset (v : json) : res (list string) :=
  items <- py_iter v ;;
  _ <- assert (forallb (fun x => match x with JArr _ | JObj _ => false | _ => true end) items) ;;
  Ok (flat_map (fun x => match x with JStr s => [s] | _ => [] end) items).

(** ** The world of one invocation

    What the program reads from its environment.  The file system is the
    one the program sees once the link step has run; before that step it
    reads the environment and its arguments only.  A text file is given by
    the text that reading it in text mode returns, the standard output of
    a command as UTF-8 text without a byte order mark. *)

Record World : Type := {
  getenv : string -> option string;            (* os.getenv *)
  getcwd : string;                             (* os.getcwd() *)
  realpath : string -> string;                 (* os.path.realpath *)
  read_text : string -> option string;         (* open(path).read(); None: open raises *)
  listdir : string -> option (list string);    (* os.listdir; None: it raises *)
  isfile : string -> bool;                     (* os.path.isfile *)
  getctime : string -> option Z;               (* os.path.getctime, in an order-preserving scale *)
  sha256_hexdigest : string -> option string;  (* the SHA-256 of the file's bytes, in hexadecimal *)
  subprocess_run : list string -> option (Z * string)
                                               (* return code and standard output; None: not started *)
}.

(** The calls of the program that reach outside it, in program order:
    the lines it prints and the file it writes.  A printed line is handed
    to [sys.stdout]; when it is output depends on the buffering of the
    stream (see [flushed]). *)
Inductive event : Type :=
| AboutToExecute (argv : list string)   (* print("About to execute...", argv) *)
| AboutToRun (argv : list string)       (* print("About to run...", argv) *)
| LookingFor (dep : string)             (* print(f"Looking for dep {dep}") *)
| NotFound (dep : string)               (* print(f"{dep} NOT FOUND") *)
| Wrote (path : string) (doc : json).   (* open(path, "w"), f.write(json.dumps(doc)) *)

(** The ways control leaves the program before the end of [main]. *)
Inductive stop : Type :=
| Uncaught                       (* an exception reaches the top: traceback, exit status 1 *)
| SysExit (rc : Z)               (* [sys.exit(rc)] *)
| Execv (argv : list string).    (* [os.execv(argv[0], argv)]: the process image is replaced *)

Inductive ending (A : Type) : Type :=
| Done (a : A)
| Stop (e : stop).
Arguments Done {A} a.
Arguments Stop {A} e.

(** A computation that leaves a trace of events and may stop early. *)
Definition M (A : Type) : Type := list event * ending A.

Definition ret {A} (a : A) : M A := ([], Done a).

Definition bindM {A B} (m : M A) (f : A -> M B) : M B :=
  match m with
  | (tr, Done a) => let (tr', r) := f a in (tr ++ tr', r)%list
  | (tr, Stop e) => (tr, Stop e)
  end.

Definition emit (e : event) : M unit := ([e], Done tt).

Definition stop_with {A} (e : stop) : M A := ([], Stop e).

(** A call inside [main]: what it raises reaches the top. *)
Definition lift {A} (r : res A) : M A :=
  match r with
  | Ok a => ret a
  | Raise => stop_with Uncaught
  end.

Notation "x <~ m ;; k" := (bindM m (fun x => k))
  (at level 61, m at next level, right associativity).

(** ** Running programs *)

(** [argv[0] = os.path.join("/usr/local/bin/", os.path.basename(argv[0]))];
    an empty list has no [argv[0]]. *)
Definition in_usr_local_bin (argv : list string) : res (list string) :=
  match argv with
  | [] => Raise
  | a0 :: rest => Ok (OsPath.join "/usr/local/bin/" (OsPath.basename a0) :: rest)
  end.

(** [execute] prints and then replaces the process, without a flush in
    between: the line is in the buffer of [sys.stdout] when [os.execv] is
    called. *)
Definition execute (argv : list string) : M unit :=
  match in_usr_local_bin argv with
  | Raise => lift Raise
  | Ok argv =>
      _ <~ emit (AboutToExecute argv) ;;
      stop_with (Execv argv)
  end.

(** [run] assigns to [argv[0]] in place; the caller's list is the one
    returned here. *)
Definition run (w : World) (argv : list string) : M (list string) :=
  match in_usr_local_bin argv with
  | Raise => lift Raise
  | Ok argv =>
      _ <~ emit (AboutToRun argv) ;;
      match subprocess_run w argv with
      | None => lift Raise
      | Some (returncode, _) =>
          if (returncode =? 0)%Z then ret argv else stop_with (SysExit returncode)
      end
  end.

(** [subprocess.run(argv, capture_output=True, check=True).stdout] *)
Definition check_output (w : World) (argv : list string) : res string :=
  match subprocess_run w argv with
  | None => Raise
  | Some (returncode, stdout) =>
      if (returncode =? 0)%Z then Ok stdout else Raise
  end.

Definition sha256 (w : World) (file : string) : res string :=
  of_option (sha256_hexdigest w file).

(** The loop of [sha256] over the bytes of the file, for any hash object:
    [iter(lambda: f.read(size), b"")] yields the next [size] bytes (fewer
    at the end of the file) until a read returns no byte, and every chunk
    goes to [hash_value.update].  [fuel] bounds the number of reads. *)
Fixpoint read_loop {hash : Type} (update : hash -> string -> hash) (size : nat)
    (fuel : nat) (hash_value : hash) (rest : string) : option hash :=
  match fuel with
  | O => None
  | S fuel' =>
      let chunk := String.substring 0 size rest in
      if String.eqb chunk "" then Some hash_value
      else read_loop update size fuel' (update hash_value chunk) (Py.drop size rest)
  end.

(** The state of the hash object when [sha256] asks for the digest.  A
    read of a file of [n] bytes that is not the last returns at least one
    byte, so [n + 1] reads are enough. *)
Definition sha256_state {hash : Type} (update : hash -> string -> hash)
    (initial : hash) (data : string) : option hash :=
  read_loop update 4096 (S (String.length data)) initial data.

(** ** Binary identity *)

Definition _LLVM_READELF_PATH : string := "/usr/local/bin/llvm-readelf".

(** The two nested loops of [_get_build_id_from_elf_notes]; [None] when
    they end without a [return]. *)
Fixpoint notes_loop (notes : list json) : res (option json) :=
  match notes with
  | [] => Ok None
  | note_entry :: rest =>
      note_section <- py_getitem note_entry "NoteSection" ;;
      name <- py_getitem note_section "Name" ;;
      if is_str name ".note.gnu.build-id" then
        note_details <- py_getitem note_section "Note" ;;
        match note_details with
        | JObj d =>
            match Dict.get "Build ID" d with
            | Some id => Ok (Some id)
            | None => notes_loop rest
            end
        | JArr items =>
            if existsb (fun x => is_str x "Build ID") items then Raise
            else notes_loop rest
        | JStr s => if Py.contains s "Build ID" then Raise else notes_loop rest
        | _ => Raise
        end
      else notes_loop rest
  end.

Fixpoint files_loop (elf_data : list json) : res (option json) :=
  match elf_data with
  | [] => Ok None
  | file_info :: rest =>
      notes <- py_getitem file_info "Notes" ;;
      notes <- py_iter notes ;;
      found <- notes_loop notes ;;
      match found with
      | Some id => Ok (Some id)
      | None => files_loop rest
      end
  end.

(** [assert elf_data] fails on an empty list; a value that is not a list
    fails the assertion or cannot be iterated into mappings.  The result
    is the value of the [Build ID] field, or [None]; Python's [None] is
    [JNull] here, as it is for [json.loads], so a field that holds [null]
    gives the same result as no field. *)
Definition _get_build_id_from_elf_notes (contents : string) : res json :=
  elf_data <- json_loads contents ;;
  match elf_data with
  | JArr ((_ :: _) as files) =>
      found <- files_loop files ;;
      match found with
      | Some id => Ok id
      | None => Ok JNull
      end
  | _ => Raise
  end.

(** [check=True] raises on a non-zero return code, so the test of
    [ret.returncode] after it never fires. *)
Definition get_build_id (w : World) (elf_file : string) : res json :=
  stdout <- check_output w [_LLVM_READELF_PATH; "--notes"; "--elf-output-style=JSON"; elf_file] ;;
  _get_build_id_from_elf_notes stdout.

(** The entries of a [Notes] list, as the search sees them: an entry it
    passes over (its section has another name, or it is the build-id
    section but its note has no [Build ID] field), and an entry that holds
    the identifier. *)
Definition note_without_build_id (note_entry : json) : Prop :=
  exists note_section name,
    py_getitem note_entry "NoteSection" = Ok note_section
    /\ py_getitem note_section "Name" = Ok name
    /\ (is_str name ".note.gnu.build-id" = false
        \/ exists note_details,
             py_getitem note_section "Note" = Ok (JObj note_details)
             /\ Dict.get "Build ID" note_details = None).

Definition note_with_build_id (build_id : json) (note_entry : json) : Prop :=
  exists note_section note_details,
    py_getitem note_entry "NoteSection" = Ok note_section
    /\ py_getitem note_section "Name" = Ok (JStr ".note.gnu.build-id")
    /\ py_getitem note_section "Note" = Ok (JObj note_details)
    /\ Dict.get "Build ID" note_details = Some build_id.

(** A file entry whose notes are all passed over. *)
Definition file_without_build_id (file_info : json) : Prop :=
  exists notes,
    py_getitem file_info "Notes" = Ok (JArr notes)
    /\ Forall note_without_build_id notes.

(** ** Dependency file parser *)

Definition ignored_dep_paths : list string := ["/usr"; "/clang"; "/lib"].

(** The loop over [lines[1:]]: [break] at the first empty line, [continue]
    on a system or ignored path, [deps.append(dep)] otherwise. *)
Fixpoint dependency_loop (w : World) (ignored_deps : list string)
    (lines : list string) (deps : list string) : list string :=
  match lines with
  | [] => deps
  | line :: rest =>
      if String.eqb line "" then deps
      else
        let line := if Py.endswith line " \" then Py.drop_last 2 line else line in
        let dep := realpath w line in
        if existsb (fun p => Py.startswith dep p) ignored_dep_paths
        then dependency_loop w ignored_deps rest deps
        else if Py.mem dep ignored_deps
        then dependency_loop w ignored_deps rest deps
        else dependency_loop w ignored_deps rest (app deps [dep])
  end.

Definition parse_dependency_file (w : World) (file_path output_file : string)
    (ignored_deps : list string) : res (list string) :=
  let output_file := realpath w output_file in
  let output_file_line := output_file ++ ": \" in
  text <- of_option (read_text w file_path) ;;
  let lines := map Py.strip (Py.readlines text) in
  match lines with
  | [] => Raise
  | first :: rest =>
      _ <- assert (Py.endswith output_file_line first) ;;
      Ok (dependency_loop w ignored_deps rest [])
  end.

(** What the parser is to return, in the words of its contract: a line
    without its surrounding whitespace and continuation marker, made
    canonical, is kept unless it starts with a system prefix or is in the
    ignored set. *)
Definition dependency_of_line (w : World) (line : string) : string :=
  let line := Py.strip line in
  realpath w (if Py.endswith line " \" then Py.drop_last 2 line else line).

Definition is_system_path (dep : string) : bool :=
  Py.startswith dep "/usr" || Py.startswith dep "/clang" || Py.startswith dep "/lib".

Definition kept (ignored_deps : list string) (dep : string) : bool :=
  negb (is_system_path dep) && negb (Py.mem dep ignored_deps).

(** ** Fragment store reader *)

(** [list.sort(key=...)] is stable: an element goes before the first one
    with a key that is not smaller. *)
Fixpoint insert_by_key (x : Z * string) (l : list (Z * string)) : list (Z * string) :=
  match l with
  | [] => [x]
  | y :: l' => if (fst x <=? fst y)%Z then x :: l else y :: insert_by_key x l'
  end.

Definition sort_by_key (l : list (Z * string)) : list (Z * string) :=
  fold_right insert_by_key [] l.

Definition key_le (x y : Z * string) : Prop := (fst x <= fst y)%Z.

(** A file with its sort key, [os.path.getctime(file)]. *)
Definition ctime_key (w : World) (file : string) : res (Z * string) :=
  t <- of_option (getctime w file) ;; Ok (t, file).

Definition files_by_creation_time (w : World) (folder_path : string) : res (list string) :=
  names <- of_option (listdir w folder_path) ;;
  let files := filter (isfile w) (map (OsPath.join folder_path) names) in
  keyed <- mapM (ctime_key w) files ;;
  Ok (map snd (sort_by_key keyed)).

(** The files whose creation time is [t]. *)
Definition created_at (w : World) (t : Z) (file : string) : bool :=
  match getctime w file with
  | Some t' => (t' =? t)%Z
  | None => false
  end.

(** The sentinel that ends a fragment: a comma and a line feed. *)
Definition sentinel : string := String "," (String Py.lf "").

Fixpoint fragments_loop (w : World) (files : list string) (contents : list string)
  : res (list string) :=
  match files with
  | [] => Ok contents
  | file :: rest =>
      if Py.endswith file "_linker_commands.json" then fragments_loop w rest contents
      else if negb (Py.endswith file ".json") then fragments_loop w rest contents
      else
        data <- of_option (read_text w file) ;;
        _ <- assert (Py.endswith data sentinel) ;;
        fragments_loop w rest (app contents [Py.drop_last 2 data])
  end.

(** The files the loop reads: those with the suffix of a fragment that are
    not provenance records written by earlier runs. *)
Definition is_fragment (file : string) : bool :=
  Py.endswith file ".json" && negb (Py.endswith file "_linker_commands.json").

Definition read_cdb_fragments (w : World) (cdb_path : string) : res json :=
  files <- files_by_creation_time w cdb_path ;;
  contents <- fragments_loop w files [] ;;
  let contents := Py.join sentinel contents in
  let contents := "[" ++ contents ++ "]" in
  json_loads contents.

(** ** Command matcher *)

(** [os.path.realpath(os.path.join(command["directory"], command["output"]))] *)
Definition command_path (w : World) (command : json) : res string :=
  directory <- py_getitem command "directory" ;;
  output <- py_getitem command "output" ;;
  directory <- as_str directory ;;
  output <- as_str output ;;
  Ok (realpath w (OsPath.join directory output)).

(** [os.path.basename(command["output"])] *)
Definition command_basename (command : json) : res string :=
  output <- py_getitem command "output" ;;
  output <- as_str output ;;
  Ok (OsPath.basename output).

(** The inner loop [for command in cdb] of either kind: every command
    whose name (as [name_of] computes it) is [dep] is assigned to
    [commands[dep]], one after the other. *)
Fixpoint assign_matches (name_of : json -> res string) (dep : string)
    (cdb : list json) (commands : Dict.t json) : res (Dict.t json) :=
  match cdb with
  | [] => Ok commands
  | command :: rest =>
      name <- name_of command ;;
      assign_matches name_of dep rest
        (if String.eqb name dep then Dict.set dep command commands else commands)
  end.

Definition report_missing (dep : string) (commands : Dict.t json) : M unit :=
  if Dict.mem dep commands then ret tt else emit (NotFound dep).

(** The loop [for dep in obj_deps]. *)
Fixpoint match_obj_deps (w : World) (fuzzer_engine : string) (cdb : json)
    (obj_deps : list string) (commands : Dict.t json) : M (Dict.t json) :=
  match obj_deps with
  | [] => ret commands
  | dep :: rest =>
      _ <~ emit (LookingFor dep) ;;
      if String.eqb dep fuzzer_engine
      then match_obj_deps w fuzzer_engine cdb rest commands
      else
        let dep := realpath w dep in
        commands <~ lift (items <- py_iter cdb ;;
                          assign_matches (command_path w) dep items commands) ;;
        _ <~ report_missing dep commands ;;
        match_obj_deps w fuzzer_engine cdb rest commands
  end.

(** The loop [for archive_dep in archive_deps]. *)
Fixpoint match_archive_deps (cdb : json) (archive_deps : list string)
    (commands : Dict.t json) : M (Dict.t json) :=
  match archive_deps with
  | [] => ret commands
  | archive_dep :: rest =>
      commands <~ lift (items <- py_iter cdb ;;
                        assign_matches command_basename archive_dep items commands) ;;
      _ <~ report_missing archive_dep commands ;;
      match_archive_deps cdb rest commands
  end.

(** Both loops, from [commands = {}]. *)
Definition match_commands (w : World) (fuzzer_engine : string) (cdb : json)
    (obj_deps archive_deps : list string) : M (Dict.t json) :=
  commands <~ match_obj_deps w fuzzer_engine cdb obj_deps [] ;;
  match_archive_deps cdb archive_deps commands.

(** What the inner loop leaves in [commands], told without its
    exceptions: a command matches [dep] when its name is computed and is
    [dep], and the matching commands are assigned in the order of the
    database. *)
Definition matching (name_of : json -> res string) (dep : string) (command : json) : bool :=
  match name_of command with
  | Ok name => String.eqb name dep
  | Raise => false
  end.

Definition assigned (name_of : json -> res string) (dep : string)
    (cdb : list json) (commands : Dict.t json) : Dict.t json :=
  fold_left (fun commands command =>
               if matching name_of dep command then Dict.set dep command commands
               else commands)
    cdb commands.

(** A command as the compiler writes it: an object whose [directory] and
    [output] are strings. *)
Definition well_formed (command : json) : Prop :=
  exists directory output,
    py_getitem command "directory" = Ok (JStr directory)
    /\ py_getitem command "output" = Ok (JStr output).

(** The events of a run of the matcher that tell [dep] was not found. *)
Definition reported (dep : string) (trace : list event) : Prop :=
  In (NotFound dep) trace.

Definition is_looking_for (dep : string) (e : event) : bool :=
  match e with
  | LookingFor d => String.eqb d dep
  | _ => false
  end.

(** A dependency list without the fuzzing engine, and a trace without the
    line that says the engine is looked for. *)
Definition without_engine (fuzzer_engine : string) (deps : list string) : list string :=
  filter (fun dep => negb (String.eqb dep fuzzer_engine)) deps.

Definition without_looking_for (fuzzer_engine : string) (trace : list event) : list event :=
  filter (fun e => negb (is_looking_for fuzzer_engine e)) trace.

(** The [Looking for dep] lines among the events. *)
Definition is_announcement (e : event) : bool :=
  match e with
  | LookingFor _ => true
  | _ => false
  end.

(** What the matcher prints when no command matches anything: every
    object file is announced, and every dependency but the engine is
    reported. *)
Definition unmatched_lines (w : World) (fuzzer_engine : string)
    (obj_deps archive_deps : list string) : list event :=
  (flat_map (fun dep => LookingFor dep
                        :: (if String.eqb dep fuzzer_engine then []
                            else [NotFound (realpath w dep)]))
     obj_deps
   ++ map NotFound archive_deps)%list.

(** The two loops on a database of well-formed commands, where the inner
    loop raises nothing: the dictionary they build and the lines they
    print. *)
Section Bindings.

Variable w : World.
Variable fuzzer_engine : string.
Variable cdb : list json.

Definition obj_step (commands : Dict.t json) (dep : string) : Dict.t json :=
  if String.eqb dep fuzzer_engine then commands
  else assigned (command_path w) (realpath w dep) cdb commands.

Definition obj_bindings (obj_deps : list string) (commands : Dict.t json) : Dict.t json :=
  fold_left obj_step obj_deps commands.

Fixpoint obj_trace (obj_deps : list string) (commands : Dict.t json) : list event :=
  match obj_deps with
  | [] => []
  | dep :: rest =>
      let commands' := obj_step commands dep in
      LookingFor dep
      :: (if String.eqb dep fuzzer_engine || Dict.mem (realpath w dep) commands'
          then [] else [NotFound (realpath w dep)])
      ++ obj_trace rest commands'
  end.

Definition archive_step (commands : Dict.t json) (archive_dep : string) : Dict.t json :=
  assigned command_basename archive_dep cdb commands.

Definition archive_bindings (archive_deps : list string) (commands : Dict.t json)
  : Dict.t json :=
  fold_left archive_step archive_deps commands.

Fixpoint archive_trace (archive_deps : list string) (commands : Dict.t json) : list event :=
  match archive_deps with
  | [] => []
  | archive_dep :: rest =>
      let commands' := archive_step commands archive_dep in
      (if Dict.mem archive_dep commands' then [] else [NotFound archive_dep])
      ++ archive_trace rest commands'
  end.

(** Every key of the dictionary is a path with a matching command. *)
Definition matched_keys (commands : Dict.t json) : Prop :=
  forall k, Dict.get k commands <> None ->
            exists c, In c cdb /\ matching (command_path w) k c = true.

(** If the dictionary has the key [a], some command has the basename [a]. *)
Definition member_keys (a : string) (commands : Dict.t json) : Prop :=
  Dict.get a commands <> None ->
  exists c, In c cdb /\ matching command_basename a c = true.

End Bindings.

(** ** Dispatcher *)

Definition obj_deps_of (deps : list string) : list string :=
  filter (fun dep => Py.endswith dep ".o") deps.

Definition ar_deps_of (fuzzer_engine : string) (deps : list string) : list string :=
  filter (fun dep => Py.endswith dep ".a" && negb (String.eqb dep fuzzer_engine)) deps.

(** The loop [for archive in ar_deps], which lists the members of each
    archive with [ar -t]. *)
Fixpoint archive_members (w : World) (ar_deps : list string) (archive_deps : list string)
  : res (list string) :=
  match ar_deps with
  | [] => Ok archive_deps
  | archive :: rest =>
      stdout <- check_output w ["ar"; "-t"; archive] ;;
      archive_members w rest (app archive_deps (Py.splitlines stdout))
  end.

(** What [ar -t] prints for an archive: one member per line.  A member
    name holds no line end. *)
Definition ar_listing (members : list string) : string :=
  String.concat "" (map (fun member => member ++ String Py.lf "") members).

Definition one_line (s : string) : Prop :=
  ~ In Py.lf (list_ascii_of_string s) /\ ~ In Py.cr (list_ascii_of_string s).

(** [v is None] *)
Definition is_none (v : json) : bool :=
  match v with
  | JNull => true
  | _ => false
  end.

(** An [assert] on a value from [get_flag_value]: [None] and the empty
    string both fail it. *)
Definition assert_flag (v : option string) : res string :=
  match v with
  | Some s => if String.eqb s "" then Raise else Ok s
  | None => Raise
  end.

(** The files the linker is asked to write next to the fragments. *)
Definition dependency_file_of (cdb_path output_file : string) : string :=
  OsPath.join cdb_path (OsPath.basename output_file ++ ".deps").

Definition why_extract_file_of (cdb_path output_file : string) : string :=
  OsPath.join cdb_path (OsPath.basename output_file ++ ".why_extract").

(** The four [argv.append] calls. *)
Definition linker_flags (cdb_path output_file : string) : list string :=
  ["-fuse-ld=lld";
   "-Wl,--dependency-file=" ++ dependency_file_of cdb_path output_file;
   "-Wl,--why-extract=" ++ why_extract_file_of cdb_path output_file;
   "-Wl,--build-id"].

(** [frozenset(json.load(f)["deps"])] on [/opt/indexer/ignored_deps.json] *)
Definition load_ignored_deps (w : World) : res (list string) :=
  text <- of_option (read_text w "/opt/indexer/ignored_deps.json") ;;
  doc <- json_loads text ;;
  deps <- py_getitem doc "deps" ;;
  frozenset deps.

(** The part of [main] after the decision to capture. *)
Definition capture (w : World) (fuzzer_engine : string) (argv : list string) : M unit :=
  output_file <~ lift (assert_flag (get_flag_value argv "-o")) ;;
  cdb_path <~ lift (assert_flag (get_flag_value argv "-gen-cdb-fragment-path")) ;;
  argv <~ lift (of_option (remove_flag_and_value argv "-gen-cdb-fragment-path")) ;;
  let dependency_file := dependency_file_of cdb_path output_file in
  let argv := app argv (linker_flags cdb_path output_file) in
  argv <~ run w argv ;;
  build_id <~ lift (get_build_id w output_file) ;;
  _ <~ lift (assert (negb (is_none build_id))) ;;
  output_hash <~ lift (sha256 w output_file) ;;
  ignored_deps <~ lift (load_ignored_deps w) ;;
  deps <~ lift (parse_dependency_file w dependency_file output_file ignored_deps) ;;
  let obj_deps := obj_deps_of deps in
  let ar_deps := ar_deps_of fuzzer_engine deps in
  archive_deps <~ lift (archive_members w ar_deps []) ;;
  cdb <~ lift (read_cdb_fragments w cdb_path) ;;
  commands <~ match_commands w fuzzer_engine cdb obj_deps archive_deps ;;
  let linker_commands :=
    JObj [ ("output", JStr output_file);
           ("directory", JStr (getcwd w));
           ("deps", JArr (map JStr (app obj_deps archive_deps)));
           ("args", JArr (map JStr argv));
           ("sha256", JStr output_hash);
           ("gnu_build_id", build_id);
           ("compile_commands", JArr (Dict.values commands)) ] in
  build_id <~ lift (as_str build_id) ;;
  let commands_path := OsPath.join cdb_path (build_id ++ "_linker_commands.json") in
  emit (Wrote commands_path linker_commands).

Definition main (w : World) (argv : list string) : M unit :=
  match getenv w "LIB_FUZZING_ENGINE" with
  | None => execute argv
  | Some fuzzer_engine =>
      if String.eqb fuzzer_engine ""
         || (negb (Py.mem fuzzer_engine argv) && negb (Py.mem "-lFuzzingEngine" argv))
      then execute argv
      else capture w fuzzer_engine argv
  end.

(** The dictionary [linker_commands] that [main] serialises, for a build
    identifier that is a str. *)
Definition record_of (w : World) (output_file : string) (command deps : list string)
    (output_hash build_id : string) (commands : Dict.t json) : json :=
  JObj [ ("output", JStr output_file);
         ("directory", JStr (getcwd w));
         ("deps", JArr (map JStr deps));
         ("args", JArr (map JStr command));
         ("sha256", JStr output_hash);
         ("gnu_build_id", JStr build_id);
         ("compile_commands", JArr (Dict.values commands)) ].

(** The invocations [main] does not hand over to the compiler driver. *)
Definition captures (w : World) (fuzzer_engine : string) (argv : list string) : Prop :=
  getenv w "LIB_FUZZING_ENGINE" = Some fuzzer_engine
  /\ fuzzer_engine <> ""
  /\ (In fuzzer_engine argv \/ In "-lFuzzingEngine" argv).

(** The return codes [subprocess] reports: the exit status of the child,
    from 0 to 255, or minus the number of the signal that ended it. *)
Definition returncode (rc : Z) : Prop := (-256 < rc < 256)%Z.

(** A world whose tools return such codes. *)
Definition posix_returncodes (w : World) : Prop :=
  forall argv rc stdout, subprocess_run w argv = Some (rc, stdout) -> returncode rc.

(** The exit status of the process, when it is this program that ends it:
    0 after a return, 1 after an uncaught exception, the low eight bits of
    the argument after [sys.exit] ([sys.exit(-11)] gives 245). *)
Definition exit_status (r : ending unit) : option Z :=
  match r with
  | Done _ => Some 0%Z
  | Stop Uncaught => Some 1%Z
  | Stop (SysExit rc) => Some (rc mod 256)%Z
  | Stop (Execv _) => None
  end.

Definition is_write (e : event) : bool :=
  match e with
  | Wrote _ _ => true
  | _ => false
  end.

Definition writes_nothing (trace : list event) : Prop :=
  Forall (fun e => is_write e = false) trace.

(** ** Standard output

    [print] hands a line to [sys.stdout].  The stream passes it on at once
    when it is line-buffered (a terminal) or the interpreter runs
    unbuffered; otherwise, with standard output a pipe or a file, the line
    stays in the buffer until the buffer is full or the interpreter exits.
    The interpreter flushes when [main] returns, on [sys.exit] and after an
    uncaught exception; [os.execv] replaces the process with the buffer
    still in it. *)
Inductive buffering : Type :=
| LineBuffered
| BlockBuffered.

(** The events that are certain to have left the process when it ends.
    The record is written and closed by [main] itself; the lines of a
    process that is replaced are certain to be out only if the stream
    passes lines on at once. *)
Definition flushed {A} (mode : buffering) (m : M A) : list event :=
  match mode, snd m with
  | BlockBuffered, Stop (Execv _) => filter is_write (fst m)
  | _, _ => fst m
  end.

(** A stop that is a failure: an exception, or [sys.exit] with an
    argument other than 0. *)
Definition fails (e : stop) : Prop :=
  match e with
  | Uncaught => True
  | SysExit rc => rc <> 0%Z
  | Execv _ => False
  end.

(** A step that writes nothing, and fails when it stops. *)
Definition silent {A} (m : M A) : Prop :=
  writes_nothing (fst m) /\ forall e, snd m = Stop e -> fails e.

(** A computation that has written nothing when it stops, and fails then. *)
Definition careful {A} (m : M A) : Prop :=
  forall e, snd m = Stop e -> writes_nothing (fst m) /\ fails e.

(** A computation that calls [sys.exit] only with the return code of a
    tool, and never replaces the process. *)
Definition exits_with_returncode (w : World) {A} (m : M A) : Prop :=
  forall e, snd m = Stop e ->
            e = Uncaught
            \/ exists argv rc stdout,
                 e = SysExit rc /\ subprocess_run w argv = Some (rc, stdout).

(** The fatal conditions of a capturing invocation, as they show in its
    world: a missing flag, a linker, [llvm-readelf] or [ar] that returns a
    non-zero code, notes without a build identifier, a dependency file
    whose first line is not a suffix of the expected header, a fragment
    without its sentinel. *)
Inductive fatal (w : World) (fuzzer_engine : string) (argv : list string) : Prop :=
| Missing_output_flag :
    get_flag_value argv "-o" = None ->
    fatal w fuzzer_engine argv
| Missing_fragment_flag :
    get_flag_value argv "-gen-cdb-fragment-path" = None ->
    fatal w fuzzer_engine argv
| Linker_failed (output_file cdb_path : string) (rest command : list string)
    (rc : Z) (stdout : string) :
    get_flag_value argv "-o" = Some output_file ->
    get_flag_value argv "-gen-cdb-fragment-path" = Some cdb_path ->
    remove_flag_and_value argv "-gen-cdb-fragment-path" = Some rest ->
    in_usr_local_bin (rest ++ linker_flags cdb_path output_file) = Ok command ->
    subprocess_run w command = Some (rc, stdout) ->
    rc <> 0%Z ->
    fatal w fuzzer_engine argv
| Readelf_failed (output_file : string) (rc : Z) (stdout : string) :
    get_flag_value argv "-o" = Some output_file ->
    subprocess_run w [_LLVM_READELF_PATH; "--notes"; "--elf-output-style=JSON"; output_file]
    = Some (rc, stdout) ->
    rc <> 0%Z ->
    fatal w fuzzer_engine argv
| Missing_build_id (output_file : string) :
    get_flag_value argv "-o" = Some output_file ->
    get_build_id w output_file = Ok JNull ->
    fatal w fuzzer_engine argv
| Malformed_header (output_file cdb_path text : string) :
    get_flag_value argv "-o" = Some output_file ->
    get_flag_value argv "-gen-cdb-fragment-path" = Some cdb_path ->
    read_text w (dependency_file_of cdb_path output_file) = Some text ->
    (forall first pre, hd_error (Py.readlines text) = Some first ->
                       realpath w output_file ++ ": \" <> pre ++ Py.strip first) ->
    fatal w fuzzer_engine argv
| Archiver_failed (output_file cdb_path : string) (ignored_deps deps : list string)
    (archive : string) (rc : Z) (stdout : string) :
    get_flag_value argv "-o" = Some output_file ->
    get_flag_value argv "-gen-cdb-fragment-path" = Some cdb_path ->
    load_ignored_deps w = Ok ignored_deps ->
    parse_dependency_file w (dependency_file_of cdb_path output_file) output_file ignored_deps
    = Ok deps ->
    In archive (ar_deps_of fuzzer_engine deps) ->
    subprocess_run w ["ar"; "-t"; archive] = Some (rc, stdout) ->
    rc <> 0%Z ->
    fatal w fuzzer_engine argv
| Torn_fragment (cdb_path : string) (names : list string) (name data : string) :
    get_flag_value argv "-gen-cdb-fragment-path" = Some cdb_path ->
    listdir w cdb_path = Some names ->
    In name names ->
    isfile w (OsPath.join cdb_path name) = true ->
    is_fragment (OsPath.join cdb_path name) = true ->
    read_text w (OsPath.join cdb_path name) = Some data ->
    (forall body, data <> body ++ sentinel) ->
    fatal w fuzzer_engine argv.

(** ** Concrete invocations

    A small build tree, used to run the definitions above: sources are
    compiled in [/src], fragments are written to [/cdb], the binary goes to
    [/out]. *)

Module Example.

Definition nl : string := String Py.lf "".
Definition q : string := String Py.dquote "".

(** A world given by its tables.  [realpath] resolves a relative path
    against the working directory [/src]. *)
Definition world (engine : option string) (files : Dict.t string)
    (cdb_dir : list (string * Z)) (tools : list string -> option (Z * string)) : World :=
  {| getenv := fun name => if String.eqb name "LIB_FUZZING_ENGINE" then engine else None;
     getcwd := "/src";
     realpath := fun path => if Py.startswith path "/" then path else "/src/" ++ path;
     read_text := fun path => Dict.get path files;
     listdir := fun path => if String.eqb path "/cdb" then Some (map fst cdb_dir) else None;
     isfile := fun _ => true;
     getctime := fun path => Dict.get path (map (fun e => ("/cdb/" ++ fst e, snd e)) cdb_dir);
     sha256_hexdigest := fun _ => Some "9f86d081884c7d65";
     subprocess_run := tools |}.

Definition no_tools : list string -> option (Z * string) := fun _ => None.

(** The dependency file of the scenario for output [foo]. *)
Definition foo_deps : string :=
  "foo: \" ++ nl ++ "  a.o \" ++ nl ++ "  /usr/lib/libc.a \" ++ nl ++ "  b.a" ++ nl ++ nl.

Definition parser_world : World :=
  world None [("/cdb/foo.deps", foo_deps)] [] no_tools.

(** A dependency file whose header names [bar], read for the output
    [/out/foobar]. *)
Definition bar_deps : string :=
  "bar: \" ++ nl ++ "  /src/a.o" ++ nl ++ nl.

Definition header_world : World :=
  world None [("/cdb/foobar.deps", bar_deps)] [] no_tools.

(** Commands of a database, with the source file as the field that
    tells two commands for the same output apart. *)
Definition command (directory output file : string) : json :=
  JObj [("directory", JStr directory); ("file", JStr file); ("output", JStr output)].

Definition first_a : json := command "/src" "a.o" "first.c".
Definition second_a : json := command "/src" "a.o" "second.c".
Definition only_b : json := command "/src" "b.o" "b.c".

Definition engine : string := "/usr/lib/libFuzzingEngine.a".

Definition matcher_world : World := world (Some engine) [] [] no_tools.

(** A link of [/out/foo] against the fuzzing engine, with the fragments
    in [/cdb]. *)
Definition link_argv : list string :=
  ["clang"; "a.o"; "-o"; "/out/foo"; "-gen-cdb-fragment-path"; "/cdb"; "-lFuzzingEngine"].

Definition field (key value : string) : string :=
  q ++ key ++ q ++ ": " ++ q ++ value ++ q.

(** The text of a fragment, sentinel included. *)
Definition fragment (directory output file : string) : string :=
  "{" ++ field "directory" directory ++ ", " ++ field "file" file ++ ", "
  ++ field "output" output ++ "}" ++ sentinel.

(** What [llvm-readelf --notes --elf-output-style=JSON] prints for a
    binary with the build identifier [deadbeef]. *)
Definition notes : string :=
  "[{" ++ q ++ "Notes" ++ q ++ ": [{" ++ q ++ "NoteSection" ++ q ++ ": {"
  ++ field "Name" ".note.gnu.build-id" ++ ", " ++ q ++ "Note" ++ q ++ ": {"
  ++ field "Build ID" "deadbeef" ++ "}}}]}]".

Definition tools (argv : list string) : option (Z * string) :=
  match argv with
  | "ar" :: _ => Some (0%Z, "b.o" ++ nl)
  | "/usr/local/bin/llvm-readelf" :: _ => Some (0%Z, notes)
  | _ => Some (0%Z, "")
  end.

Definition link_files : Dict.t string :=
  [ ("/cdb/foo.deps",
     "/out/foo: \" ++ nl ++ "  a.o \" ++ nl ++ "  /usr/lib/libc.a \" ++ nl
     ++ "  libb.a" ++ nl ++ nl);
    ("/opt/indexer/ignored_deps.json", "{" ++ q ++ "deps" ++ q ++ ": []}");
    ("/cdb/a.json", fragment "/src" "a.o" "a.c");
    ("/cdb/b.json", fragment "/src" "b.o" "b.c") ].

(** The directory as [os.listdir] gives it, with creation times. *)
Definition cdb_dir : list (string * Z) :=
  [ ("b.json", 2%Z); ("foo.deps", 3%Z); ("a.json", 1%Z);
    ("old_linker_commands.json", 0%Z) ].

Definition link_world : World :=
  world (Some engine) link_files cdb_dir tools.

(** The same, but the fragment of [b.o] has lost its sentinel. *)
Definition torn_world : World :=
  world (Some engine)
    (Dict.set "/cdb/b.json" ("{" ++ field "directory" "/src") link_files) cdb_dir tools.

End Example.

(** ** Further invocations

    Variations of the build tree above: tools that fail, notes with and
    without a build identifier, directories with ties and without
    fragments. *)

Module Scenario.

(** The linker returns 3. *)
Definition failing_linker (argv : list string) : option (Z * string) :=
  match argv with
  | "/usr/local/bin/clang" :: _ => Some (3%Z, "")
  | _ => Example.tools argv
  end.

Definition failing_linker_world : World :=
  Example.world (Some Example.engine) Example.link_files Example.cdb_dir failing_linker.

(** [llvm-readelf] returns 2. *)
Definition failing_readelf (argv : list string) : option (Z * string) :=
  match argv with
  | "/usr/local/bin/llvm-readelf" :: _ => Some (2%Z, "")
  | _ => Example.tools argv
  end.

Definition failing_readelf_world : World :=
  Example.world (Some Example.engine) Example.link_files Example.cdb_dir failing_readelf.

(** The command the wrapper runs for [Example.link_argv]. *)
Definition link_command : list string :=
  ["/usr/local/bin/clang"; "a.o"; "-o"; "/out/foo"; "-lFuzzingEngine"; "-fuse-ld=lld";
   "-Wl,--dependency-file=/cdb/foo.deps"; "-Wl,--why-extract=/cdb/foo.why_extract";
   "-Wl,--build-id"].

(** Note entries as values, and the text [llvm-readelf] prints for them. *)
Definition note_value (name : string) (details : Dict.t json) : json :=
  JObj [("NoteSection", JObj [("Name", JStr name); ("Note", JObj details)])].

Definition abi_note : json := note_value ".note.ABI-tag" [("OS", JStr "Linux")].

Definition id_note : json :=
  note_value ".note.gnu.build-id" [("Build ID", JStr "a03df61c5b0c26f3")].

Definition note_text (name fields : string) : string :=
  "{" ++ Example.q ++ "NoteSection" ++ Example.q ++ ": {" ++ Example.field "Name" name
  ++ ", " ++ Example.q ++ "Note" ++ Example.q ++ ": {" ++ fields ++ "}}}".

Definition notes_text (entries : string) : string :=
  "[{" ++ Example.q ++ "Notes" ++ Example.q ++ ": [" ++ entries ++ "]}]".

Definition two_notes : string :=
  notes_text (note_text ".note.ABI-tag" (Example.field "OS" "Linux") ++ ", "
              ++ note_text ".note.gnu.build-id" (Example.field "Build ID" "a03df61c5b0c26f3")).

Definition abi_only : string :=
  notes_text (note_text ".note.ABI-tag" (Example.field "OS" "Linux")).

(** A directory in which two fragments have the same creation time. *)
Definition tied_dir : list (string * Z) :=
  [ ("b.json", 1%Z); ("a.json", 1%Z); ("c.json", 0%Z) ].

Definition tied_world : World := Example.world None [] tied_dir Example.no_tools.

(** A directory without fragments. *)
Definition bare_dir : list (string * Z) :=
  [ ("foo.deps", 3%Z); ("old_linker_commands.json", 0%Z) ].

Definition bare_world : World := Example.world None [] bare_dir Example.no_tools.

(** The link of [Example.link_world] once more, when the record of the
    first run is in the directory. *)
Definition rerun_world : World :=
  Example.world (Some Example.engine)
    (Dict.set "/cdb/old_linker_commands.json" "{}" Example.link_files)
    Example.cdb_dir Example.tools.

(** A dependency file that ends without a blank line, and without a
    line feed after its last line. *)
Definition unterminated_deps : string :=
  "foo: \" ++ Example.nl ++ "  a.o \" ++ Example.nl ++ "  /lib64/libm.a \" ++ Example.nl
  ++ "  b.a".

Definition unterminated_world : World :=
  Example.world None [("/cdb/foo.deps", unterminated_deps)] [] Example.no_tools.

(** Tools that all return 0: [ar] lists one member, [llvm-readelf] prints
    the notes of [Example.notes]. *)
Definition quiet_tools (argv : list string) : option (Z * string) :=
  Some (0%Z, match argv with
             | "ar" :: _ => "b.o" ++ Example.nl
             | "/usr/local/bin/llvm-readelf" :: _ => Example.notes
             | _ => ""
             end).

(** The link of [Example.link_argv] when the fragment of [b.o] has lost
    its sentinel. *)
Definition torn_world : World :=
  Example.world (Some Example.engine)
    (Dict.set "/cdb/b.json" ("{" ++ Example.field "directory" "/src") Example.link_files)
    Example.cdb_dir quiet_tools.

(** A link of [/out/foobar] whose dependency file names [bar] in its
    first line. *)
Definition misnamed_argv : list string :=
  ["clang"; "a.o"; "-o"; "/out/foobar"; "-gen-cdb-fragment-path"; "/cdb"; "-lFuzzingEngine"].

Definition misnamed_files : Dict.t string :=
  [ ("/cdb/foobar.deps", "bar: \" ++ Example.nl ++ "  a.o \" ++ Example.nl ++ Example.nl);
    ("/opt/indexer/ignored_deps.json",
     "{" ++ Example.q ++ "deps" ++ Example.q ++ ": []}");
    ("/cdb/a.json", Example.fragment "/src" "a.o" "a.c") ].

Definition misnamed_world : World :=
  Example.world (Some Example.engine) misnamed_files [("a.json", 1%Z)] quiet_tools.

(** The engine is named by a path relative to the working directory. *)
Definition relative_engine_world : World :=
  Example.world (Some "engine.o") [] [] Example.no_tools.

(** A command without its [output]. *)
Definition no_output : json := JObj [("directory", JStr "/src"); ("file", JStr "a.c")].

End Scenario.

(* ================================================================== *)
(** * Properties *)

(** ** Strings *)

Lemma append_assoc (a b c : string) : (a ++ b) ++ c = a ++ (b ++ c).
Proof. induction a; simpl; congruence. Qed.

Lemma startswith_append (p s : string) : Py.startswith (p ++ s) p = true.
Proof.
  induction p as [|c p IH]; simpl; [reflexivity|].
  now rewrite Ascii.eqb_refl.
Qed.

(** ** Flags *)

Section Flags.

Variable flag : string.

Lemma flag_at_false (a : string) :
  flag_at flag a = false ->
  String.eqb a flag = false /\ String.eqb flag "-o" && Py.startswith a flag = false.
Proof. unfold flag_at. now intros H%orb_false_iff. Qed.

Lemma get_flag_value_skip (x y : string) (l : list string) :
  flag_at flag x = false ->
  get_flag_value (x :: y :: l) flag = get_flag_value (y :: l) flag.
Proof. intros [E1 E2]%flag_at_false. cbn [get_flag_value]. now rewrite E1, E2. Qed.

Lemma remove_flag_and_value_skip (x y : string) (l : list string) :
  flag_at flag x = false ->
  remove_flag_and_value (x :: y :: l) flag
  = option_map (cons x) (remove_flag_and_value (y :: l) flag).
Proof. intros [E1 E2]%flag_at_false. cbn [remove_flag_and_value]. now rewrite E1, E2. Qed.

Lemma get_flag_value_first (pre : list string) (a v : string) (post : list string) :
  Forall (fun x => flag_at flag x = false) pre ->
  flag_at flag a = true ->
  get_flag_value (pre ++ a :: v :: post) flag
  = Some (if String.eqb a flag then v else Py.drop 2 a).
Proof.
  intros Hpre Ha. induction Hpre as [|x pre Hx _ IH].
  - unfold flag_at in Ha. cbn [app get_flag_value].
    destruct (String.eqb a flag); simpl in *; auto. now rewrite Ha.
  - destruct pre as [|y pre]; cbn [app] in *; now rewrite get_flag_value_skip.
Qed.

Lemma get_flag_value_none (argv : list string) :
  Forall (fun x => flag_at flag x = false) (removelast argv) ->
  get_flag_value argv flag = None.
Proof.
  induction argv as [|a [|v tl] IH]; intros H; auto.
  change (removelast (a :: v :: tl)) with (a :: removelast (v :: tl)) in H.
  inversion H as [|? ? Ha Htl]; subst.
  rewrite get_flag_value_skip by assumption. now apply IH.
Qed.

Lemma remove_flag_and_value_first (pre : list string) (a v : string) (post : list string) :
  Forall (fun x => flag_at flag x = false) pre ->
  flag_at flag a = true ->
  remove_flag_and_value (pre ++ a :: v :: post) flag = Some (pre ++ post)%list.
Proof.
  intros Hpre Ha. induction Hpre as [|x pre Hx _ IH].
  - unfold flag_at in Ha. cbn [app remove_flag_and_value].
    destruct (String.eqb a flag); simpl in *; auto. now rewrite Ha.
  - destruct pre as [|y pre]; cbn [app] in *;
      now rewrite remove_flag_and_value_skip, IH.
Qed.

End Flags.

Lemma mem_In (x : string) (l : list string) : Py.mem x l = true <-> In x l.
Proof.
  unfold Py.mem. rewrite existsb_exists. split.
  - intros (y & Hy & E). apply String.eqb_eq in E. now subst.
  - intros H. exists x. split; [assumption | apply String.eqb_refl].
Qed.

Lemma flag_at_o (a : string) : flag_at "-o" a = Py.startswith a "-o".
Proof.
  unfold flag_at. destruct (String.eqb_spec a "-o") as [->|]; reflexivity.
Qed.

Lemma Forall_flag_at_o (l : list string) :
  Forall (fun x => Py.startswith x "-o" = false) l ->
  Forall (fun x => flag_at "-o" x = false) l.
Proof. apply Forall_impl. intros a. now rewrite flag_at_o. Qed.

(** C10.  With the flag [-o], [remove_flag_and_value] works at the first
    token that starts with [-o] and has a successor: it removes that token
    and the argument after it, whatever that argument is.  So in the
    concatenated form [-o<path>] the following argument goes too, although
    it is no part of the flag; in the separated form the two tokens are the
    flag and its value.  The arguments before and after keep their order:
    the result is [argv[:i] + argv[i + 2:]]. *)
Theorem remove_flag_and_value_o
    (pre : list string) (path next : string) (post : list string) :
  Forall (fun x => Py.startswith x "-o" = false) pre ->
  let argv := (pre ++ ("-o" ++ path)%string :: next :: post)%list in
  let i := List.length pre in
  remove_flag_and_value argv "-o" = Some (pre ++ post)%list
  /\ (pre ++ post = firstn i argv ++ skipn (i + 2) argv)%list
  /\ nth_error argv i = Some ("-o" ++ path)
  /\ nth_error argv (i + 1) = Some next.
Proof.
  intros Hpre argv i. subst argv i. repeat split.
  - apply remove_flag_and_value_first.
    + now apply Forall_flag_at_o.
    + rewrite flag_at_o. apply (startswith_append "-o").
  - rewrite firstn_app, Nat.sub_diag, firstn_all. cbn [firstn].
    rewrite app_nil_r, skipn_app, skipn_all2 by lia.
    replace (List.length pre + 2 - List.length pre) with 2 by lia.
    reflexivity.
  - rewrite nth_error_app2, Nat.sub_diag by lia. reflexivity.
  - rewrite nth_error_app2 by lia.
    replace (List.length pre + 1 - List.length pre) with 1 by lia. reflexivity.
Qed.

Lemma remove_flag_and_value_o_witness :
  remove_flag_and_value ["clang"; "a.o"; "-ofoo"; "b.o"; "c.o"] "-o"
  = Some ["clang"; "a.o"; "c.o"]
  /\ remove_flag_and_value ["clang"; "a.o"; "-o"; "foo"; "c.o"] "-o"
     = Some ["clang"; "a.o"; "c.o"].
Proof.
  split.
  - refine (proj1 (remove_flag_and_value_o ["clang"; "a.o"] "foo" "b.o" ["c.o"] _)).
    repeat constructor.
  - refine (proj1 (remove_flag_and_value_o ["clang"; "a.o"] "" "foo" ["c.o"] _)).
    repeat constructor.
Defined.

(** ** The dispatcher's first steps *)

Lemma main_captures (w : World) (fuzzer_engine : string) (argv : list string) :
  captures w fuzzer_engine argv ->
  main w argv = capture w fuzzer_engine argv.
Proof.
  intros (E & Hne & Hin). unfold main. rewrite E.
  apply String.eqb_neq in Hne. rewrite Hne. cbn [orb].
  destruct Hin as [H|H]; apply mem_In in H; rewrite H; cbn [negb andb];
    [reflexivity | now rewrite andb_false_r].
Qed.

Lemma capture_without_flag (w : World) (fuzzer_engine : string) (argv : list string) :
  get_flag_value argv "-o" = None \/ get_flag_value argv "-gen-cdb-fragment-path" = None ->
  capture w fuzzer_engine argv = ([], Stop Uncaught).
Proof.
  unfold capture. intros [E|E]; rewrite E.
  - reflexivity.
  - unfold assert_flag at 1.
    destruct (get_flag_value argv "-o") as [s|]; [destruct (String.eqb s "")|];
      reflexivity.
Qed.

(** C9.  [get_flag_value] finds the output file in both forms, at the
    first position that has a successor and holds a token starting with
    [-o]: the next argument for [-o <path>], the rest of the token for
    [-o<path>].  The last position is not searched: when no position before
    the last holds the flag, the result is [None], and a capturing
    invocation without the output flag, or without the fragment-directory
    flag, stops on the assertion before it prints or writes anything. *)
Theorem get_flag_value_forms :
  (forall (pre : list string) (path : string) (post : list string),
      Forall (fun x => Py.startswith x "-o" = false) pre ->
      get_flag_value (pre ++ "-o" :: path :: post) "-o" = Some path)
  /\ (forall (pre : list string) (path next : string) (post : list string),
         Forall (fun x => Py.startswith x "-o" = false) pre ->
         path <> "" ->
         get_flag_value (pre ++ ("-o" ++ path)%string :: next :: post) "-o" = Some path)
  /\ (forall (flag : string) (argv : list string),
         Forall (fun x => flag_at flag x = false) (removelast argv) ->
         get_flag_value argv flag = None)
  /\ (forall (w : World) (fuzzer_engine : string) (argv : list string),
         captures w fuzzer_engine argv ->
         get_flag_value argv "-o" = None
         \/ get_flag_value argv "-gen-cdb-fragment-path" = None ->
         main w argv = ([], Stop Uncaught)).
Proof.
  repeat split.
  - intros pre path post Hpre.
    rewrite (get_flag_value_first "-o" pre "-o" path post);
      [reflexivity | now apply Forall_flag_at_o | reflexivity].
  - intros pre path next post Hpre Hpath.
    rewrite (get_flag_value_first "-o" pre ("-o" ++ path) next post).
    + destruct (String.eqb_spec ("-o" ++ path) "-o") as [E|_].
      * destruct path; [contradiction | discriminate E].
      * reflexivity.
    + now apply Forall_flag_at_o.
    + rewrite flag_at_o. apply (startswith_append "-o").
  - intros flag argv. apply get_flag_value_none.
  - intros w fuzzer_engine argv Hc H.
    rewrite (main_captures w fuzzer_engine argv Hc).
    now apply capture_without_flag.
Qed.

(** ** Suffixes *)

Lemma endswith_spec (s p : string) :
  Py.endswith s p = true <-> exists pre, s = pre ++ p.
Proof.
  split.
  - induction s as [|c s IH]; cbn [Py.endswith].
    + destruct (String.eqb_spec "" p) as [<-|]; [now exists "" | discriminate].
    + destruct (String.eqb_spec (String c s) p) as [<-|_]; [now exists ""|].
      intros (pre & ->)%IH. now exists (String c pre).
  - intros (pre & ->). induction pre as [|c pre IH]; cbn [append Py.endswith].
    + destruct p; cbn [Py.endswith]; now rewrite String.eqb_refl.
    + rewrite IH. now destruct (String.eqb _ p).
Qed.

Lemma endswith_false (s p : string) :
  Py.endswith s p = false <-> forall pre, s <> pre ++ p.
Proof.
  split.
  - intros H pre ->. enough (Py.endswith (pre ++ p) p = true) by congruence.
    apply endswith_spec. now exists pre.
  - intros H. destruct (Py.endswith s p) eqn:E; [|reflexivity].
    apply endswith_spec in E as (pre & ->). now destruct (H pre).
Qed.

(** ** Dependency file parser *)

(** A line without a line feed, followed by one, is the first line. *)
Lemma readlines_line (line rest : string) :
  ~ In Py.lf (list_ascii_of_string line) ->
  Py.readlines (line ++ String Py.lf rest) = (line ++ String Py.lf "") :: Py.readlines rest.
Proof.
  induction line as [|c line IH]; intros H; cbn [append Py.readlines].
  - reflexivity.
  - cbn in H. destruct (Ascii.eqb_spec c Py.lf) as [->|_]; [now destruct H; left|].
    rewrite IH by (intros ?; apply H; now right). reflexivity.
Qed.

Section Parser.

Variable w : World.
Variable ignored_deps : list string.

Lemma system_path_test (dep : string) :
  existsb (fun p => Py.startswith dep p) ignored_dep_paths = is_system_path dep.
Proof.
  unfold ignored_dep_paths, is_system_path. cbn [existsb].
  now rewrite orb_false_r, orb_assoc.
Qed.

Lemma dependency_loop_body (body : list string) (blank : string) (rest deps : list string) :
  Forall (fun line => Py.strip line <> "") body ->
  Py.strip blank = "" ->
  dependency_loop w ignored_deps (map Py.strip (body ++ blank :: rest)) deps
  = (deps ++ filter (kept ignored_deps) (map (dependency_of_line w) body))%list.
Proof.
  intros Hbody Hblank. revert deps.
  induction Hbody as [|line body Hline _ IH]; intros deps.
  - cbn [app map dependency_loop filter]. rewrite Hblank. cbn.
    now rewrite app_nil_r.
  - cbn [app map dependency_loop filter].
    apply String.eqb_neq in Hline. rewrite Hline.
    rewrite system_path_test. fold (dependency_of_line w line).
    set (dep := dependency_of_line w line).
    replace (kept ignored_deps dep)
      with (negb (is_system_path dep) && negb (Py.mem dep ignored_deps))
      by reflexivity.
    destruct (is_system_path dep); cbn [negb andb]; [apply IH|].
    destruct (Py.mem dep ignored_deps); cbn [negb]; [apply IH|].
    rewrite IH, <- app_assoc. reflexivity.
Qed.

(** Without a blank line the loop runs to the end of the file. *)
Lemma dependency_loop_all (body deps : list string) :
  Forall (fun line => Py.strip line <> "") body ->
  dependency_loop w ignored_deps (map Py.strip body) deps
  = (deps ++ filter (kept ignored_deps) (map (dependency_of_line w) body))%list.
Proof.
  intros Hbody. revert deps.
  induction Hbody as [|line body Hline _ IH]; intros deps.
  - cbn. now rewrite app_nil_r.
  - cbn [app map dependency_loop filter].
    apply String.eqb_neq in Hline. rewrite Hline.
    rewrite system_path_test. fold (dependency_of_line w line).
    set (dep := dependency_of_line w line).
    replace (kept ignored_deps dep)
      with (negb (is_system_path dep) && negb (Py.mem dep ignored_deps))
      by reflexivity.
    destruct (is_system_path dep); cbn [negb andb]; [apply IH|].
    destruct (Py.mem dep ignored_deps); cbn [negb]; [apply IH|].
    rewrite IH, <- app_assoc. reflexivity.
Qed.

End Parser.

(** C4.  When the lines of the file are a first line that the expected
    header ends with, then lines that are not blank, then a blank line (and
    anything after it), the parser returns the dependencies of the lines
    between the header and the blank line: each without surrounding
    whitespace and without its continuation marker, made canonical, those
    under [/usr], [/clang] or [/lib] and those of the ignored set left out,
    in the order of the file and as often as they occur. *)
Theorem parse_dependency_file_deps (w : World) (file_path output_file : string)
    (ignored_deps : list string) (text first blank : string) (body rest : list string) :
  read_text w file_path = Some text ->
  Py.readlines text = (first :: body ++ blank :: rest)%list ->
  (exists pre, realpath w output_file ++ ": \" = pre ++ Py.strip first) ->
  Forall (fun line => Py.strip line <> "") body ->
  Py.strip blank = "" ->
  parse_dependency_file w file_path output_file ignored_deps
  = Ok (filter (kept ignored_deps) (map (dependency_of_line w) body)).
Proof.
  intros Hread Hlines Hfirst Hbody Hblank.
  unfold parse_dependency_file. rewrite Hread. cbn [of_option bind].
  rewrite Hlines. cbn [map].
  apply endswith_spec in Hfirst. rewrite Hfirst. cbn [assert bind].
  now rewrite dependency_loop_body.
Qed.

(** C2, as the code has it.  The assertion on the header is a suffix
    test: parsing stops with an uncaught exception when the first line of
    the file, without its surrounding whitespace, is not a suffix of
    [<canonical output path>: \], and also when the file has no line at
    all. *)
Theorem parse_dependency_file_header (w : World) (file_path output_file : string)
    (ignored_deps : list string) (text : string) :
  read_text w file_path = Some text ->
  (forall first pre, hd_error (Py.readlines text) = Some first ->
                     realpath w output_file ++ ": \" <> pre ++ Py.strip first) ->
  parse_dependency_file w file_path output_file ignored_deps = Raise.
Proof.
  intros Hread Hfirst.
  unfold parse_dependency_file. rewrite Hread. cbn [of_option bind].
  destruct (Py.readlines text) as [|first rest]; [reflexivity|].
  cbn [map]. replace (Py.endswith _ (Py.strip first)) with false; [reflexivity|].
  symmetry. apply endswith_false. intros pre. now apply Hfirst.
Qed.

Lemma parse_dependency_file_deps_witness :
  parse_dependency_file Example.parser_world "/cdb/foo.deps" "foo" []
  = Ok ["/src/a.o"; "/src/b.a"].
Proof.
  apply (parse_dependency_file_deps Example.parser_world "/cdb/foo.deps" "foo" []
           Example.foo_deps ("foo: \" ++ Example.nl) Example.nl
           [("  a.o \" ++ Example.nl)%string; ("  /usr/lib/libc.a \" ++ Example.nl)%string;
            ("  b.a" ++ Example.nl)%string] []).
  - reflexivity.
  - reflexivity.
  - exists "/src/". reflexivity.
  - repeat constructor; discriminate.
  - reflexivity.
Defined.

(** The header [bar: \] is accepted for the output [/out/foobar]. *)
Lemma parse_dependency_file_header_counterexample :
  ~ (forall (w : World) (file_path output_file : string) (ignored_deps : list string)
            (text first : string),
        read_text w file_path = Some text ->
        hd_error (Py.readlines text) = Some first ->
        Py.strip first <> realpath w output_file ++ ": \" ->
        parse_dependency_file w file_path output_file ignored_deps = Raise).
Proof.
  intros H.
  discriminate (H Example.header_world "/cdb/foobar.deps" "/out/foobar" []
                  Example.bar_deps ("bar: \" ++ Example.nl));
    [reflexivity | reflexivity | discriminate].
Qed.

Lemma parse_dependency_file_header_witness :
  parse_dependency_file Example.header_world "/cdb/foobar.deps" "/out/foo" [] = Raise.
Proof.
  apply (parse_dependency_file_header Example.header_world "/cdb/foobar.deps" "/out/foo" []
           Example.bar_deps).
  - reflexivity.
  - intros first pre [= <-]. apply endswith_false. reflexivity.
Defined.

(** ** [json.loads]: a value followed by a delimiter

    What the scanner reads from a text does not change when a text that
    starts with [','] or [']'] is put after it. *)

Module JsonFacts.
Import Json.

Lemma delimited_inv (t : string) :
  delimited t = true ->
  exists c t', t = String c t' /\ (c = "," \/ c = "]")%char.
Proof.
  destruct t as [|c t']; [discriminate|]. cbn. intros H.
  exists c, t'. split; [reflexivity|].
  apply orb_true_iff in H as [H|H]; apply Ascii.eqb_eq in H; auto.
Qed.

Ltac delimiter t :=
  let c := fresh "c" in
  let t' := fresh "t" in
  let H := fresh "H" in
  match goal with
  | D : delimited t = true |- _ =>
      destruct (delimited_inv t D) as (c & t' & -> & [-> | ->])
  end.

Lemma skip_ws_app (s t : string) :
  delimited t = true -> skip_ws (s ++ t) = skip_ws s ++ t.
Proof.
  intros D. induction s as [|a s IH]; cbn [append skip_ws].
  - delimiter t; reflexivity.
  - destruct (is_ws a); [exact IH | reflexivity].
Qed.

Lemma span_digits_app (s t : string) :
  delimited t = true ->
  span_digits (s ++ t) = (fst (span_digits s), snd (span_digits s) ++ t).
Proof.
  intros D. induction s as [|a s IH]; cbn [append span_digits].
  - delimiter t; reflexivity.
  - destruct (is_digit a); [|reflexivity].
    rewrite IH. now destruct (span_digits s).
Qed.

Lemma expect_app (c : ascii) (s r t : string) :
  expect c s = Some r -> expect c (s ++ t) = Some (r ++ t).
Proof.
  destruct s as [|a s]; [discriminate|]. cbn.
  destruct (Ascii.eqb a c); [|discriminate]. now intros [= ->].
Qed.

Lemma expect_app_none (c : ascii) (s t : string) :
  expect c s = None -> s <> "" -> expect c (s ++ t) = None.
Proof. destruct s as [|a s]; [easy|]. cbn. now destruct (Ascii.eqb a c). Qed.

Lemma strip_prefix_app (p s r t : string) :
  strip_prefix p s = Some r -> strip_prefix p (s ++ t) = Some (r ++ t).
Proof.
  revert s. induction p as [|a p IH]; intros s; cbn [strip_prefix].
  - now intros [= ->].
  - destruct s as [|b s]; [discriminate|]. cbn [append].
    destruct (Ascii.eqb a b); [apply IH | discriminate].
Qed.

(** A literal without [','] and [']'] is not completed by a delimiter. *)
Lemma strip_prefix_app_none (p s t : string) :
  strip_prefix p s = None ->
  delimited t = true ->
  Forall (fun a => Ascii.eqb a "," || Ascii.eqb a "]" = false) (list_ascii_of_string p) ->
  strip_prefix p (s ++ t) = None.
Proof.
  intros H D Hp. revert s H.
  induction p as [|a p IH]; intros s; cbn [strip_prefix]; [discriminate|].
  inversion Hp as [|? ? Ha Hp']; subst.
  destruct s as [|b s]; cbn [append].
  - intros _. destruct t as [|c t']; [discriminate|]. cbn in D.
    destruct (Ascii.eqb_spec a c) as [->|]; [congruence | reflexivity].
  - destruct (Ascii.eqb a b); [now apply IH | reflexivity].
Qed.

Lemma match_int_app (s t i r : string) :
  delimited t = true ->
  match_int s = Some (i, r) -> match_int (s ++ t) = Some (i, r ++ t).
Proof.
  intros D. unfold match_int.
  assert (G : forall sign s1,
             match s1 with
             | EmptyString => None
             | String c s2 =>
                 if Ascii.eqb c "0" then Some (sign ++ "0", s2)
                 else if is_digit c then
                        let (ds, r) := span_digits s2 in Some (sign ++ String c ds, r)
                      else None
             end = Some (i, r) ->
             match s1 ++ t with
             | EmptyString => None
             | String c s2 =>
                 if Ascii.eqb c "0" then Some (sign ++ "0", s2)
                 else if is_digit c then
                        let (ds, r) := span_digits s2 in Some (sign ++ String c ds, r)
                      else None
             end = Some (i, r ++ t)).
  { intros sign [|c s2]; [discriminate|]. cbn [append].
    destruct (Ascii.eqb c "0"); [now intros [= <- <-]|].
    destruct (is_digit c); [|discriminate].
    rewrite span_digits_app by assumption.
    destruct (span_digits s2) as [ds r']. cbn [fst snd]. now intros [= <- <-]. }
  destruct s as [|c s]; [discriminate|]. cbn [append].
  destruct (Ascii.eqb c "-").
  - apply G.
  - apply (G "" (String c s)).
Qed.

Lemma match_frac_app (s t : string) :
  delimited t = true ->
  match_frac (s ++ t) = (fst (match_frac s), snd (match_frac s) ++ t).
Proof.
  intros D. unfold match_frac. destruct s as [|c s]; cbn [append].
  - delimiter t; reflexivity.
  - destruct (Ascii.eqb c "."); [|reflexivity].
    rewrite span_digits_app by assumption.
    destruct (span_digits s) as [ds r]. cbn [fst snd].
    now destruct (String.eqb ds "").
Qed.

Lemma match_exp_app (s t : string) :
  delimited t = true ->
  match_exp (s ++ t) = (fst (match_exp s), snd (match_exp s) ++ t).
Proof.
  intros D. unfold match_exp. destruct s as [|e s]; cbn [append].
  - delimiter t; reflexivity.
  - destruct (Ascii.eqb e "e" || Ascii.eqb e "E"); [|reflexivity].
    destruct s as [|c s2]; cbn [append].
    + delimiter t; reflexivity.
    + destruct (Ascii.eqb c "+" || Ascii.eqb c "-").
      * rewrite span_digits_app by assumption.
        destruct (span_digits s2) as [ds r]. cbn [fst snd].
        now destruct (String.eqb ds "").
      * change (String c (s2 ++ t)) with (String c s2 ++ t).
        rewrite (span_digits_app (String c s2)) by assumption.
        destruct (span_digits (String c s2)) as [ds r]. cbn [fst snd].
        now destruct (String.eqb ds "").
Qed.

Lemma match_number_app (s t lexeme r : string) :
  delimited t = true ->
  match_number s = Some (lexeme, r) -> match_number (s ++ t) = Some (lexeme, r ++ t).
Proof.
  intros D. unfold match_number.
  destruct (match_int s) as [[i r1]|] eqn:Ei; [|discriminate].
  rewrite (match_int_app s t i r1 D Ei), match_frac_app by assumption.
  destruct (match_frac r1) as [f r2]. cbn [fst snd].
  rewrite match_exp_app by assumption.
  destruct (match_exp r2) as [e r3]. cbn [fst snd]. now intros [= <- <-].
Qed.

Lemma scan_items_app (st : sstate) (s t r : string) (its : list item) :
  scan_items st s = Some (its, r) -> scan_items st (s ++ t) = Some (its, r ++ t).
Proof.
  revert st its r. induction s as [|c s IH]; intros st its r; [discriminate|].
  cbn [append scan_items].
  assert (P : forall i k, push i (scan_items k s) = Some (its, r) ->
                          push i (scan_items k (s ++ t)) = Some (its, r ++ t)).
  { intros i k. destruct (scan_items k s) as [[its' r']|] eqn:E; [|discriminate].
    rewrite (IH _ _ _ E). cbn. now intros [= <- <-]. }
  destruct st as [| |k acc].
  - destruct (Ascii.eqb c Py.dquote); [now intros [= <- <-]|].
    destruct (Ascii.eqb c Py.backslash); [apply IH|].
    destruct (nat_of_ascii c <? 32)%nat; [discriminate | apply P].
  - destruct (Ascii.eqb c "u"); [apply IH|].
    destruct (simple_escape c); [apply P | discriminate].
  - destruct (hex_digit c); [|discriminate].
    destruct (k =? 3)%nat; [apply P | apply IH].
Qed.

Lemma scanstring_app (s t str r : string) :
  scanstring s = Some (str, r) -> scanstring (s ++ t) = Some (str, r ++ t).
Proof.
  unfold scanstring.
  destruct (scan_items SNormal s) as [[its r']|] eqn:E; [|discriminate].
  rewrite (scan_items_app _ _ t _ _ E). now intros [= <- <-].
Qed.

Lemma scan_once_nil (f : nat) : scan_once f "" = None.
Proof. now destruct f. Qed.

Lemma array_loop_nil (f : nat) : array_loop f "" = None.
Proof. destruct f; [reflexivity|]. cbn [array_loop]. now rewrite scan_once_nil. Qed.

Lemma object_loop_nil (f : nat) : object_loop f "" = None.
Proof. now destruct f. Qed.

Ltac literal s t :=
  let E := fresh "E" in
  match goal with
  | |- option_map _ (strip_prefix ?p s) = _ -> _ =>
      destruct (strip_prefix p s) eqn:E; [|discriminate];
      rewrite (strip_prefix_app _ _ _ t E); cbn; now intros [= <- <-]
  end.

Lemma scan_once_app (f : nat) :
  extends (scan_once f) /\ extends (array_loop f) /\ extends (object_loop f).
Proof.
  induction f as [|f (IHval & IHarr & IHobj)]; [repeat split; intros ? ? ? ? ?; discriminate|].
  repeat split.
  - intros s t v r D. destruct s as [|c s]; [discriminate|].
    cbn [append scan_once].
    destruct (Ascii.eqb c Py.dquote).
    { destruct (scanstring s) as [[str r']|] eqn:E; [|discriminate].
      rewrite (scanstring_app _ t _ _ E). now intros [= <- <-]. }
    destruct (Ascii.eqb c "{").
    { rewrite skip_ws_app by assumption.
      destruct (expect "}" (skip_ws s)) as [r'|] eqn:E.
      - rewrite (expect_app _ _ _ t E). now intros [= <- <-].
      - destruct (object_loop f (skip_ws s)) as [[ps r']|] eqn:EL; [|discriminate].
        rewrite expect_app_none;
          [| assumption | intros Z; rewrite Z, object_loop_nil in EL; discriminate].
        rewrite (IHobj _ t _ _ D EL). now intros [= <- <-]. }
    destruct (Ascii.eqb c "[").
    { rewrite skip_ws_app by assumption.
      destruct (expect "]" (skip_ws s)) as [r'|] eqn:E.
      - rewrite (expect_app _ _ _ t E). now intros [= <- <-].
      - destruct (array_loop f (skip_ws s)) as [[vs r']|] eqn:EL; [|discriminate].
        rewrite expect_app_none;
          [| assumption | intros Z; rewrite Z, array_loop_nil in EL; discriminate].
        rewrite (IHarr _ t _ _ D EL). now intros [= <- <-]. }
    destruct (Ascii.eqb c "n"); [literal s t|].
    destruct (Ascii.eqb c "t"); [literal s t|].
    destruct (Ascii.eqb c "f"); [literal s t|].
    destruct (Ascii.eqb c "N"); [literal s t|].
    destruct (Ascii.eqb c "I"); [literal s t|].
    change (String c (s ++ t)) with (String c s ++ t).
    destruct (strip_prefix "-Infinity" (String c s)) as [r'|] eqn:E.
    + rewrite (strip_prefix_app _ _ _ t E). now intros [= <- <-].
    + rewrite strip_prefix_app_none by (assumption || (repeat constructor)).
      destruct (match_number (String c s)) as [[lexeme r']|] eqn:EN; [|discriminate].
      rewrite (match_number_app _ t _ _ D EN). now intros [= <- <-].
  - intros s t vs r D. cbn [array_loop].
    destruct (scan_once f s) as [[v r0]|] eqn:E; [|discriminate].
    rewrite (IHval _ t _ _ D E), skip_ws_app by assumption.
    destruct (expect "]" (skip_ws r0)) as [r1|] eqn:E1.
    + rewrite (expect_app _ _ _ t E1). now intros [= <- <-].
    + destruct (expect "," (skip_ws r0)) as [r1|] eqn:E2; [|discriminate].
      assert (skip_ws r0 <> "") by (intros Z; rewrite Z in E2; discriminate).
      rewrite expect_app_none, (expect_app _ _ _ t E2), skip_ws_app by assumption.
      destruct (array_loop f (skip_ws r1)) as [[vs' r2]|] eqn:E3; [|discriminate].
      rewrite (IHarr _ t _ _ D E3). now intros [= <- <-].
  - intros s t ps r D. cbn [object_loop].
    destruct (expect Py.dquote s) as [s0|] eqn:E0; [|discriminate].
    rewrite (expect_app _ _ _ t E0).
    destruct (scanstring s0) as [[key r0]|] eqn:Ek; [|discriminate].
    rewrite (scanstring_app _ t _ _ Ek), skip_ws_app by assumption.
    destruct (expect ":" (skip_ws r0)) as [r1|] eqn:Ec; [|discriminate].
    rewrite (expect_app _ _ _ t Ec), skip_ws_app by assumption.
    destruct (scan_once f (skip_ws r1)) as [[v r2]|] eqn:Ev; [|discriminate].
    rewrite (IHval _ t _ _ D Ev), skip_ws_app by assumption.
    destruct (expect "}" (skip_ws r2)) as [r3|] eqn:E1.
    + rewrite (expect_app _ _ _ t E1). now intros [= <- <-].
    + destruct (expect "," (skip_ws r2)) as [r3|] eqn:E2; [|discriminate].
      assert (skip_ws r2 <> "") by (intros Z; rewrite Z in E2; discriminate).
      rewrite expect_app_none, (expect_app _ _ _ t E2), skip_ws_app by assumption.
      destruct (object_loop f (skip_ws r3)) as [[ps' r4]|] eqn:E3; [|discriminate].
      rewrite (IHobj _ t _ _ D E3). now intros [= <- <-].
Qed.

(** More fuel does not change a result. *)
Lemma scan_once_fuel_S (f : nat) :
  stable (scan_once f) (scan_once (S f))
  /\ stable (array_loop f) (array_loop (S f))
  /\ stable (object_loop f) (object_loop (S f)).
Proof.
  induction f as [|f (IHval & IHarr & IHobj)]; [repeat split; intros ? ?; discriminate|].
  repeat split.
  - intros s x. destruct s as [|c s]; [discriminate|].
    cbn [scan_once].
    destruct (Ascii.eqb c Py.dquote); [trivial|].
    destruct (Ascii.eqb c "{").
    { destruct (expect "}" (skip_ws s)); [trivial|].
      destruct (object_loop f (skip_ws s)) as [y|] eqn:E; [|discriminate].
      now rewrite (IHobj _ _ E). }
    destruct (Ascii.eqb c "[").
    { destruct (expect "]" (skip_ws s)); [trivial|].
      destruct (array_loop f (skip_ws s)) as [y|] eqn:E; [|discriminate].
      now rewrite (IHarr _ _ E). }
    trivial.
  - intros s x H. cbn [array_loop] in H.
    set (F := S f) in *. cbn [array_loop]. revert H.
    destruct (scan_once f s) as [[v r0]|] eqn:E; [|discriminate].
    rewrite (IHval _ _ E).
    destruct (expect "]" (skip_ws r0)); [trivial|].
    destruct (expect "," (skip_ws r0)) as [r1|]; [|discriminate].
    destruct (array_loop f (skip_ws r1)) as [y|] eqn:E3; [|discriminate].
    now rewrite (IHarr _ _ E3).
  - intros s x H. cbn [object_loop] in H.
    set (F := S f) in *. cbn [object_loop]. revert H.
    destruct (expect Py.dquote s) as [s0|]; [|discriminate].
    destruct (scanstring s0) as [[key r0]|]; [|discriminate].
    destruct (expect ":" (skip_ws r0)) as [r1|]; [|discriminate].
    destruct (scan_once f (skip_ws r1)) as [[v r2]|] eqn:Ev; [|discriminate].
    rewrite (IHval _ _ Ev).
    destruct (expect "}" (skip_ws r2)); [trivial|].
    destruct (expect "," (skip_ws r2)) as [r3|]; [|discriminate].
    destruct (object_loop f (skip_ws r3)) as [y|] eqn:E3; [|discriminate].
    now rewrite (IHobj _ _ E3).
Qed.

Lemma scan_once_fuel (f f' : nat) (s : string) (x : json * string) :
  f <= f' -> scan_once f s = Some x -> scan_once f' s = Some x.
Proof.
  induction 1 as [|f' _ IH]; [trivial|].
  intros H. now apply scan_once_fuel_S, IH.
Qed.

End JsonFacts.

(** ** [json.loads]: the fuel is enough

    A scanner returns a proper rest of its text, and it needs no more fuel
    than it reads characters: the fuel [json_loads] starts with, one more
    than the length of the text, never runs out on a text that can be read
    with some fuel. *)

Module FuelFacts.
Import Json JsonFacts.

Lemma skip_ws_length (s : string) : String.length (skip_ws s) <= String.length s.
Proof.
  induction s as [|c s IH]; cbn; [lia|]. destruct (is_ws c); cbn; lia.
Qed.

Lemma expect_length (c : ascii) (s r : string) :
  expect c s = Some r -> String.length s = S (String.length r).
Proof.
  destruct s as [|a s]; [discriminate|]. cbn.
  destruct (Ascii.eqb a c); [now intros [= ->] | discriminate].
Qed.

Lemma strip_prefix_length (p s r : string) :
  strip_prefix p s = Some r -> String.length s = String.length p + String.length r.
Proof.
  revert s. induction p as [|a p IH]; intros s; cbn.
  - now intros [= ->].
  - destruct s as [|b s]; [discriminate|]. destruct (Ascii.eqb a b); [|discriminate].
    intros H%IH. cbn. lia.
Qed.

Lemma span_digits_length (s : string) :
  String.length (snd (span_digits s)) <= String.length s.
Proof.
  induction s as [|c s IH]; cbn; [lia|].
  destruct (is_digit c); [|cbn; lia].
  destruct (span_digits s). cbn in *. lia.
Qed.

Lemma match_frac_length (s : string) :
  String.length (snd (match_frac s)) <= String.length s.
Proof.
  unfold match_frac. destruct s as [|c s]; cbn; [lia|].
  destruct (Ascii.eqb c "."); [|cbn; lia].
  pose proof (span_digits_length s). destruct (span_digits s) as [ds r].
  destruct (String.eqb ds ""); cbn in *; lia.
Qed.

Lemma match_exp_length (s : string) :
  String.length (snd (match_exp s)) <= String.length s.
Proof.
  unfold match_exp. destruct s as [|e s]; cbn; [lia|].
  destruct (Ascii.eqb e "e" || Ascii.eqb e "E"); [|cbn; lia].
  destruct s as [|c s2].
  - cbn. lia.
  - destruct (Ascii.eqb c "+" || Ascii.eqb c "-").
    + pose proof (span_digits_length s2). destruct (span_digits s2) as [ds r].
      destruct (String.eqb ds ""); cbn in *; lia.
    + pose proof (span_digits_length (String c s2)).
      destruct (span_digits (String c s2)) as [ds r].
      destruct (String.eqb ds ""); cbn in *; lia.
Qed.

Lemma match_int_length (s i r : string) :
  match_int s = Some (i, r) -> String.length r < String.length s.
Proof.
  unfold match_int.
  assert (G : forall sign s1,
             match s1 with
             | EmptyString => None
             | String c s2 =>
                 if Ascii.eqb c "0" then Some (sign ++ "0", s2)
                 else if is_digit c then
                        let (ds, r) := span_digits s2 in Some (sign ++ String c ds, r)
                      else None
             end = Some (i, r) -> String.length r < String.length s1).
  { intros sign [|c s2]; [discriminate|].
    destruct (Ascii.eqb c "0"); [intros [= _ ->]; cbn; lia|].
    destruct (is_digit c); [|discriminate].
    pose proof (span_digits_length s2). destruct (span_digits s2) as [ds r'].
    intros [= _ <-]. cbn in *. lia. }
  destruct s as [|c s]; [discriminate|].
  destruct (Ascii.eqb c "-").
  - intros H%G. cbn. lia.
  - apply (G "" (String c s)).
Qed.

Lemma match_number_length (s lexeme r : string) :
  match_number s = Some (lexeme, r) -> String.length r < String.length s.
Proof.
  unfold match_number.
  destruct (match_int s) as [[i r1]|] eqn:Ei; [|discriminate].
  apply match_int_length in Ei.
  pose proof (match_frac_length r1). destruct (match_frac r1) as [f r2].
  pose proof (match_exp_length r2). destruct (match_exp r2) as [e r3].
  intros [= _ <-]. cbn in *. lia.
Qed.

Lemma scan_items_length (st : sstate) (s r : string) (its : list item) :
  scan_items st s = Some (its, r) -> String.length r < String.length s.
Proof.
  revert st its r. induction s as [|c s IH]; intros st its r; [discriminate|].
  cbn [scan_items String.length].
  assert (P : forall i k, push i (scan_items k s) = Some (its, r) ->
                          String.length r < S (String.length s)).
  { intros i k. destruct (scan_items k s) as [[its' r']|] eqn:E; [|discriminate].
    apply IH in E. cbn. intros [= _ <-]. lia. }
  assert (Q : forall k, scan_items k s = Some (its, r) ->
                        String.length r < S (String.length s)).
  { intros k H%IH. lia. }
  destruct st as [| |k acc].
  - destruct (Ascii.eqb c Py.dquote); [intros [= _ ->]; lia|].
    destruct (Ascii.eqb c Py.backslash); [apply Q|].
    destruct (nat_of_ascii c <? 32)%nat; [discriminate | apply P].
  - destruct (Ascii.eqb c "u"); [apply Q|].
    destruct (simple_escape c); [apply P | discriminate].
  - destruct (hex_digit c); [|discriminate].
    destruct (k =? 3)%nat; [apply P | apply Q].
Qed.

Lemma scanstring_length (s str r : string) :
  scanstring s = Some (str, r) -> String.length r < String.length s.
Proof.
  unfold scanstring.
  destruct (scan_items SNormal s) as [[its r']|] eqn:E; [|discriminate].
  apply scan_items_length in E. now intros [= _ <-].
Qed.

Lemma scan_once_shrinks (f : nat) :
  shrinks (scan_once f) /\ shrinks (array_loop f) /\ shrinks (object_loop f).
Proof.
  induction f as [|f (IHval & IHarr & IHobj)]; [repeat split; intros ? ? ?; discriminate|].
  repeat split.
  - intros s a r. destruct s as [|c s]; [discriminate|]. cbn [scan_once String.length].
    pose proof (skip_ws_length s) as W.
    destruct (Ascii.eqb c Py.dquote).
    { destruct (scanstring s) as [[str r']|] eqn:E; [|discriminate].
      apply scanstring_length in E. intros [= _ <-]. lia. }
    destruct (Ascii.eqb c "{").
    { destruct (expect "}" (skip_ws s)) as [r'|] eqn:E.
      - apply expect_length in E. intros [= _ <-]. lia.
      - destruct (object_loop f (skip_ws s)) as [[ps r']|] eqn:EL; [|discriminate].
        apply IHobj in EL. intros [= _ <-]. lia. }
    destruct (Ascii.eqb c "[").
    { destruct (expect "]" (skip_ws s)) as [r'|] eqn:E.
      - apply expect_length in E. intros [= _ <-]. lia.
      - destruct (array_loop f (skip_ws s)) as [[vs r']|] eqn:EL; [|discriminate].
        apply IHarr in EL. intros [= _ <-]. lia. }
    assert (L : forall (v : json) p, option_map (pair v) (strip_prefix p s) = Some (a, r) ->
                                     String.length r < S (String.length s)).
    { intros v p. destruct (strip_prefix p s) as [r'|] eqn:E; [|discriminate].
      apply strip_prefix_length in E. cbn. intros [= _ <-]. lia. }
    destruct (Ascii.eqb c "n"); [apply L|].
    destruct (Ascii.eqb c "t"); [apply L|].
    destruct (Ascii.eqb c "f"); [apply L|].
    destruct (Ascii.eqb c "N"); [apply L|].
    destruct (Ascii.eqb c "I"); [apply L|].
    destruct (strip_prefix "-Infinity" (String c s)) as [r'|] eqn:E.
    + apply strip_prefix_length in E. cbn in E. intros [= _ <-]. lia.
    + destruct (match_number (String c s)) as [[lexeme r']|] eqn:EN; [|discriminate].
      apply match_number_length in EN. intros [= _ <-]. cbn in EN. lia.
  - intros s a r. cbn [array_loop].
    destruct (scan_once f s) as [[v r0]|] eqn:E; [|discriminate].
    apply IHval in E. pose proof (skip_ws_length r0) as W.
    destruct (expect "]" (skip_ws r0)) as [r1|] eqn:E1.
    + apply expect_length in E1. intros [= _ <-]. lia.
    + destruct (expect "," (skip_ws r0)) as [r1|] eqn:E2; [|discriminate].
      apply expect_length in E2. pose proof (skip_ws_length r1) as W1.
      destruct (array_loop f (skip_ws r1)) as [[vs' r2]|] eqn:E3; [|discriminate].
      apply IHarr in E3. intros [= _ <-]. lia.
  - intros s a r. cbn [object_loop].
    destruct (expect Py.dquote s) as [s0|] eqn:E0; [|discriminate].
    apply expect_length in E0.
    destruct (scanstring s0) as [[key r0]|] eqn:Ek; [|discriminate].
    apply scanstring_length in Ek. pose proof (skip_ws_length r0) as W0.
    destruct (expect ":" (skip_ws r0)) as [r1|] eqn:Ec; [|discriminate].
    apply expect_length in Ec. pose proof (skip_ws_length r1) as W1.
    destruct (scan_once f (skip_ws r1)) as [[v r2]|] eqn:Ev; [|discriminate].
    apply IHval in Ev. pose proof (skip_ws_length r2) as W2.
    destruct (expect "}" (skip_ws r2)) as [r3|] eqn:E1.
    + apply expect_length in E1. intros [= _ <-]. lia.
    + destruct (expect "," (skip_ws r2)) as [r3|] eqn:E2; [|discriminate].
      apply expect_length in E2. pose proof (skip_ws_length r3) as W3.
      destruct (object_loop f (skip_ws r3)) as [[ps' r4]|] eqn:E3; [|discriminate].
      apply IHobj in E3. intros [= _ <-]. lia.
Qed.

Lemma scan_once_frugal (f : nat) :
  frugal scan_once f /\ frugal array_loop f /\ frugal object_loop f.
Proof.
  induction f as [|f (IHval & IHarr & IHobj)];
    [repeat split; intros ? ? ? ? ?; discriminate|].
  destruct (scan_once_shrinks f) as (Sval & Sarr & Sobj).
  repeat split.
  - intros s a r f' H Hf'.
    pose proof (proj1 (scan_once_shrinks (S f)) s a r H) as L.
    destruct f' as [|f']; [lia|].
    destruct s as [|c s]; [discriminate|]. revert H. cbn [scan_once String.length] in *.
    pose proof (skip_ws_length s) as W.
    destruct (Ascii.eqb c Py.dquote); [trivial|].
    destruct (Ascii.eqb c "{").
    { destruct (expect "}" (skip_ws s)) as [r'|] eqn:E; [trivial|].
      destruct (object_loop f (skip_ws s)) as [[ps r']|] eqn:EL; [|discriminate].
      intros [= <- <-]. rewrite (IHobj _ _ _ f' EL); [reflexivity | lia]. }
    destruct (Ascii.eqb c "[").
    { destruct (expect "]" (skip_ws s)) as [r'|] eqn:E; [trivial|].
      destruct (array_loop f (skip_ws s)) as [[vs r']|] eqn:EL; [|discriminate].
      intros [= <- <-]. rewrite (IHarr _ _ _ f' EL); [reflexivity | lia]. }
    trivial.
  - intros s a r f' H Hf'.
    pose proof (proj1 (proj2 (scan_once_shrinks (S f))) s a r H) as L.
    destruct f' as [|f']; [lia|].
    revert H. cbn [array_loop].
    destruct (scan_once f s) as [[v r0]|] eqn:E; [|discriminate].
    pose proof (Sval _ _ _ E) as L0. pose proof (skip_ws_length r0) as W.
    destruct (expect "]" (skip_ws r0)) as [r1|] eqn:E1.
    + pose proof (expect_length _ _ _ E1). intros [= <- <-].
      rewrite (IHval _ _ _ f' E), E1; [reflexivity | lia].
    + destruct (expect "," (skip_ws r0)) as [r1|] eqn:E2; [|discriminate].
      pose proof (expect_length _ _ _ E2). pose proof (skip_ws_length r1) as W1.
      destruct (array_loop f (skip_ws r1)) as [[vs' r2]|] eqn:E3; [|discriminate].
      pose proof (Sarr _ _ _ E3) as L3. intros [= <- <-].
      rewrite (IHval _ _ _ f' E), E1, E2 by lia.
      rewrite (IHarr _ _ _ f' E3); [reflexivity | lia].
  - intros s a r f' H Hf'.
    pose proof (proj2 (proj2 (scan_once_shrinks (S f))) s a r H) as L.
    destruct f' as [|f']; [lia|].
    revert H. cbn [object_loop].
    destruct (expect Py.dquote s) as [s0|] eqn:E0; [|discriminate].
    pose proof (expect_length _ _ _ E0).
    destruct (scanstring s0) as [[key r0]|] eqn:Ek; [|discriminate].
    pose proof (scanstring_length _ _ _ Ek). pose proof (skip_ws_length r0) as W0.
    destruct (expect ":" (skip_ws r0)) as [r1|] eqn:Ec; [|discriminate].
    pose proof (expect_length _ _ _ Ec). pose proof (skip_ws_length r1) as W1.
    destruct (scan_once f (skip_ws r1)) as [[v r2]|] eqn:Ev; [|discriminate].
    pose proof (Sval _ _ _ Ev) as L2. pose proof (skip_ws_length r2) as W2.
    destruct (expect "}" (skip_ws r2)) as [r3|] eqn:E1.
    + pose proof (expect_length _ _ _ E1). intros [= <- <-].
      rewrite (IHval _ _ _ f' Ev), E1; [reflexivity | lia].
    + destruct (expect "," (skip_ws r2)) as [r3|] eqn:E2; [|discriminate].
      pose proof (expect_length _ _ _ E2). pose proof (skip_ws_length r3) as W3.
      destruct (object_loop f (skip_ws r3)) as [[ps' r4]|] eqn:E3; [|discriminate].
      pose proof (Sobj _ _ _ E3) as L3. intros [= <- <-].
      rewrite (IHval _ _ _ f' Ev), E1, E2 by lia.
      rewrite (IHobj _ _ _ f' E3); [reflexivity | lia].
Qed.

(** [json_loads] returns whatever a scan with any fuel returns. *)
Lemma json_loads_any_fuel (s : string) (f : nat) (v : json) (r : string) :
  Py.startswith s bom = false ->
  scan_once f (skip_ws s) = Some (v, r) ->
  skip_ws r = "" ->
  json_loads s = Ok v.
Proof.
  intros Hbom H Hr. unfold json_loads. rewrite Hbom.
  pose proof (skip_ws_length s).
  rewrite (proj1 (scan_once_frugal f) _ _ _ (S (String.length s)) H) by lia.
  now rewrite Hr.
Qed.

End FuelFacts.

(** ** Arrays of fragments *)

Lemma length_append (a b : string) :
  String.length (a ++ b) = String.length a + String.length b.
Proof. induction a; cbn; congruence. Qed.

Lemma substring_append (a b : string) : String.substring 0 (String.length a) (a ++ b) = a.
Proof.
  induction a as [|c a IH]; cbn.
  - now destruct b.
  - now rewrite IH.
Qed.

Lemma drop_last_append (s p : string) : Py.drop_last (String.length p) (s ++ p) = s.
Proof.
  unfold Py.drop_last. rewrite length_append.
  replace (String.length s + String.length p - String.length p) with (String.length s) by lia.
  apply substring_append.
Qed.

Module ArrayFacts.
Import Json JsonFacts.

Lemma json_loads_inv (b : string) (v : json) :
  json_loads b = Ok v ->
  exists r, scan_once (S (String.length b)) (skip_ws b) = Some (v, r) /\ skip_ws r = "".
Proof.
  unfold json_loads. destruct (Py.startswith b bom); [discriminate|].
  destruct (scan_once _ _) as [[v' r]|]; [|discriminate].
  destruct (String.eqb_spec (skip_ws r) ""); [|discriminate].
  intros [= ->]. now exists r.
Qed.

(** No value starts with [']']. *)
Lemma scan_once_not_closing (f : nat) (s : string) (x : json * string) :
  scan_once f s = Some x -> expect "]" s = None.
Proof.
  destruct s as [|c s]; [reflexivity|]. cbn [expect].
  destruct (Ascii.eqb_spec c "]") as [->|]; [|reflexivity].
  destruct f; discriminate.
Qed.

(** One item of the joined text: the value of [b], read with [t] after it. *)
Lemma scan_item (b t : string) (v : json) (f : nat) :
  json_loads b = Ok v ->
  delimited t = true ->
  S (String.length b) <= f ->
  exists r, scan_once f (skip_ws (b ++ t)) = Some (v, r ++ t) /\ skip_ws (r ++ t) = t.
Proof.
  intros (r & E & Hr)%json_loads_inv D Hf. exists r.
  rewrite !skip_ws_app, Hr by assumption. split; [|reflexivity].
  apply (proj1 (scan_once_app f)); [assumption|].
  now apply (scan_once_fuel (S (String.length b))).
Qed.

Lemma array_of_bodies (bodies : list string) (values : list json) :
  Forall2 (fun b v => json_loads b = Ok v) bodies values ->
  bodies <> [] ->
  forall f, String.length (Py.join sentinel bodies) + 2 <= f ->
            array_loop f (skip_ws (Py.join sentinel bodies ++ "]")) = Some (values, "").
Proof.
  induction 1 as [|b v bs vs Hb Hbs IH]; [easy|]. intros _ f Hf.
  destruct f as [|f]; [lia|]. cbn [array_loop].
  destruct bs as [|b' bs].
  - inversion Hbs; subst. cbn [Py.join] in *.
    destruct (scan_item b "]" v f Hb eq_refl) as (r & -> & ->); [lia|].
    reflexivity.
  - change (Py.join sentinel (b :: b' :: bs))
      with (b ++ sentinel ++ Py.join sentinel (b' :: bs)) in *.
    set (J := Py.join sentinel (b' :: bs)) in *.
    rewrite !length_append in Hf. cbn [sentinel String.length] in Hf.
    rewrite !append_assoc.
    destruct (scan_item b (sentinel ++ J ++ "]") v f Hb eq_refl) as (r & -> & ->); [lia|].
    cbn [sentinel append expect skip_ws]. cbn.
    rewrite IH; [reflexivity | discriminate | lia].
Qed.

(** The text [read_cdb_fragments] hands to [json.loads]. *)
Lemma json_loads_array (bodies : list string) (values : list json) :
  Forall2 (fun b v => json_loads b = Ok v) bodies values ->
  json_loads ("[" ++ Py.join sentinel bodies ++ "]") = Ok (JArr values).
Proof.
  intros H. unfold json_loads.
  change (Py.startswith _ bom) with false. cbn [append skip_ws].
  change (is_ws "[") with false. cbn [String.length scan_once].
  change (Ascii.eqb "[" Py.dquote) with false.
  change (Ascii.eqb "[" "{") with false.
  change (Ascii.eqb "[" "[") with true. cbn match.
  destruct bodies as [|b bs].
  - inversion H; subst. reflexivity.
  - assert (A : array_loop (S (String.length (Py.join sentinel (b :: bs) ++ "]")))
                  (skip_ws (Py.join sentinel (b :: bs) ++ "]")) = Some (values, "")).
    { apply array_of_bodies; [assumption | discriminate|].
      rewrite length_append. cbn [String.length]. lia. }
    assert (N : expect "]" (skip_ws (Py.join sentinel (b :: bs) ++ "]")) = None).
    { cbn [array_loop] in A.
      destruct (scan_once _ (skip_ws _)) as [x|] eqn:E; [|discriminate].
      apply (scan_once_not_closing _ _ _ E). }
    rewrite N, A. reflexivity.
Qed.

End ArrayFacts.

(** ** Fragment store reader *)

Lemma filter_perm {A : Type} (f : A -> bool) (l l' : list A) :
  Permutation l l' -> Permutation (filter f l) (filter f l').
Proof.
  induction 1 as [|x l l' _ IH|x y l|l l' l'' _ IH1 _ IH2]; cbn.
  - constructor.
  - destruct (f x); [now constructor | assumption].
  - destruct (f x), (f y); try reflexivity. constructor.
  - now transitivity (filter f l').
Qed.

Lemma Forall_choice {A B : Type} (R : A -> B -> Prop) (l : list A) :
  (forall x, In x l -> exists y, R x y) -> exists ys, Forall2 R l ys.
Proof.
  induction l as [|x l IH]; intros H.
  - exists []. constructor.
  - destruct (H x (or_introl eq_refl)) as (y & Hy).
    destruct IH as (ys & Hys); [intros z Hz; apply H; now right|].
    exists (y :: ys). now constructor.
Qed.

Section Fragments.

Variable w : World.

Lemma insert_by_key_perm (x : Z * string) (l : list (Z * string)) :
  Permutation (insert_by_key x l) (x :: l).
Proof.
  induction l as [|y l IH]; cbn; [reflexivity|].
  destruct (fst x <=? fst y)%Z; [reflexivity|].
  rewrite IH. constructor.
Qed.

Lemma sort_by_key_perm (l : list (Z * string)) : Permutation (sort_by_key l) l.
Proof.
  induction l as [|x l IH]; cbn; [constructor|].
  rewrite insert_by_key_perm. now constructor.
Qed.

Lemma keyed_inv (files : list string) (l : list (Z * string)) :
  mapM (ctime_key w) files = Ok l -> map snd l = files.
Proof.
  revert l. induction files as [|file files IH]; intros l; cbn.
  - now intros [= <-].
  - unfold ctime_key at 1. destruct (getctime w file) as [t|]; [|discriminate]. cbn.
    destruct (mapM (ctime_key w) files) as [l'|]; [|discriminate]. cbn.
    intros [= <-]. cbn. now rewrite (IH l').
Qed.

Lemma keyed_ok (files : list string) :
  (forall file, In file files -> getctime w file <> None) ->
  exists l, mapM (ctime_key w) files = Ok l.
Proof.
  induction files as [|file files IH]; intros H; cbn.
  - now exists [].
  - unfold ctime_key at 1.
    destruct (getctime w file) as [t|] eqn:E;
      [| now destruct (H file (or_introl eq_refl))]. cbn.
    destruct IH as (l & ->); [intros f Hf; apply H; now right|].
    cbn. now eexists.
Qed.

Lemma files_by_creation_time_inv (cdb_path : string) (names files : list string) :
  listdir w cdb_path = Some names ->
  files_by_creation_time w cdb_path = Ok files ->
  Permutation files (filter (isfile w) (map (OsPath.join cdb_path) names)).
Proof.
  intros Hdir. unfold files_by_creation_time. rewrite Hdir. cbn [of_option bind].
  destruct (mapM _ _) as [l|] eqn:E; [|discriminate]. cbn.
  intros [= <-]. rewrite <- (keyed_inv _ _ E).
  apply Permutation_map, sort_by_key_perm.
Qed.

Lemma files_by_creation_time_ok (cdb_path : string) (names : list string) :
  listdir w cdb_path = Some names ->
  (forall file, In file (filter (isfile w) (map (OsPath.join cdb_path) names)) ->
                getctime w file <> None) ->
  exists files, files_by_creation_time w cdb_path = Ok files.
Proof.
  intros Hdir Hct. unfold files_by_creation_time. rewrite Hdir. cbn [of_option bind].
  destruct (keyed_ok _ Hct) as (l & ->). cbn. now eexists.
Qed.

Lemma fragments_loop_ok (files contents bodies : list string) :
  Forall2 (fun file body => read_text w file = Some (body ++ sentinel))
    (filter is_fragment files) bodies ->
  fragments_loop w files contents = Ok (contents ++ bodies)%list.
Proof.
  revert contents bodies.
  induction files as [|file files IH]; intros contents bodies; cbn [filter fragments_loop].
  - intros H. inversion H. now rewrite app_nil_r.
  - unfold is_fragment at 1.
    destruct (Py.endswith file "_linker_commands.json");
      [rewrite andb_false_r; apply IH|].
    destruct (Py.endswith file ".json"); cbn [negb andb]; [|apply IH].
    intros H. inversion H as [|? body ? bodies' Hread Hrest]; subst.
    rewrite Hread. cbn [of_option bind].
    replace (Py.endswith (body ++ sentinel) sentinel) with true
      by (symmetry; apply endswith_spec; now exists body).
    cbn [assert bind].
    rewrite (drop_last_append body sentinel : Py.drop_last 2 (body ++ sentinel) = body).
    rewrite (IH _ _ Hrest), <- app_assoc. reflexivity.
Qed.

Lemma fragments_loop_torn (files contents : list string) (file data : string) :
  In file files ->
  is_fragment file = true ->
  read_text w file = Some data ->
  Py.endswith data sentinel = false ->
  fragments_loop w files contents = Raise.
Proof.
  intros Hin [Hjson Hrec%negb_true_iff]%andb_true_iff Hread Htorn. revert contents.
  induction files as [|file' files IH]; intros contents; [easy|].
  cbn [fragments_loop].
  destruct Hin as [->|Hin].
  - now rewrite Hrec, Hjson, Hread; cbn; rewrite Htorn.
  - destruct (Py.endswith file' "_linker_commands.json"); [now apply IH|].
    destruct (Py.endswith file' ".json"); cbn [negb]; [|now apply IH].
    destruct (read_text w file') as [data'|]; [|reflexivity]. cbn [of_option bind].
    destruct (Py.endswith data' sentinel); [|reflexivity]. cbn [assert bind].
    now apply IH.
Qed.

End Fragments.

Lemma insert_by_key_sorted (x : Z * string) (l : list (Z * string)) :
  Sorted key_le l -> Sorted key_le (insert_by_key x l).
Proof.
  induction 1 as [|y l Hs IH Hd]; cbn.
  - repeat constructor.
  - destruct (Z.leb_spec (fst x) (fst y)).
    + repeat constructor; assumption.
    + constructor; [assumption|].
      destruct l as [|z l]; cbn.
      * constructor. unfold key_le. lia.
      * inversion Hd; subst.
        destruct (fst x <=? fst z)%Z; constructor; [unfold key_le; lia | assumption].
Qed.

Lemma sort_by_key_sorted (l : list (Z * string)) : Sorted key_le (sort_by_key l).
Proof.
  induction l as [|x l IH]; cbn; [constructor | now apply insert_by_key_sorted].
Qed.

(** The files come in the order of their creation times. *)
Lemma files_by_creation_time_sorted (w : World) (folder_path : string) (files : list string) :
  files_by_creation_time w folder_path = Ok files ->
  exists keyed,
    files = map snd keyed
    /\ Forall (fun x => getctime w (snd x) = Some (fst x)) keyed
    /\ Sorted key_le keyed.
Proof.
  unfold files_by_creation_time.
  destruct (listdir w folder_path) as [names|]; [|discriminate]. cbn [of_option bind].
  destruct (mapM _ _) as [l|] eqn:E; [|discriminate]. cbn [bind]. intros [= <-].
  exists (sort_by_key l). split; [reflexivity|]. split; [|apply sort_by_key_sorted].
  apply (Permutation_Forall (Permutation_sym (sort_by_key_perm l))).
  clear -E. revert l E.
  induction (filter _ _) as [|file files IH]; intros l; cbn.
  - intros [= <-]. constructor.
  - unfold ctime_key at 1. destruct (getctime w file) as [t|] eqn:Et; [|discriminate]. cbn.
    destruct (mapM _ files) as [l'|]; [|discriminate]. cbn.
    intros [= <-]. constructor; [assumption | now apply IH].
Qed.

(** C3.  In a directory whose regular files have a creation time, let the
    fragment files be the regular files with the suffix [.json] that are
    not provenance records ([_linker_commands.json]); files with other
    names are passed over.  When each fragment file holds the text of one
    JSON object followed by the sentinel, the reader returns an array with
    one object per fragment file, whatever the files are called: the
    objects of the fragment files in the order of visit, which is that of
    [files_by_creation_time]. *)
Theorem read_cdb_fragments_count (w : World) (cdb_path : string) (names : list string) :
  listdir w cdb_path = Some names ->
  (forall file, In file (filter (isfile w) (map (OsPath.join cdb_path) names)) ->
                getctime w file <> None) ->
  (forall file, In file (filter (isfile w) (map (OsPath.join cdb_path) names)) ->
                is_fragment file = true ->
                exists body members,
                  read_text w file = Some (body ++ sentinel)
                  /\ json_loads body = Ok (JObj members)) ->
  exists files commands,
    files_by_creation_time w cdb_path = Ok files
    /\ read_cdb_fragments w cdb_path = Ok (JArr commands)
    /\ List.length commands
       = List.length (filter is_fragment
                        (filter (isfile w) (map (OsPath.join cdb_path) names)))
    /\ Forall2 (fun file command =>
                  exists body members,
                    read_text w file = Some (body ++ sentinel)
                    /\ json_loads body = Ok command
                    /\ command = JObj members)
         (filter is_fragment files) commands.
Proof.
  intros Hdir Hct Hfrag.
  destruct (files_by_creation_time_ok w cdb_path names Hdir Hct) as (files & Hfiles).
  pose proof (files_by_creation_time_inv w cdb_path names files Hdir Hfiles) as Hperm.
  destruct (Forall_choice
              (fun file (y : string * Dict.t json) =>
                 read_text w file = Some (fst y ++ sentinel)
                 /\ json_loads (fst y) = Ok (JObj (snd y)))
              (filter is_fragment files)) as (ys & Hys).
  { intros file [Hin Hf]%filter_In.
    destruct (Hfrag file (Permutation_in _ Hperm Hin) Hf) as (body & members & H1 & H2).
    now exists (body, members). }
  exists files, (map (fun y => JObj (snd y)) ys).
  split; [assumption|]. split; [|split].
  - unfold read_cdb_fragments. rewrite Hfiles. cbn [bind].
    rewrite (fragments_loop_ok w files [] (map fst ys)).
    + cbn [app bind]. apply ArrayFacts.json_loads_array.
      clear -Hys. induction Hys as [|file y fs ys [_ H] _ IH]; cbn; now constructor.
    + clear -Hys. induction Hys as [|file y fs ys [H _] _ IH]; cbn; now constructor.
  - rewrite length_map, <- (Forall2_length Hys).
    apply Permutation_length, filter_perm, Hperm.
  - clear -Hys. induction Hys as [|file y fs ys [H1 H2] _ IH]; cbn; constructor; [|assumption].
    now exists (fst y), (snd y).
Qed.

(** C5.  A fragment file of the directory (a regular file with the suffix
    [.json], not a provenance record) whose text does not end with the
    sentinel stops the reconstruction with an uncaught exception: no
    database is returned, with or without the record. *)
Theorem read_cdb_fragments_torn (w : World) (cdb_path : string) (names : list string)
    (name data : string) :
  listdir w cdb_path = Some names ->
  In name names ->
  isfile w (OsPath.join cdb_path name) = true ->
  is_fragment (OsPath.join cdb_path name) = true ->
  read_text w (OsPath.join cdb_path name) = Some data ->
  (forall body, data <> body ++ sentinel) ->
  read_cdb_fragments w cdb_path = Raise.
Proof.
  intros Hdir Hname Hfile Hfrag Hread Htorn%endswith_false.
  unfold read_cdb_fragments.
  destruct (files_by_creation_time w cdb_path) as [files|] eqn:E; cbn [bind];
    [|reflexivity].
  rewrite (fragments_loop_torn w files [] (OsPath.join cdb_path name) data); trivial.
  apply (files_by_creation_time_inv w cdb_path names files Hdir) in E.
  apply (Permutation_in _ (Permutation_sym E)), filter_In. split; [|assumption].
  now apply in_map.
Qed.

(** ** Dictionaries *)

Section DictFacts.

Context {V : Type}.
Implicit Types (d : Dict.t V) (k : string) (v : V).

Lemma get_set_eq k v d : Dict.get k (Dict.set k v d) = Some v.
Proof.
  induction d as [|[k' v'] d IH]; cbn.
  - now rewrite String.eqb_refl.
  - destruct (String.eqb_spec k k') as [->|N]; cbn.
    + now rewrite String.eqb_refl.
    + apply String.eqb_neq in N. now rewrite N.
Qed.

Lemma get_set_neq k k' v d : k <> k' -> Dict.get k' (Dict.set k v d) = Dict.get k' d.
Proof.
  intros N. induction d as [|[k0 v0] d IH]; cbn.
  - destruct (String.eqb_spec k' k); congruence.
  - destruct (String.eqb_spec k k0) as [->|]; cbn.
    + destruct (String.eqb_spec k' k0); congruence.
    + now rewrite IH.
Qed.

Lemma in_set k v k' v' d :
  In (k', v') (Dict.set k v d) -> (k' = k /\ v' = v) \/ In (k', v') d.
Proof.
  induction d as [|[k0 v0] d IH]; cbn.
  - intros [[= <- <-]|[]]. now left.
  - destruct (String.eqb_spec k k0) as [->|]; cbn.
    + intros [[= <- <-]|H]; auto.
    + intros [H|H]; auto. destruct (IH H); auto.
Qed.

Lemma get_in k v d : Dict.get k d = Some v -> In (k, v) d.
Proof.
  induction d as [|[k0 v0] d IH]; cbn; [discriminate|].
  destruct (String.eqb_spec k k0) as [->|]; [intros [= ->]; now left | auto].
Qed.

Lemma in_get k v d : In (k, v) d -> Dict.get k d <> None.
Proof.
  induction d as [|[k0 v0] d IH]; cbn; [easy|].
  destruct (String.eqb_spec k k0) as [->|N]; [easy|].
  intros [[= -> ->]|H]; [easy | auto].
Qed.

Lemma in_values v d : In v (Dict.values d) -> exists k, In (k, v) d.
Proof.
  unfold Dict.values. intros ([k v'] & E & H)%in_map_iff. cbn in E. subst. now exists k.
Qed.

End DictFacts.

(** ** The inner loop of the matcher *)

Section Assign.

Variable name_of : json -> res string.
Variable dep : string.

Lemma assign_matches_ok (cdb : list json) (commands : Dict.t json) :
  Forall (fun c => exists name, name_of c = Ok name) cdb ->
  assign_matches name_of dep cdb commands = Ok (assigned name_of dep cdb commands).
Proof.
  intros H. revert commands.
  induction H as [|c cdb (name & E) _ IH]; intros commands; cbn; [reflexivity|].
  unfold matching. rewrite E. cbn. apply IH.
Qed.

Lemma assigned_app (l l' : list json) (commands : Dict.t json) :
  assigned name_of dep (l ++ l') commands
  = assigned name_of dep l' (assigned name_of dep l commands).
Proof. apply fold_left_app. Qed.

Lemma assigned_none (cdb : list json) (commands : Dict.t json) :
  Forall (fun c => matching name_of dep c = false) cdb ->
  assigned name_of dep cdb commands = commands.
Proof.
  intros H. revert commands.
  induction H as [|c cdb E _ IH]; intros commands; cbn; [reflexivity|].
  rewrite E. apply IH.
Qed.

(** The last matching command is the one that stays. *)
Lemma assigned_last (pre post : list json) (c : json) (commands : Dict.t json) :
  matching name_of dep c = true ->
  Forall (fun c' => matching name_of dep c' = false) post ->
  Dict.get dep (assigned name_of dep (pre ++ c :: post) commands) = Some c.
Proof.
  intros Hc Hpost. rewrite assigned_app. cbn. rewrite Hc.
  change (fold_left _ post ?d) with (assigned name_of dep post d).
  rewrite assigned_none by assumption. apply get_set_eq.
Qed.

Lemma assigned_other (k : string) (cdb : list json) (commands : Dict.t json) :
  k <> dep ->
  Dict.get k (assigned name_of dep cdb commands) = Dict.get k commands.
Proof.
  intros N. revert commands.
  induction cdb as [|c cdb IH]; intros commands; cbn; [reflexivity|].
  change (fold_left _ cdb ?d) with (assigned name_of dep cdb d).
  rewrite IH. destruct (matching name_of dep c); [|reflexivity].
  apply get_set_neq. congruence.
Qed.

Lemma assigned_in (k : string) (v : json) (cdb : list json) (commands : Dict.t json) :
  In (k, v) (assigned name_of dep cdb commands) ->
  In (k, v) commands \/ (k = dep /\ In v cdb /\ matching name_of dep v = true).
Proof.
  revert commands.
  induction cdb as [|c cdb IH]; intros commands; cbn; [auto|].
  change (fold_left _ cdb ?d) with (assigned name_of dep cdb d).
  intros [H|(-> & H & M)]%IH; [|now auto].
  destruct (matching name_of dep c) eqn:M; [|now auto].
  apply in_set in H as [[-> ->]|H]; auto.
Qed.

Lemma assigned_get_none (cdb : list json) (commands : Dict.t json) :
  Forall (fun c => matching name_of dep c = false) cdb ->
  Dict.get dep commands = None ->
  Dict.mem dep (assigned name_of dep cdb commands) = false.
Proof.
  intros H E. rewrite assigned_none by assumption. unfold Dict.mem. now rewrite E.
Qed.

End Assign.

Lemma well_formed_path (w : World) (c : json) :
  well_formed c -> exists name, command_path w c = Ok name.
Proof.
  intros (directory & output & E1 & E2). unfold command_path.
  rewrite E1, E2. cbn. now eexists.
Qed.

Lemma well_formed_basename (c : json) :
  well_formed c -> exists name, command_basename c = Ok name.
Proof.
  intros (directory & output & E1 & E2). unfold command_basename.
  rewrite E2. cbn. now eexists.
Qed.

(** ** The loops of the matcher *)

Section Loops.

Variable w : World.
Variable fuzzer_engine : string.
Variable cdb : list json.
Hypothesis cdb_well_formed : Forall well_formed cdb.

Lemma obj_bindings_cons (dep : string) (rest : list string) (commands : Dict.t json) :
  obj_bindings w fuzzer_engine cdb (dep :: rest) commands
  = obj_bindings w fuzzer_engine cdb rest (obj_step w fuzzer_engine cdb commands dep).
Proof. reflexivity. Qed.

Lemma archive_bindings_cons (dep : string) (rest : list string) (commands : Dict.t json) :
  archive_bindings cdb (dep :: rest) commands
  = archive_bindings cdb rest (archive_step cdb commands dep).
Proof. reflexivity. Qed.

Lemma match_obj_deps_ok (obj_deps : list string) (commands : Dict.t json) :
  match_obj_deps w fuzzer_engine (JArr cdb) obj_deps commands
  = (obj_trace w fuzzer_engine cdb obj_deps commands,
     Done (obj_bindings w fuzzer_engine cdb obj_deps commands)).
Proof.
  revert commands. induction obj_deps as [|dep rest IH]; intros commands; [reflexivity|].
  rewrite obj_bindings_cons. cbn [match_obj_deps obj_trace].
  unfold obj_step. destruct (String.eqb dep fuzzer_engine); cbn [orb].
  - unfold bindM at 1, emit. rewrite IH. reflexivity.
  - cbn [py_iter bind lift].
    rewrite assign_matches_ok
      by (eapply Forall_impl; [|exact cdb_well_formed]; apply well_formed_path).
    unfold bindM, report_missing, emit, lift, ret. cbv beta iota zeta.
    destruct (Dict.mem _ _); cbv beta iota zeta; rewrite IH; reflexivity.
Qed.

Lemma match_archive_deps_ok (archive_deps : list string) (commands : Dict.t json) :
  match_archive_deps (JArr cdb) archive_deps commands
  = (archive_trace cdb archive_deps commands,
     Done (archive_bindings cdb archive_deps commands)).
Proof.
  revert commands.
  induction archive_deps as [|dep rest IH]; intros commands; [reflexivity|].
  rewrite archive_bindings_cons. cbn [match_archive_deps archive_trace].
  unfold archive_step. cbn [py_iter bind lift].
  rewrite assign_matches_ok
    by (eapply Forall_impl; [|exact cdb_well_formed]; apply well_formed_basename).
  unfold bindM, report_missing, emit, lift, ret. cbv beta iota zeta.
  destruct (Dict.mem _ _); cbv beta iota zeta; rewrite IH; reflexivity.
Qed.

(** On well-formed commands the matcher goes through both loops. *)
Lemma match_commands_ok (obj_deps archive_deps : list string) :
  match_commands w fuzzer_engine (JArr cdb) obj_deps archive_deps
  = ((obj_trace w fuzzer_engine cdb obj_deps []
      ++ archive_trace cdb archive_deps (obj_bindings w fuzzer_engine cdb obj_deps []))%list,
     Done (archive_bindings cdb archive_deps (obj_bindings w fuzzer_engine cdb obj_deps []))).
Proof.
  unfold match_commands. rewrite match_obj_deps_ok. unfold bindM.
  now rewrite match_archive_deps_ok.
Qed.

End Loops.

(** ** What the loops bind and report *)

Section Bound.

Variable w : World.
Variable fuzzer_engine : string.
Variable cdb : list json.

Lemma get_some_in (k : string) (d : Dict.t json) :
  Dict.get k d <> None -> exists v, In (k, v) d.
Proof.
  destruct (Dict.get k d) as [v|] eqn:E; [|easy]. intros _. exists v. now apply get_in.
Qed.

(** *** Objects *)

Lemma obj_step_other (dep : string) (commands : Dict.t json) :
  dep <> fuzzer_engine ->
  obj_step w fuzzer_engine cdb commands dep
  = assigned (command_path w) (realpath w dep) cdb commands.
Proof. intros N%String.eqb_neq. unfold obj_step. now rewrite N. Qed.

Lemma obj_bindings_keep (deps : list string) (commands : Dict.t json)
    (k : string) (pre post : list json) (c : json) :
  cdb = (pre ++ c :: post)%list ->
  matching (command_path w) k c = true ->
  Forall (fun c' => matching (command_path w) k c' = false) post ->
  Dict.get k commands = Some c ->
  Dict.get k (obj_bindings w fuzzer_engine cdb deps commands) = Some c.
Proof.
  intros Hcdb Hc Hpost. revert commands.
  induction deps as [|dep rest IH]; intros commands H; [assumption|].
  rewrite obj_bindings_cons. apply IH. unfold obj_step.
  destruct (String.eqb dep fuzzer_engine); [assumption|].
  destruct (String.eqb_spec k (realpath w dep)) as [<-|N].
  - rewrite Hcdb. now apply assigned_last.
  - now rewrite assigned_other.
Qed.

Lemma obj_bindings_last (deps : list string) (commands : Dict.t json)
    (dep : string) (pre post : list json) (c : json) :
  cdb = (pre ++ c :: post)%list ->
  In dep deps ->
  dep <> fuzzer_engine ->
  matching (command_path w) (realpath w dep) c = true ->
  Forall (fun c' => matching (command_path w) (realpath w dep) c' = false) post ->
  Dict.get (realpath w dep) (obj_bindings w fuzzer_engine cdb deps commands) = Some c.
Proof.
  intros Hcdb Hin Hne Hc Hpost. revert commands.
  induction deps as [|dep' rest IH]; intros commands; [easy|].
  rewrite obj_bindings_cons. destruct Hin as [->|Hin]; [|now apply IH].
  apply (obj_bindings_keep _ _ _ pre post c); trivial.
  rewrite obj_step_other, Hcdb by assumption. now apply assigned_last.
Qed.

Lemma obj_bindings_in (deps : list string) (commands : Dict.t json) (k : string) (v : json) :
  In (k, v) (obj_bindings w fuzzer_engine cdb deps commands) ->
  In (k, v) commands
  \/ (In v cdb /\ matching (command_path w) k v = true
      /\ exists dep, In dep deps /\ dep <> fuzzer_engine /\ k = realpath w dep).
Proof.
  revert commands. induction deps as [|dep rest IH]; intros commands; [now left|].
  rewrite obj_bindings_cons.
  intros [H|(Hv & Hm & dep' & Hin & Hne & ->)]%IH.
  - unfold obj_step in H.
    destruct (String.eqb_spec dep fuzzer_engine) as [->|N]; [now left|].
    apply assigned_in in H as [H|(-> & Hv & Hm)]; [now left|].
    right. repeat split; trivial. exists dep. repeat split; trivial. now left.
  - right. repeat split; trivial. exists dep'. repeat split; trivial. now right.
Qed.

Lemma matched_keys_step (dep : string) (commands : Dict.t json) :
  matched_keys w cdb commands -> matched_keys w cdb (obj_step w fuzzer_engine cdb commands dep).
Proof.
  intros J k (v & H)%get_some_in. unfold obj_step in H.
  destruct (String.eqb dep fuzzer_engine); [apply J; now apply in_get in H|].
  apply assigned_in in H as [H|(-> & Hv & Hm)]; [apply J; now apply in_get in H|].
  now exists v.
Qed.

Lemma matched_keys_bindings (deps : list string) (commands : Dict.t json) :
  matched_keys w cdb commands -> matched_keys w cdb (obj_bindings w fuzzer_engine cdb deps commands).
Proof.
  revert commands. induction deps as [|dep rest IH]; intros commands J; [assumption|].
  rewrite obj_bindings_cons. now apply IH, matched_keys_step.
Qed.

Lemma unmatched_key (k : string) (commands : Dict.t json) :
  matched_keys w cdb commands ->
  Forall (fun c => matching (command_path w) k c = false) cdb ->
  Dict.get k commands = None.
Proof.
  intros J Hno. destruct (Dict.get k commands) eqn:E; [|reflexivity].
  destruct (J k) as (c & Hc & Hm); [congruence|].
  rewrite Forall_forall in Hno. rewrite (Hno c Hc) in Hm. discriminate.
Qed.

Lemma obj_trace_reports (deps : list string) (commands : Dict.t json) (dep : string) :
  matched_keys w cdb commands ->
  In dep deps ->
  dep <> fuzzer_engine ->
  Forall (fun c => matching (command_path w) (realpath w dep) c = false) cdb ->
  reported (realpath w dep) (obj_trace w fuzzer_engine cdb deps commands).
Proof.
  intros J Hin Hne Hno. revert commands J.
  induction deps as [|dep' rest IH]; intros commands J; [easy|].
  cbn [obj_trace]. unfold reported. right. apply in_or_app.
  destruct Hin as [->|Hin].
  - left. apply String.eqb_neq in Hne. rewrite Hne. cbn [orb].
    rewrite obj_step_other by now apply String.eqb_neq.
    rewrite assigned_get_none; [now left | assumption | now apply unmatched_key].
  - right. apply IH; [assumption | now apply matched_keys_step].
Qed.

(** *** Archive members *)

Lemma archive_bindings_other (deps : list string) (commands : Dict.t json) (k : string) :
  ~ In k deps ->
  Dict.get k (archive_bindings cdb deps commands) = Dict.get k commands.
Proof.
  revert commands. induction deps as [|dep rest IH]; intros commands H; [reflexivity|].
  rewrite archive_bindings_cons, IH by (intros ?; apply H; now right).
  apply assigned_other. intros ->. apply H. now left.
Qed.

Lemma archive_bindings_keep (deps : list string) (commands : Dict.t json)
    (k : string) (pre post : list json) (c : json) :
  cdb = (pre ++ c :: post)%list ->
  matching command_basename k c = true ->
  Forall (fun c' => matching command_basename k c' = false) post ->
  Dict.get k commands = Some c ->
  Dict.get k (archive_bindings cdb deps commands) = Some c.
Proof.
  intros Hcdb Hc Hpost. revert commands.
  induction deps as [|dep rest IH]; intros commands H; [assumption|].
  rewrite archive_bindings_cons. apply IH. unfold archive_step.
  destruct (String.eqb_spec k dep) as [<-|N].
  - rewrite Hcdb. now apply assigned_last.
  - now rewrite assigned_other.
Qed.

Lemma archive_bindings_last (deps : list string) (commands : Dict.t json)
    (dep : string) (pre post : list json) (c : json) :
  cdb = (pre ++ c :: post)%list ->
  In dep deps ->
  matching command_basename dep c = true ->
  Forall (fun c' => matching command_basename dep c' = false) post ->
  Dict.get dep (archive_bindings cdb deps commands) = Some c.
Proof.
  intros Hcdb Hin Hc Hpost. revert commands.
  induction deps as [|dep' rest IH]; intros commands; [easy|].
  rewrite archive_bindings_cons. destruct Hin as [->|Hin]; [|now apply IH].
  apply (archive_bindings_keep _ _ _ pre post c); trivial.
  unfold archive_step. rewrite Hcdb. now apply assigned_last.
Qed.

Lemma archive_bindings_in (deps : list string) (commands : Dict.t json)
    (k : string) (v : json) :
  In (k, v) (archive_bindings cdb deps commands) ->
  In (k, v) commands \/ (In v cdb /\ matching command_basename k v = true /\ In k deps).
Proof.
  revert commands. induction deps as [|dep rest IH]; intros commands; [now left|].
  rewrite archive_bindings_cons.
  intros [H|(Hv & Hm & Hin)]%IH.
  - apply assigned_in in H as [H|(-> & Hv & Hm)]; [now left|].
    right. repeat split; trivial. now left.
  - right. repeat split; trivial. now right.
Qed.

Lemma member_keys_step (a dep : string) (commands : Dict.t json) :
  member_keys cdb a commands -> member_keys cdb a (archive_step cdb commands dep).
Proof.
  intros K (v & H)%get_some_in. unfold archive_step in H.
  apply assigned_in in H as [H|(-> & Hv & Hm)]; [apply K; now apply in_get in H|].
  now exists v.
Qed.

Lemma archive_trace_reports (deps : list string) (commands : Dict.t json) (a : string) :
  member_keys cdb a commands ->
  In a deps ->
  Forall (fun c => matching command_basename a c = false) cdb ->
  reported a (archive_trace cdb deps commands)
  /\ Dict.get a (archive_bindings cdb deps commands) = None.
Proof.
  intros K Hin Hno.
  assert (None_of : forall commands, member_keys cdb a commands -> Dict.get a commands = None).
  { intros cm Kc. destruct (Dict.get a cm) eqn:E; [|reflexivity].
    destruct Kc as (c & Hc & Hm); [congruence|].
    rewrite Forall_forall in Hno. rewrite (Hno c Hc) in Hm. discriminate. }
  split.
  - revert commands K.
    induction deps as [|dep rest IH]; intros commands K; [easy|].
    cbn [archive_trace]. unfold reported. apply in_or_app.
    destruct Hin as [->|Hin].
    + left. unfold archive_step.
      rewrite assigned_get_none; [now left | assumption | now apply None_of].
    + right. apply IH; [assumption | now apply member_keys_step].
  - apply None_of. clear Hin. revert commands K.
    induction deps as [|dep rest IH]; intros commands K; [assumption|].
    rewrite archive_bindings_cons. now apply IH, member_keys_step.
Qed.

End Bound.


(** ** The fuzzing engine *)

Lemma match_obj_deps_cons (w : World) (fuzzer_engine : string) (cdb : json)
    (dep : string) (rest : list string) (commands : Dict.t json) :
  match_obj_deps w fuzzer_engine cdb (dep :: rest) commands
  = if String.eqb dep fuzzer_engine then
      (LookingFor dep :: fst (match_obj_deps w fuzzer_engine cdb rest commands),
       snd (match_obj_deps w fuzzer_engine cdb rest commands))
    else
      match (items <- py_iter cdb ;;
             assign_matches (command_path w) (realpath w dep) items commands) with
      | Ok commands' =>
          (LookingFor dep
           :: (if Dict.mem (realpath w dep) commands' then []
               else [NotFound (realpath w dep)])
           ++ fst (match_obj_deps w fuzzer_engine cdb rest commands'),
           snd (match_obj_deps w fuzzer_engine cdb rest commands'))
      | Raise => ([LookingFor dep], Stop Uncaught)
      end.
Proof.
  cbn [match_obj_deps]. destruct (String.eqb dep fuzzer_engine).
  - unfold bindM, emit. now destruct (match_obj_deps _ _ _ _ _).
  - destruct (bind _ _) as [commands'|]; [|reflexivity].
    unfold bindM, emit, lift, report_missing, ret.
    destruct (Dict.mem _ _); now destruct (match_obj_deps _ _ _ _ _).
Qed.

Lemma match_archive_deps_cons (cdb : json) (dep : string) (rest : list string)
    (commands : Dict.t json) :
  match_archive_deps cdb (dep :: rest) commands
  = match (items <- py_iter cdb ;;
           assign_matches command_basename dep items commands) with
    | Ok commands' =>
        ((if Dict.mem dep commands' then [] else [NotFound dep])
         ++ fst (match_archive_deps cdb rest commands'),
         snd (match_archive_deps cdb rest commands'))%list
    | Raise => ([], Stop Uncaught)
    end.
Proof.
  cbn [match_archive_deps].
  destruct (bind _ _) as [commands'|]; [|reflexivity].
  unfold bindM, emit, lift, report_missing, ret.
  destruct (Dict.mem _ _); now destruct (match_archive_deps _ _ _).
Qed.

Section Engine.

Variable w : World.
Variable fuzzer_engine : string.
Variable cdb : json.

Lemma match_obj_deps_without_engine (obj_deps : list string) (commands : Dict.t json) :
  match_obj_deps w fuzzer_engine cdb (without_engine fuzzer_engine obj_deps) commands
  = (without_looking_for fuzzer_engine
       (fst (match_obj_deps w fuzzer_engine cdb obj_deps commands)),
     snd (match_obj_deps w fuzzer_engine cdb obj_deps commands)).
Proof.
  revert commands. induction obj_deps as [|dep rest IH]; intros commands; [reflexivity|].
  cbn [without_engine filter]. fold (without_engine fuzzer_engine rest).
  rewrite (match_obj_deps_cons _ _ _ dep rest).
  destruct (String.eqb dep fuzzer_engine) eqn:E; cbn [negb fst snd].
  - rewrite IH. unfold without_looking_for. cbn [filter is_looking_for]. now rewrite E.
  - rewrite match_obj_deps_cons, E.
    destruct (bind _ _) as [commands'|]; cbn [fst snd].
    + rewrite IH. cbn [fst snd]. unfold without_looking_for. cbn [filter is_looking_for].
      rewrite E, filter_app. cbn [negb].
      now destruct (Dict.mem _ _).
    + unfold without_looking_for. cbn [filter is_looking_for]. now rewrite E.
Qed.

Lemma match_archive_deps_quiet (archive_deps : list string) (commands : Dict.t json) :
  without_looking_for fuzzer_engine (fst (match_archive_deps cdb archive_deps commands))
  = fst (match_archive_deps cdb archive_deps commands).
Proof.
  revert commands.
  induction archive_deps as [|dep rest IH]; intros commands; [reflexivity|].
  rewrite match_archive_deps_cons.
  destruct (bind _ _) as [commands'|]; cbn [fst]; [|reflexivity].
  unfold without_looking_for in *. rewrite filter_app, IH. now destruct (Dict.mem _ _).
Qed.

End Engine.

(** C8, as the code has it.  The fuzzing engine is recognised by
    comparing a dependency, as a string, with the value of
    [LIB_FUZZING_ENGINE].  A dependency that is that value takes no part in
    the matching: it is not among the archives whose members are listed,
    and the matcher treats a list of object files with it as the same list
    without it (the run ends the same way with the same dictionary, and
    prints the same lines but its [Looking for dep] line).  So the
    dictionary has no entry under that value when the object dependencies
    are canonical paths (as the parser returns them) and no archive member
    bears it as its name.  The test is on the spelling and nowhere else:
    the archives that are listed are exactly the dependencies ending in
    [.a] that differ from the value, and the loop over archive members has
    no test at all, so a member whose name is the value is bound like any
    other. *)
Theorem fuzzer_engine_excluded (w : World) (fuzzer_engine : string) (cdb : json)
    (deps archive_deps : list string) :
  ~ In fuzzer_engine (ar_deps_of fuzzer_engine deps)
  /\ match_commands w fuzzer_engine cdb
       (without_engine fuzzer_engine (obj_deps_of deps)) archive_deps
     = (without_looking_for fuzzer_engine
          (fst (match_commands w fuzzer_engine cdb (obj_deps_of deps) archive_deps)),
        snd (match_commands w fuzzer_engine cdb (obj_deps_of deps) archive_deps))
  /\ (forall commands : list json,
         cdb = JArr commands ->
         Forall well_formed commands ->
         (forall dep, In dep (obj_deps_of deps) -> realpath w dep = dep) ->
         ~ In fuzzer_engine archive_deps ->
         exists trace bound,
           match_commands w fuzzer_engine cdb (obj_deps_of deps) archive_deps
           = (trace, Done bound)
           /\ Dict.get fuzzer_engine bound = None)
  /\ (forall dep,
         In dep (ar_deps_of fuzzer_engine deps)
         <-> In dep deps /\ Py.endswith dep ".a" = true /\ dep <> fuzzer_engine)
  /\ (forall (pre post : list json) (c : json),
         cdb = JArr (pre ++ c :: post) ->
         Forall well_formed (pre ++ c :: post) ->
         In fuzzer_engine archive_deps ->
         matching command_basename fuzzer_engine c = true ->
         Forall (fun c' => matching command_basename fuzzer_engine c' = false) post ->
         exists trace bound,
           match_commands w fuzzer_engine cdb (obj_deps_of deps) archive_deps
           = (trace, Done bound)
           /\ Dict.get fuzzer_engine bound = Some c).
Proof.
  split; [|split; [|split; [|split]]].
  - unfold ar_deps_of. intros [_ H]%filter_In.
    rewrite String.eqb_refl, andb_false_r in H. discriminate.
  - unfold match_commands. rewrite match_obj_deps_without_engine.
    destruct (match_obj_deps w fuzzer_engine cdb (obj_deps_of deps) []) as [tr [commands|e]];
      cbn [fst snd bindM]; [|reflexivity].
    pose proof (match_archive_deps_quiet fuzzer_engine cdb archive_deps commands) as Q.
    destruct (match_archive_deps cdb archive_deps commands) as [tr' r].
    cbn [fst snd] in *. unfold without_looking_for in *. now rewrite filter_app, Q.
  - intros commands -> Hwf Hcanon Hmember.
    rewrite match_commands_ok by assumption.
    eexists _, _. split; [reflexivity|].
    rewrite archive_bindings_other by assumption.
    destruct (Dict.get fuzzer_engine _) as [v|] eqn:E; [|reflexivity].
    apply get_in, obj_bindings_in in E as [[]|(_ & _ & dep & Hin & Hne & E)].
    rewrite (Hcanon dep Hin) in E. congruence.
  - intros dep. unfold ar_deps_of. rewrite filter_In, andb_true_iff, negb_true_iff.
    rewrite String.eqb_neq. tauto.
  - intros pre post c -> Hwf Hin Hc Hpost.
    rewrite match_commands_ok by assumption.
    eexists _, _. split; [reflexivity|].
    now apply (archive_bindings_last _ _ _ fuzzer_engine pre post c).
Qed.

Lemma fuzzer_engine_excluded_witness :
  exists trace bound,
    match_commands Example.matcher_world "/src/engine.o"
      (JArr [Example.first_a; Example.command "/src" "engine.o" "engine.c"])
      (obj_deps_of ["/src/a.o"; "/src/engine.o"; "/src/libb.a"]) ["b.o"]
    = (trace, Done bound)
    /\ Dict.get "/src/engine.o" bound = None.
Proof.
  destruct (fuzzer_engine_excluded Example.matcher_world "/src/engine.o"
              (JArr [Example.first_a; Example.command "/src" "engine.o" "engine.c"])
              ["/src/a.o"; "/src/engine.o"; "/src/libb.a"] ["b.o"]) as (_ & _ & H & _).
  apply (H [Example.first_a; Example.command "/src" "engine.o" "engine.c"]).
  - reflexivity.
  - repeat constructor; eexists _, _; split; reflexivity.
  - intros dep [<-|[<-|[]]]; reflexivity.
  - intros [H'|[]]. discriminate H'.
Defined.

(** With the engine named [engine.o], relative to the working directory,
    the object file [/src/engine.o] is the engine under its canonical
    path; it is looked up and bound. *)
Lemma fuzzer_engine_excluded_counterexample :
  ~ (forall (w : World) (fuzzer_engine : string) (cdb : list json)
            (deps archive_deps : list string) (dep : string),
        getenv w "LIB_FUZZING_ENGINE" = Some fuzzer_engine ->
        Forall well_formed cdb ->
        In dep deps ->
        realpath w dep = realpath w fuzzer_engine ->
        exists trace commands,
          match_commands w fuzzer_engine (JArr cdb) (obj_deps_of deps) archive_deps
          = (trace, Done commands)
          /\ Dict.get (realpath w dep) commands = None).
Proof.
  intros H.
  destruct (H Scenario.relative_engine_world "engine.o"
              [Example.command "/src" "engine.o" "engine.c"] ["/src/engine.o"] []
              "/src/engine.o")
    as (trace & commands & E & G).
  - reflexivity.
  - repeat constructor; eexists _, _; split; reflexivity.
  - now left.
  - reflexivity.
  - injection E as _ <-. discriminate G.
Qed.

(** ** Which command a dependency is bound to *)

(** C1, as the code has it.  The inner loops have no [break]: every
    matching command is assigned in turn, so the one that stays is the last
    match in the order of the database, whatever matches before it.  This
    holds for an archive member (matched by basename) and for an object
    file other than the fuzzing engine (matched by canonical path) whose
    canonical path is not also the name of an archive member. *)
Theorem last_match_wins (w : World) (fuzzer_engine : string)
    (obj_deps archive_deps : list string) (pre post : list json) (c : json) :
  Forall well_formed (pre ++ c :: post) ->
  exists trace commands,
    match_commands w fuzzer_engine (JArr (pre ++ c :: post)) obj_deps archive_deps
    = (trace, Done commands)
    /\ (forall dep,
           In dep obj_deps ->
           dep <> fuzzer_engine ->
           ~ In (realpath w dep) archive_deps ->
           matching (command_path w) (realpath w dep) c = true ->
           Forall (fun c' => matching (command_path w) (realpath w dep) c' = false) post ->
           Dict.get (realpath w dep) commands = Some c)
    /\ (forall archive_dep,
           In archive_dep archive_deps ->
           matching command_basename archive_dep c = true ->
           Forall (fun c' => matching command_basename archive_dep c' = false) post ->
           Dict.get archive_dep commands = Some c).
Proof.
  intros Hwf. rewrite match_commands_ok by assumption.
  eexists _, _. split; [reflexivity|]. split.
  - intros dep Hin Hne Hnot Hc Hpost.
    rewrite archive_bindings_other by assumption.
    now apply (obj_bindings_last _ _ _ _ _ dep pre post c).
  - intros archive_dep Hin Hc Hpost.
    now apply (archive_bindings_last _ _ _ archive_dep pre post c).
Qed.

Lemma last_match_wins_witness :
  exists trace commands,
    match_commands Example.matcher_world Example.engine
      (JArr [Example.first_a; Example.second_a; Example.only_b]) ["/src/a.o"] ["b.o"]
    = (trace, Done commands)
    /\ Dict.get "/src/a.o" commands = Some Example.second_a
    /\ Dict.get "b.o" commands = Some Example.only_b.
Proof.
  destruct (last_match_wins Example.matcher_world Example.engine ["/src/a.o"] ["b.o"]
              [Example.first_a] [Example.only_b] Example.second_a)
    as (trace & commands & E & Hobj & _).
  { repeat constructor; eexists _, _; split; reflexivity. }
  destruct (last_match_wins Example.matcher_world Example.engine ["/src/a.o"] ["b.o"]
              [Example.first_a; Example.second_a] [] Example.only_b)
    as (trace' & commands' & E' & _ & Harch).
  { repeat constructor; eexists _, _; split; reflexivity. }
  exists trace, commands. split; [exact E|]. split.
  - apply (Hobj "/src/a.o"); [now left | discriminate | | reflexivity | repeat constructor].
    intros [H|[]]. discriminate H.
  - cbn [app] in E, E'. rewrite E in E'. injection E' as _ <-.
    apply (Harch "b.o"); [now left | reflexivity | constructor].
Defined.

(** Of two commands for [/src/a.o] the first one is not the one bound. *)
Lemma first_match_counterexample :
  ~ (forall (w : World) (fuzzer_engine : string) (obj_deps archive_deps : list string)
            (pre post : list json) (c : json) (dep : string),
        Forall well_formed (pre ++ c :: post) ->
        In dep obj_deps ->
        dep <> fuzzer_engine ->
        Forall (fun c' => matching (command_path w) (realpath w dep) c' = false) pre ->
        matching (command_path w) (realpath w dep) c = true ->
        Exists (fun c' => matching (command_path w) (realpath w dep) c' = true) post ->
        exists trace commands,
          match_commands w fuzzer_engine (JArr (pre ++ c :: post)) obj_deps archive_deps
          = (trace, Done commands)
          /\ Dict.get (realpath w dep) commands = Some c).
Proof.
  intros H.
  destruct (H Example.matcher_world Example.engine ["/src/a.o"] []
              [] [Example.second_a] Example.first_a "/src/a.o")
    as (trace & commands & E & G).
  - repeat constructor; eexists _, _; split; reflexivity.
  - now left.
  - discriminate.
  - constructor.
  - reflexivity.
  - now left.
  - injection E as _ <-. discriminate G.
Qed.

(** ** Dependencies without a command *)

(** Every [NOT FOUND] line is due to a dependency that was looked up. *)
Lemma obj_trace_reported (w : World) (fuzzer_engine : string) (cdb : list json)
    (deps : list string) (commands : Dict.t json) (k : string) :
  reported k (obj_trace w fuzzer_engine cdb deps commands) ->
  exists dep, In dep deps /\ dep <> fuzzer_engine /\ k = realpath w dep.
Proof.
  revert commands. induction deps as [|dep rest IH]; intros commands; [easy|].
  unfold reported. cbn [obj_trace]. intros [H|H]; [discriminate H|].
  apply in_app_or in H as [H|H].
  - destruct (String.eqb_spec dep fuzzer_engine) as [->|N]; cbn [orb] in H; [easy|].
    destruct (Dict.mem _ _); [easy|]. destruct H as [[= <-]|[]].
    exists dep. repeat split; [now left | assumption].
  - destruct (IH _ H) as (d & Hin & Hne & E). exists d. repeat split; [now right | assumption..].
Qed.

Lemma archive_trace_reported (cdb : list json) (deps : list string)
    (commands : Dict.t json) (k : string) :
  reported k (archive_trace cdb deps commands) -> In k deps.
Proof.
  revert commands. induction deps as [|dep rest IH]; intros commands; [easy|].
  unfold reported. cbn [archive_trace]. intros [H|H]%in_app_or.
  - destruct (Dict.mem _ _); [easy|]. destruct H as [[= <-]|[]]. now left.
  - right. now apply (IH _ H).
Qed.

(** C6, as the code has it.  On a database of well-formed commands the
    matcher runs to its end and returns a dictionary.  An object file other
    than the fuzzing engine whose canonical path no command has is reported
    with a [NOT FOUND] line; so is an archive member whose name is the
    basename of no command, when that name is not the canonical path of an
    object dependency.  Neither of them has an entry afterwards (for the
    object file: when its canonical path is not the name of an archive
    member), and every entry of the list of matched commands is a command
    of the database that matches a dependency: the list holds no
    placeholder.  The fuzzing engine among the object files is skipped
    before the lookup, so no line is due to it: every [NOT FOUND] line
    names the canonical path of an object file other than the engine, or
    an archive member. *)
Theorem unmatched_reported (w : World) (fuzzer_engine : string) (cdb : list json)
    (obj_deps archive_deps : list string) :
  Forall well_formed cdb ->
  exists trace commands,
    match_commands w fuzzer_engine (JArr cdb) obj_deps archive_deps = (trace, Done commands)
    /\ (forall dep,
           In dep obj_deps ->
           dep <> fuzzer_engine ->
           Forall (fun c => matching (command_path w) (realpath w dep) c = false) cdb ->
           reported (realpath w dep) trace
           /\ (~ In (realpath w dep) archive_deps ->
               Dict.get (realpath w dep) commands = None))
    /\ (forall archive_dep,
           In archive_dep archive_deps ->
           (forall dep, In dep obj_deps -> realpath w dep <> archive_dep) ->
           Forall (fun c => matching command_basename archive_dep c = false) cdb ->
           reported archive_dep trace /\ Dict.get archive_dep commands = None)
    /\ (forall c,
           In c (Dict.values commands) ->
           In c cdb
           /\ ((exists dep, In dep obj_deps /\ dep <> fuzzer_engine
                            /\ matching (command_path w) (realpath w dep) c = true)
               \/ (exists archive_dep, In archive_dep archive_deps
                                       /\ matching command_basename archive_dep c = true)))
    /\ (forall k,
           reported k trace ->
           (exists dep, In dep obj_deps /\ dep <> fuzzer_engine /\ k = realpath w dep)
           \/ In k archive_deps).
Proof.
  intros Hwf. rewrite match_commands_ok by assumption.
  eexists _, _. split; [reflexivity|].
  assert (J0 : matched_keys w cdb []) by (intros k H; now destruct H).
  split; [|split; [|split]].
  - intros dep Hin Hne Hno. split.
    + apply in_or_app. left. now apply obj_trace_reports.
    + intros Hnot. rewrite archive_bindings_other by assumption.
      apply (unmatched_key w cdb); [|assumption].
      now apply matched_keys_bindings.
  - intros archive_dep Hin Hfresh Hno.
    destruct (archive_trace_reports cdb archive_deps
                (obj_bindings w fuzzer_engine cdb obj_deps []) archive_dep) as [R G];
      trivial.
    + intros (v & H)%get_some_in.
      apply obj_bindings_in in H as [[]|(_ & _ & dep & Hdep & _ & E)].
      now destruct (Hfresh dep Hdep).
    + split; [|assumption]. apply in_or_app. now right.
  - intros c (k & H)%in_values.
    apply archive_bindings_in in H as [H|(Hc & Hm & Hin)].
    + apply obj_bindings_in in H as [[]|(Hc & Hm & dep & Hdep & Hne & ->)].
      split; [assumption|]. left. now exists dep.
    + split; [assumption|]. right. now exists k.
  - unfold reported. intros k [H|H]%in_app_or.
    + left. now apply obj_trace_reported in H.
    + right. now apply archive_trace_reported in H.
Qed.

Lemma unmatched_reported_witness :
  exists trace commands,
    match_commands Example.matcher_world Example.engine
      (JArr [Example.first_a; Example.only_b])
      ["/src/a.o"; Example.engine; "/src/c.o"] ["b.o"; "z.o"]
    = (trace, Done commands)
    /\ reported "/src/c.o" trace /\ Dict.get "/src/c.o" commands = None
    /\ reported "z.o" trace /\ Dict.get "z.o" commands = None
    /\ ~ reported Example.engine trace
    /\ Dict.values commands = [Example.first_a; Example.only_b].
Proof.
  destruct (unmatched_reported Example.matcher_world Example.engine
              [Example.first_a; Example.only_b]
              ["/src/a.o"; Example.engine; "/src/c.o"] ["b.o"; "z.o"])
    as (trace & commands & E & Hobj & Harch & _ & Hrep).
  { repeat constructor; eexists _, _; split; reflexivity. }
  exists trace, commands. split; [exact E|].
  destruct (Hobj "/src/c.o") as [R G];
    [right; right; now left | discriminate | repeat constructor |].
  destruct (Harch "z.o") as [R' G'];
    [right; now left | | repeat constructor |].
  { intros dep [<-|[<-|[<-|[]]]]; discriminate. }
  split; [exact R|]. split; [|split; [exact R'|split; [exact G'|split]]].
  - apply G. intros [H|[H|[]]]; discriminate H.
  - intros Rep. destruct (Hrep _ Rep) as [(dep & Hin & Hne & Hk)|Hin].
    + destruct Hin as [<-|[<-|[<-|[]]]]; (discriminate Hk || now destruct Hne).
    + destruct Hin as [H|[H|[]]]; discriminate H.
  - injection E as _ <-. reflexivity.
Defined.

(** The fuzzing engine among the object files has no command and is not
    reported. *)
Lemma unmatched_reported_counterexample :
  ~ (forall (w : World) (fuzzer_engine : string) (cdb : list json)
            (obj_deps archive_deps : list string) (dep : string),
        Forall well_formed cdb ->
        In dep obj_deps ->
        Forall (fun c => matching (command_path w) (realpath w dep) c = false) cdb ->
        exists trace commands,
          match_commands w fuzzer_engine (JArr cdb) obj_deps archive_deps
          = (trace, Done commands)
          /\ reported (realpath w dep) trace).
Proof.
  intros H.
  destruct (H Example.matcher_world "/src/engine.o" [Example.first_a]
              ["/src/engine.o"] [] "/src/engine.o")
    as (trace & commands & E & R).
  - repeat constructor; eexists _, _; split; reflexivity.
  - now left.
  - repeat constructor.
  - injection E as <- _. destruct R as [R|[]]. discriminate R.
Qed.

(** ** The dispatcher *)

Section Steps.

Context {A B : Type}.

Lemma bindM_done (m : M A) (f : A -> M B) (trace : list event) (b : B) :
  bindM m f = (trace, Done b) ->
  exists tr1 a tr2, m = (tr1, Done a) /\ f a = (tr2, Done b) /\ trace = (tr1 ++ tr2)%list.
Proof.
  destruct m as [tr1 [a|e]]; cbn; [|discriminate].
  destruct (f a) as [tr2 r] eqn:E. intros [= <- ->]. now exists tr1, a, tr2.
Qed.

Lemma lift_done (r : res A) (trace : list event) (a : A) :
  lift r = (trace, Done a) -> r = Ok a.
Proof. destruct r; [now intros [= _ ->] | discriminate]. Qed.

Lemma silent_lift (r : res A) : silent (lift r).
Proof.
  destruct r; (split; [constructor|]); cbn; [discriminate | now intros e [= <-]].
Qed.

Lemma careful_bind (m : M A) (f : A -> M B) :
  silent m -> (forall a, careful (f a)) -> careful (bindM m f).
Proof.
  intros [Hw Hs] Hf e. destruct m as [tr1 [a|e1]]; cbn in *.
  - specialize (Hf a). destruct (f a) as [tr2 r]. cbn in *.
    intros ->. destruct (Hf e eq_refl) as [Hw2 He]. split; [|assumption].
    now apply Forall_app.
  - intros [= <-]. now split; [|apply Hs].
Qed.

End Steps.

Lemma silent_run (w : World) (argv : list string) : silent (run w argv).
Proof.
  unfold run. destruct (in_usr_local_bin argv) as [command|]; [|apply silent_lift].
  unfold bindM, emit.
  destruct (subprocess_run w command) as [[rc out]|]; cbn.
  - destruct (Z.eqb_spec rc 0); cbn; (split; [repeat constructor|]); cbn;
      [discriminate | now intros e [= <-]].
  - split; [repeat constructor | now intros e [= <-]].
Qed.

Lemma silent_match_obj_deps (w : World) (fuzzer_engine : string) (cdb : json)
    (obj_deps : list string) (commands : Dict.t json) :
  silent (match_obj_deps w fuzzer_engine cdb obj_deps commands).
Proof.
  revert commands. induction obj_deps as [|dep rest IH]; intros commands.
  - split; [constructor | discriminate].
  - rewrite match_obj_deps_cons. destruct (String.eqb dep fuzzer_engine).
    + destruct (IH commands) as [Hw Hs]. split; [now constructor | exact Hs].
    + destruct (bind _ _) as [commands'|].
      * destruct (IH commands') as [Hw Hs]. split; [|exact Hs].
        cbn [fst]. constructor; [reflexivity|]. apply Forall_app. split; [|assumption].
        destruct (Dict.mem _ _); repeat constructor.
      * split; [repeat constructor | now intros e [= <-]].
Qed.

Lemma silent_match_archive_deps (cdb : json) (archive_deps : list string)
    (commands : Dict.t json) :
  silent (match_archive_deps cdb archive_deps commands).
Proof.
  revert commands. induction archive_deps as [|dep rest IH]; intros commands.
  - split; [constructor | discriminate].
  - rewrite match_archive_deps_cons. destruct (bind _ _) as [commands'|].
    + destruct (IH commands') as [Hw Hs]. split; [|exact Hs].
      cbn [fst]. apply Forall_app. split; [|assumption].
      destruct (Dict.mem _ _); repeat constructor.
    + split; [constructor | now intros e [= <-]].
Qed.

Lemma silent_match_commands (w : World) (fuzzer_engine : string) (cdb : json)
    (obj_deps archive_deps : list string) :
  silent (match_commands w fuzzer_engine cdb obj_deps archive_deps).
Proof.
  unfold match_commands.
  destruct (silent_match_obj_deps w fuzzer_engine cdb obj_deps []) as [Hw Hs].
  destruct (match_obj_deps _ _ _ _ _) as [tr1 [commands|e]]; cbn in *.
  - destruct (silent_match_archive_deps cdb archive_deps commands) as [Hw2 Hs2].
    destruct (match_archive_deps _ _ _) as [tr2 r]. cbn in *.
    split; [now apply Forall_app | exact Hs2].
  - now split.
Qed.

(** [main] writes at its very end: when it stops before, nothing has been
    written and the exit status is not zero. *)
Lemma capture_careful (w : World) (fuzzer_engine : string) (argv : list string) :
  careful (capture w fuzzer_engine argv).
Proof.
  unfold capture.
  repeat (apply careful_bind;
          [first [apply silent_lift | apply silent_run | apply silent_match_commands]
          | intros ?]).
  intros e. discriminate.
Qed.

Lemma assert_flag_ok (v : option string) (s : string) :
  assert_flag v = Ok s -> v = Some s.
Proof.
  destruct v as [s'|]; cbn; [|discriminate].
  destruct (String.eqb s' ""); [discriminate | now intros [= ->]].
Qed.

Lemma run_done (w : World) (argv command : list string) (trace : list event) :
  run w argv = (trace, Done command) ->
  in_usr_local_bin argv = Ok command
  /\ exists stdout, subprocess_run w command = Some (0%Z, stdout).
Proof.
  unfold run. destruct (in_usr_local_bin argv) as [command'|]; [|discriminate].
  unfold bindM, emit.
  destruct (subprocess_run w command') as [[rc out]|] eqn:E; cbn; [|discriminate].
  destruct (Z.eqb_spec rc 0) as [->|]; cbn; [|discriminate].
  intros [= _ <-]. split; [reflexivity | now exists out].
Qed.

(** What has succeeded when [main] reaches its end. *)
Lemma capture_done (w : World) (fuzzer_engine : string) (argv : list string)
    (trace : list event) :
  capture w fuzzer_engine argv = (trace, Done tt) ->
  exists output_file cdb_path rest command build_id ignored_deps deps archive_deps cdb,
    get_flag_value argv "-o" = Some output_file
    /\ get_flag_value argv "-gen-cdb-fragment-path" = Some cdb_path
    /\ remove_flag_and_value argv "-gen-cdb-fragment-path" = Some rest
    /\ in_usr_local_bin (rest ++ linker_flags cdb_path output_file) = Ok command
    /\ (exists stdout, subprocess_run w command = Some (0%Z, stdout))
    /\ get_build_id w output_file = Ok build_id
    /\ build_id <> JNull
    /\ load_ignored_deps w = Ok ignored_deps
    /\ parse_dependency_file w (dependency_file_of cdb_path output_file) output_file
         ignored_deps = Ok deps
    /\ archive_members w (ar_deps_of fuzzer_engine deps) [] = Ok archive_deps
    /\ read_cdb_fragments w cdb_path = Ok cdb.
Proof.
  unfold capture. intros H.
  apply bindM_done in H as (? & output_file & ? & H1%lift_done%assert_flag_ok & H & _).
  apply bindM_done in H as (? & cdb_path & ? & H2%lift_done%assert_flag_ok & H & _).
  apply bindM_done in H as (? & rest & ? & H3%lift_done & H & _).
  apply bindM_done in H as (? & command & ? & [H4 H5]%run_done & H & _).
  apply bindM_done in H as (? & build_id & ? & H6%lift_done & H & _).
  apply bindM_done in H as (? & [] & ? & H7%lift_done & H & _).
  apply bindM_done in H as (? & output_hash & ? & _ & H & _).
  apply bindM_done in H as (? & ignored_deps & ? & H8%lift_done & H & _).
  apply bindM_done in H as (? & deps & ? & H9%lift_done & H & _).
  apply bindM_done in H as (? & archive_deps & ? & H10%lift_done & H & _).
  apply bindM_done in H as (? & cdb & ? & H11%lift_done & H & _).
  exists output_file, cdb_path, rest, command, build_id, ignored_deps, deps, archive_deps, cdb.
  destruct (remove_flag_and_value argv "-gen-cdb-fragment-path"); [|discriminate].
  injection H3 as ->.
  repeat split; try assumption.
  intros ->. discriminate H7.
Qed.

Lemma archive_members_fails (w : World) (ar_deps archive_deps : list string)
    (archive : string) (rc : Z) (stdout : string) :
  In archive ar_deps ->
  subprocess_run w ["ar"; "-t"; archive] = Some (rc, stdout) ->
  rc <> 0%Z ->
  archive_members w ar_deps archive_deps = Raise.
Proof.
  intros Hin Hrun Hrc. revert archive_deps.
  induction ar_deps as [|a rest IH]; intros archive_deps; [easy|].
  cbn [archive_members]. unfold check_output at 1.
  destruct Hin as [->|Hin].
  - rewrite Hrun. apply Z.eqb_neq in Hrc. now rewrite Hrc.
  - destruct (subprocess_run w ["ar"; "-t"; a]) as [[rc' out]|]; [|reflexivity].
    destruct (rc' =? 0)%Z; [|reflexivity]. cbn [bind]. now apply IH.
Qed.

(** A fatal condition keeps [main] from its end. *)
Lemma fatal_not_done (w : World) (fuzzer_engine : string) (argv : list string)
    (trace : list event) :
  fatal w fuzzer_engine argv ->
  capture w fuzzer_engine argv <> (trace, Done tt).
Proof.
  intros F (output_file & cdb_path & rest & command & build_id & ignored_deps & deps
            & archive_deps & cdb & Ho & Hc & Hr & Hb & (out & Hrun) & Hid & Hnn & Hign
            & Hdeps & Har & Hcdb)%capture_done.
  destruct F as [E|E|? ? ? ? rc ? Eo Ec Er Eb Erun Hrc|? rc ? Eo Erun Hrc|? Eo Eid
                |? ? text Eo Ec Eread Ehead|? ? ? ? archive rc ? Eo Ec Eign Edeps Hin Erun Hrc
                |? names name data Ec Edir Hname Hfile Hfrag Eread Htorn].
  - congruence.
  - congruence.
  - rewrite Eo in Ho. rewrite Ec in Hc. rewrite Er in Hr.
    injection Ho as ->. injection Hc as ->. injection Hr as ->.
    rewrite Eb in Hb. injection Hb as ->. congruence.
  - rewrite Eo in Ho. injection Ho as ->.
    unfold get_build_id, check_output in Hid. rewrite Erun in Hid.
    apply Z.eqb_neq in Hrc. rewrite Hrc in Hid. discriminate Hid.
  - congruence.
  - rewrite Eo in Ho. rewrite Ec in Hc. injection Ho as ->. injection Hc as ->.
    unfold parse_dependency_file in Hdeps. rewrite Eread in Hdeps. cbn [of_option bind] in Hdeps.
    destruct (Py.readlines text) as [|first lines]; [discriminate|]. cbn [map] in Hdeps.
    destruct (Py.endswith _ (Py.strip first)) eqn:E; [|discriminate].
    apply endswith_spec in E as (pre & E). now apply (Ehead first pre).
  - rewrite Eo in Ho. rewrite Ec in Hc. injection Ho as ->. injection Hc as ->.
    rewrite Eign in Hign. injection Hign as ->.
    rewrite Edeps in Hdeps. injection Hdeps as ->.
    rewrite (archive_members_fails w _ _ archive rc stdout) in Har by assumption.
    discriminate.
  - rewrite Ec in Hc. injection Hc as ->.
    unfold read_cdb_fragments in Hcdb.
    destruct (files_by_creation_time w cdb_path) as [files|] eqn:E; [|discriminate].
    cbn [bind] in Hcdb.
    rewrite (fragments_loop_torn w files [] (OsPath.join cdb_path name) data) in Hcdb;
      [discriminate | | assumption | assumption | now apply endswith_false].
    apply (files_by_creation_time_inv w cdb_path names files Edir) in E.
    apply (Permutation_in _ (Permutation_sym E)), filter_In. split; [|assumption].
    now apply in_map.
Qed.

(** *** Exit status *)

Lemma exits_lift (w : World) {A : Type} (r : res A) : exits_with_returncode w (lift r).
Proof. destruct r; intros e; cbn; [discriminate | intros [= <-]; now left]. Qed.

Lemma exits_bind (w : World) {A B : Type} (m : M A) (f : A -> M B) :
  exits_with_returncode w m ->
  (forall a, exits_with_returncode w (f a)) ->
  exits_with_returncode w (bindM m f).
Proof.
  intros Hm Hf e. destruct m as [tr1 [a|e1]]; cbn in *.
  - specialize (Hf a e). destruct (f a) as [tr2 r]. exact Hf.
  - intros [= <-]. exact (Hm e1 eq_refl).
Qed.

Lemma exits_run (w : World) (argv : list string) : exits_with_returncode w (run w argv).
Proof.
  unfold run. destruct (in_usr_local_bin argv) as [command|]; [|apply exits_lift].
  unfold bindM, emit.
  destruct (subprocess_run w command) as [[rc out]|] eqn:E; cbn.
  - destruct (rc =? 0)%Z; intros e; cbn; [discriminate|].
    intros [= <-]. right. now exists command, rc, out.
  - intros e [= <-]. now left.
Qed.

Lemma exits_match_obj_deps (w : World) (fuzzer_engine : string) (cdb : json)
    (obj_deps : list string) (commands : Dict.t json) :
  exits_with_returncode w (match_obj_deps w fuzzer_engine cdb obj_deps commands).
Proof.
  revert commands. induction obj_deps as [|dep rest IH]; intros commands.
  - intros e. discriminate.
  - rewrite match_obj_deps_cons. destruct (String.eqb dep fuzzer_engine).
    + exact (IH commands).
    + destruct (bind _ _) as [commands'|]; [exact (IH commands')|].
      intros e [= <-]. now left.
Qed.

Lemma exits_match_archive_deps (w : World) (cdb : json) (archive_deps : list string)
    (commands : Dict.t json) :
  exits_with_returncode w (match_archive_deps cdb archive_deps commands).
Proof.
  revert commands. induction archive_deps as [|dep rest IH]; intros commands.
  - intros e. discriminate.
  - rewrite match_archive_deps_cons.
    destruct (bind _ _) as [commands'|]; [exact (IH commands')|].
    intros e [= <-]. now left.
Qed.

Lemma exits_match_commands (w : World) (fuzzer_engine : string) (cdb : json)
    (obj_deps archive_deps : list string) :
  exits_with_returncode w (match_commands w fuzzer_engine cdb obj_deps archive_deps).
Proof.
  unfold match_commands. apply exits_bind; [apply exits_match_obj_deps|].
  intros commands. apply exits_match_archive_deps.
Qed.

(** The only [sys.exit] of a capturing invocation passes on the return
    code of a tool. *)
Lemma capture_exits (w : World) (fuzzer_engine : string) (argv : list string) :
  exits_with_returncode w (capture w fuzzer_engine argv).
Proof.
  unfold capture.
  repeat (apply exits_bind;
          [first [apply exits_lift | apply exits_run | apply exits_match_commands]
          | intros ?]).
  intros e. discriminate.
Qed.

(** A return code other than 0 gives an exit status other than 0. *)
Lemma returncode_status (rc : Z) : returncode rc -> rc <> 0%Z -> (rc mod 256 <> 0)%Z.
Proof.
  unfold returncode. intros H N E.
  pose proof (Z.div_mod rc 256) as D. rewrite E in D. lia.
Qed.

(** How a capturing invocation that stops has stopped. *)
Lemma capture_stops (w : World) (fuzzer_engine : string) (argv : list string)
    (trace : list event) (e : stop) :
  posix_returncodes w ->
  capture w fuzzer_engine argv = (trace, Stop e) ->
  (forall command, e <> Execv command)
  /\ writes_nothing trace
  /\ exists status, exit_status (Stop e) = Some status /\ status <> 0%Z.
Proof.
  intros Hrc E.
  destruct (capture_careful w fuzzer_engine argv e) as [Hw He]; [now rewrite E|].
  destruct (capture_exits w fuzzer_engine argv e) as [->|(command & rc & out & -> & Hrun)];
    [now rewrite E| |]; rewrite E in Hw; cbn [fst] in Hw.
  - repeat split; [discriminate | assumption|]. now exists 1%Z.
  - repeat split; [discriminate | assumption|]. exists (rc mod 256)%Z.
    split; [reflexivity|]. apply returncode_status; [|exact He].
    exact (Hrc command rc out Hrun).
Qed.

(** C7, as the code has it.  In a capturing invocation whose tools return
    the codes of a process (an exit status, or minus a signal number),
    each of these conditions stops [main] before its end, with a non-zero
    exit status (the low eight bits of the linker's code when the linker
    fails, 1 for an exception) and before any provenance record is
    written, the only write of the program being its last act: a missing
    [-o] or fragment-directory flag; a linker, [llvm-readelf] or [ar] that
    returns a non-zero code; notes without a build identifier; a fragment
    without its sentinel; and a dependency file whose first line is not a
    suffix of [<canonical output path>: \].  A first line that is such a
    suffix, though it names another file or nothing at all, is no fatal
    condition. *)
Theorem fatal_writes_nothing (w : World) (fuzzer_engine : string) (argv : list string) :
  captures w fuzzer_engine argv ->
  posix_returncodes w ->
  fatal w fuzzer_engine argv ->
  exists trace e status,
    main w argv = (trace, Stop e)
    /\ exit_status (Stop e) = Some status
    /\ status <> 0%Z
    /\ writes_nothing trace.
Proof.
  intros Hc Hrc F. rewrite (main_captures w fuzzer_engine argv Hc).
  pose proof (fatal_not_done w fuzzer_engine argv) as N.
  pose proof (capture_stops w fuzzer_engine argv) as S.
  destruct (capture w fuzzer_engine argv) as [trace [[]|e]].
  - now destruct (N trace F).
  - destruct (S trace e Hrc eq_refl) as (_ & Hw & status & Hs & Hne).
    now exists trace, e, status.
Qed.

Lemma fatal_writes_nothing_witness :
  exists trace e status,
    main Scenario.torn_world Example.link_argv = (trace, Stop e)
    /\ exit_status (Stop e) = Some status
    /\ status <> 0%Z
    /\ writes_nothing trace.
Proof.
  apply (fatal_writes_nothing Scenario.torn_world Example.engine Example.link_argv).
  - repeat split; [discriminate | right; cbn; tauto].
  - intros argv rc out [= <- _]. unfold returncode. lia.
  - apply (Torn_fragment _ _ _ "/cdb" (map fst Example.cdb_dir) "b.json"
             ("{" ++ Example.field "directory" "/src")).
    + reflexivity.
    + reflexivity.
    + now left.
    + reflexivity.
    + reflexivity.
    + reflexivity.
    + apply endswith_false. reflexivity.
Defined.

(** The header [bar: \] for the output [/out/foobar] is not the expected
    header, and yet the link runs to its end and writes the record. *)
Lemma fatal_writes_nothing_counterexample :
  ~ (forall (w : World) (fuzzer_engine : string) (argv : list string)
            (output_file cdb_path text first : string),
        captures w fuzzer_engine argv ->
        posix_returncodes w ->
        get_flag_value argv "-o" = Some output_file ->
        get_flag_value argv "-gen-cdb-fragment-path" = Some cdb_path ->
        read_text w (dependency_file_of cdb_path output_file) = Some text ->
        hd_error (Py.readlines text) = Some first ->
        Py.strip first <> realpath w output_file ++ ": \" ->
        exists trace e status,
          main w argv = (trace, Stop e)
          /\ exit_status (Stop e) = Some status
          /\ status <> 0%Z
          /\ writes_nothing trace).
Proof.
  intros H.
  destruct (H Scenario.misnamed_world Example.engine Scenario.misnamed_argv
              "/out/foobar" "/cdb"
              ("bar: \" ++ Example.nl ++ "  a.o \" ++ Example.nl ++ Example.nl)
              ("bar: \" ++ Example.nl))
    as (trace & e & status & E & _).
  - repeat split; [discriminate | right; cbn; tauto].
  - intros argv rc out [= <- _]. unfold returncode. lia.
  - reflexivity.
  - reflexivity.
  - reflexivity.
  - reflexivity.
  - discriminate.
  - vm_compute in E. discriminate E.
Qed.

(** What the misnamed link writes. *)
Example misnamed_link_writes_record :
  exists trace doc,
    main Scenario.misnamed_world Scenario.misnamed_argv
    = ((trace ++ [Wrote "/cdb/deadbeef_linker_commands.json" doc])%list, Done tt).
Proof. eexists [_; _], _. vm_compute. reflexivity. Qed.

(** The same link with whole fragments runs to its end and writes the
    record, named after the build identifier. *)
Example main_writes_record :
  exists trace doc,
    main Example.link_world Example.link_argv
    = ((trace ++ [Wrote "/cdb/deadbeef_linker_commands.json" doc])%list, Done tt)
    /\ writes_nothing trace
    /\ py_getitem doc "compile_commands"
       = Ok (JArr [Example.command "/src" "a.o" "a.c"; Example.command "/src" "b.o" "b.c"]).
Proof.
  eexists [_; _], _. split; [vm_compute; reflexivity|].
  split; [repeat constructor | reflexivity].
Qed.

Lemma get_flag_value_forms_witness :
  get_flag_value ["clang"; "a.o"; "-o"; "/out/foo"] "-o" = Some "/out/foo"
  /\ get_flag_value ["clang"; "-o/out/foo"; "a.o"] "-o" = Some "/out/foo"
  /\ get_flag_value ["clang"; "a.o"; "-o/out/foo"] "-o" = None
  /\ main Example.link_world ["clang"; "a.o"; "-lFuzzingEngine"; "-o/out/foo"]
     = ([], Stop Uncaught).
Proof.
  destruct get_flag_value_forms as (Hsep & Hcat & Hnone & Hmain).
  split; [|split; [|split]].
  - apply (Hsep ["clang"; "a.o"] "/out/foo" []). repeat constructor.
  - apply (Hcat ["clang"] "/out/foo" "a.o" []); [repeat constructor | discriminate].
  - apply (Hnone "-o" ["clang"; "a.o"; "-o/out/foo"]). repeat constructor.
  - apply (Hmain Example.link_world Example.engine).
    + repeat split; [discriminate | right; cbn; tauto].
    + left. apply (Hnone "-o"). repeat constructor.
Defined.

Lemma read_cdb_fragments_count_witness :
  exists files commands,
    files_by_creation_time Example.link_world "/cdb" = Ok files
    /\ read_cdb_fragments Example.link_world "/cdb" = Ok (JArr commands)
    /\ List.length commands = 2
    /\ Forall2 (fun file command =>
                  exists body members,
                    read_text Example.link_world file = Some (body ++ sentinel)
                    /\ json_loads body = Ok command
                    /\ command = JObj members)
         (filter is_fragment files) commands.
Proof.
  apply (read_cdb_fragments_count Example.link_world "/cdb" (map fst Example.cdb_dir)).
  - reflexivity.
  - intros file [<-|[<-|[<-|[<-|[]]]]]; discriminate.
  - intros file [<-|[<-|[<-|[<-|[]]]]]; try discriminate; intros _.
    + eexists ("{" ++ Example.field "directory" "/src" ++ ", " ++ Example.field "file" "b.c"
               ++ ", " ++ Example.field "output" "b.o" ++ "}"), _.
      split; reflexivity.
    + eexists ("{" ++ Example.field "directory" "/src" ++ ", " ++ Example.field "file" "a.c"
               ++ ", " ++ Example.field "output" "a.o" ++ "}"), _.
      split; reflexivity.
Defined.

Lemma read_cdb_fragments_torn_witness :
  read_cdb_fragments Example.torn_world "/cdb" = Raise.
Proof.
  apply (read_cdb_fragments_torn Example.torn_world "/cdb" (map fst Example.cdb_dir)
           "b.json" ("{" ++ Example.field "directory" "/src")).
  - reflexivity.
  - now left.
  - reflexivity.
  - reflexivity.
  - reflexivity.
  - apply endswith_false. reflexivity.
Defined.

(** * Further properties *)

(** ** Flags, for any flag *)

Lemma Forall_removelast {A : Type} (P : A -> Prop) (l : list A) :
  Forall P l -> Forall P (removelast l).
Proof.
  induction 1 as [|x l Hx Hl IH]; [constructor|].
  destruct l as [|y l]; [constructor|].
  change (removelast (x :: y :: l)) with (x :: removelast (y :: l)). now constructor.
Qed.

Lemma flag_at_exact (flag a : string) : flag <> "-o" -> flag_at flag a = String.eqb a flag.
Proof.
  intros H%String.eqb_neq. unfold flag_at. rewrite H. cbn. apply orb_false_r.
Qed.

Lemma Forall_flag_at_exact (flag : string) (l : list string) :
  flag <> "-o" -> ~ In flag l -> Forall (fun x => flag_at flag x = false) l.
Proof.
  intros Hf Hl. apply Forall_forall. intros x Hx. rewrite flag_at_exact by assumption.
  apply String.eqb_neq. now intros ->.
Qed.

Lemma append_nonempty_neq (s suffix : string) : suffix <> "" -> (s ++ suffix)%string <> s.
Proof.
  intros H E. apply H. induction s as [|c s IH]; [assumption|].
  apply IH. now injection E.
Qed.

(** X1.  The two flag functions agree on whether the flag is there:
    [get_flag_value] returns [None] exactly when [remove_flag_and_value]
    does, for every flag and argument list. *)
Theorem flag_value_iff_removed (argv : list string) (flag : string) :
  get_flag_value argv flag = None <-> remove_flag_and_value argv flag = None.
Proof.
  induction argv as [|a [|v tl] IH]; [easy | easy |].
  destruct (flag_at flag a) eqn:Ha.
  - unfold flag_at in Ha. cbn [get_flag_value remove_flag_and_value].
    destruct (String.eqb a flag); [easy|]. cbn in Ha. now rewrite Ha.
  - rewrite get_flag_value_skip, remove_flag_and_value_skip, IH by assumption.
    now destruct (remove_flag_and_value (v :: tl) flag).
Qed.

(** X2.  Whenever [remove_flag_and_value] returns a list, it has taken
    two adjacent arguments out of [argv] and nothing else: the first
    argument that matches the flag and has a successor, and that
    successor.  The result is two shorter than [argv], and
    [get_flag_value] reads its value at the same place. *)
Theorem remove_flag_and_value_inv (argv rest : list string) (flag : string) :
  remove_flag_and_value argv flag = Some rest ->
  exists pre a v post,
    argv = (pre ++ a :: v :: post)%list
    /\ rest = (pre ++ post)%list
    /\ Forall (fun x => flag_at flag x = false) pre
    /\ flag_at flag a = true
    /\ get_flag_value argv flag = Some (if String.eqb a flag then v else Py.drop 2 a)
    /\ List.length argv = 2 + List.length rest.
Proof.
  revert rest. induction argv as [|a [|v tl] IH]; intros rest; [easy | easy |].
  destruct (flag_at flag a) eqn:Ha.
  - pose proof (remove_flag_and_value_first flag [] a v tl (Forall_nil _) Ha) as R.
    pose proof (get_flag_value_first flag [] a v tl (Forall_nil _) Ha) as G.
    cbn [app] in R, G. rewrite R. intros [= <-].
    exists [], a, v, tl. repeat split; try constructor; assumption.
  - rewrite remove_flag_and_value_skip, get_flag_value_skip by assumption.
    destruct (remove_flag_and_value (v :: tl) flag) as [r|]; [|discriminate].
    intros [= <-].
    destruct (IH r eq_refl) as (pre & a0 & v0 & post & Eargv & -> & Hpre & Ha0 & Hget & Hlen).
    exists (a :: pre), a0, v0, post. rewrite Eargv in *.
    repeat split; try assumption; [now constructor|].
    cbn [List.length app] in *. lia.
Qed.

Lemma remove_flag_and_value_inv_witness :
  exists pre a v post,
    Example.link_argv = (pre ++ a :: v :: post)%list
    /\ ["clang"; "a.o"; "-o"; "/out/foo"; "-lFuzzingEngine"] = (pre ++ post)%list
    /\ Forall (fun x => flag_at "-gen-cdb-fragment-path" x = false) pre
    /\ flag_at "-gen-cdb-fragment-path" a = true
    /\ get_flag_value Example.link_argv "-gen-cdb-fragment-path"
       = Some (if String.eqb a "-gen-cdb-fragment-path" then v else Py.drop 2 a)
    /\ List.length Example.link_argv = 2 + 5.
Proof.
  apply (remove_flag_and_value_inv Example.link_argv
           ["clang"; "a.o"; "-o"; "/out/foo"; "-lFuzzingEngine"] "-gen-cdb-fragment-path").
  reflexivity.
Defined.

(** X3.  A flag other than [-o] is found only as a token of its own: at
    its first occurrence followed by another argument the value is that
    argument, and both are removed; an argument that merely starts with
    the flag, as in [-gen-cdb-fragment-path=<dir>], is not the flag. *)
Theorem flag_needs_exact_token (flag value : string) (pre post : list string) :
  flag <> "-o" ->
  ~ In flag pre ->
  get_flag_value (pre ++ flag :: value :: post) flag = Some value
  /\ remove_flag_and_value (pre ++ flag :: value :: post) flag = Some (pre ++ post)%list
  /\ (forall suffix, suffix <> "" -> ~ In flag post ->
        get_flag_value (pre ++ (flag ++ suffix)%string :: post) flag = None).
Proof.
  intros Hf Hpre.
  pose proof (Forall_flag_at_exact flag pre Hf Hpre) as Fpre.
  assert (Ha : flag_at flag flag = true)
    by (rewrite flag_at_exact by assumption; apply String.eqb_refl).
  split; [|split].
  - rewrite (get_flag_value_first flag pre flag value post Fpre Ha).
    now rewrite String.eqb_refl.
  - apply remove_flag_and_value_first; assumption.
  - intros suffix Hs Hpost. apply get_flag_value_none, Forall_removelast, Forall_app.
    split; [assumption|]. constructor.
    + rewrite flag_at_exact by assumption. apply String.eqb_neq.
      now apply append_nonempty_neq.
    + now apply Forall_flag_at_exact.
Qed.

Lemma flag_needs_exact_token_witness :
  get_flag_value Example.link_argv "-gen-cdb-fragment-path" = Some "/cdb"
  /\ remove_flag_and_value Example.link_argv "-gen-cdb-fragment-path"
     = Some ["clang"; "a.o"; "-o"; "/out/foo"; "-lFuzzingEngine"]
  /\ get_flag_value ["clang"; "a.o"; "-o"; "/out/foo"; "-gen-cdb-fragment-path=/cdb";
                     "-lFuzzingEngine"] "-gen-cdb-fragment-path" = None.
Proof.
  destruct (flag_needs_exact_token "-gen-cdb-fragment-path" "/cdb"
              ["clang"; "a.o"; "-o"; "/out/foo"] ["-lFuzzingEngine"])
    as (Hget & Hremove & Hnone).
  - discriminate.
  - cbn. intuition discriminate.
  - split; [exact Hget|]. split; [exact Hremove|].
    apply (Hnone "=/cdb"); [discriminate|]. cbn. intuition discriminate.
Defined.

(** ** Handing over to the compiler *)

Lemma startswith_has_sep (s : string) : Py.startswith s "/" = true -> OsPath.has_sep s = true.
Proof.
  destruct s as [|c s]; [discriminate|]. cbn [Py.startswith OsPath.has_sep].
  intros [E _]%andb_prop. apply Ascii.eqb_eq in E as <-. reflexivity.
Qed.

Lemma basename_no_sep (p : string) : OsPath.has_sep (OsPath.basename p) = false.
Proof.
  induction p as [|c p IH]; [reflexivity|]. cbn [OsPath.basename].
  destruct (OsPath.has_sep p) eqn:E; [assumption|].
  destruct (Ascii.eqb c "/") eqn:Ec; [assumption|].
  cbn. now rewrite Ec, E.
Qed.

Lemma join_usr_local_bin (name : string) :
  OsPath.has_sep name = false ->
  OsPath.join "/usr/local/bin/" name = "/usr/local/bin/" ++ name.
Proof.
  intros H. unfold OsPath.join.
  destruct (Py.startswith name "/") eqn:E; [|reflexivity].
  apply startswith_has_sep in E. congruence.
Qed.

Lemma has_sep_app (a b : string) :
  OsPath.has_sep (a ++ b) = OsPath.has_sep a || OsPath.has_sep b.
Proof. induction a as [|c a IH]; cbn; [reflexivity|]. now rewrite IH, orb_assoc. Qed.

Lemma basename_after_sep (a name : string) :
  OsPath.has_sep name = false -> OsPath.basename (a ++ "/" ++ name) = name.
Proof.
  intros H. induction a as [|c a IH]; cbn [append OsPath.basename].
  - now rewrite H.
  - rewrite has_sep_app. cbn. now rewrite orb_true_r.
Qed.

Lemma in_usr_local_bin_cons (a0 : string) (rest : list string) :
  in_usr_local_bin (a0 :: rest) = Ok (("/usr/local/bin/" ++ OsPath.basename a0) :: rest).
Proof.
  unfold in_usr_local_bin. now rewrite join_usr_local_bin by apply basename_no_sep.
Qed.

(** X4.  When [LIB_FUZZING_ENGINE] is unset or empty, or neither the
    engine nor [-lFuzzingEngine] is among the arguments, [main] does
    nothing but call [print] once and then replace the process by the
    program of the same base name in [/usr/local/bin], with the other
    arguments unchanged.  It runs no tool and reads and writes no file.
    Nothing flushes standard output between the two calls: the line is
    certain to be output when the stream is line-buffered or unbuffered,
    and not otherwise, since the buffer goes with the replaced process.
    The command is a fixed point of the rewriting of [argv[0]]. *)
Theorem main_passes_through (w : World) (a0 : string) (rest : list string) :
  getenv w "LIB_FUZZING_ENGINE" = None
  \/ getenv w "LIB_FUZZING_ENGINE" = Some ""
  \/ (exists fuzzer_engine,
        getenv w "LIB_FUZZING_ENGINE" = Some fuzzer_engine
        /\ ~ In fuzzer_engine (a0 :: rest)
        /\ ~ In "-lFuzzingEngine" (a0 :: rest)) ->
  let command := ("/usr/local/bin/" ++ OsPath.basename a0) :: rest in
  main w (a0 :: rest) = ([AboutToExecute command], Stop (Execv command))
  /\ flushed LineBuffered (main w (a0 :: rest)) = [AboutToExecute command]
  /\ flushed BlockBuffered (main w (a0 :: rest)) = []
  /\ in_usr_local_bin command = Ok command.
Proof.
  intros H command.
  assert (E : execute (a0 :: rest) = ([AboutToExecute command], Stop (Execv command))).
  { unfold execute. now rewrite in_usr_local_bin_cons. }
  assert (E' : main w (a0 :: rest) = ([AboutToExecute command], Stop (Execv command))).
  { unfold main. destruct H as [->|[->|(fuzzer_engine & -> & H1 & H2)]]; try exact E.
    rewrite <- mem_In in H1, H2.
    apply not_true_is_false in H1, H2. rewrite H1, H2. cbn [negb andb].
    now rewrite orb_true_r. }
  rewrite E'. repeat split.
  subst command. rewrite in_usr_local_bin_cons.
  change ("/usr/local/bin/" ++ OsPath.basename a0)
    with ("/usr/local/bin" ++ "/" ++ OsPath.basename a0).
  now rewrite basename_after_sep by apply basename_no_sep.
Qed.

Lemma main_passes_through_witness :
  main Example.link_world ["/opt/indexer/clang"; "-c"; "a.c"; "-o"; "a.o"]
  = ([AboutToExecute ["/usr/local/bin/clang"; "-c"; "a.c"; "-o"; "a.o"]],
     Stop (Execv ["/usr/local/bin/clang"; "-c"; "a.c"; "-o"; "a.o"]))
  /\ flushed BlockBuffered
       (main Example.link_world ["/opt/indexer/clang"; "-c"; "a.c"; "-o"; "a.o"])
     = [].
Proof.
  destruct (main_passes_through Example.link_world "/opt/indexer/clang"
              ["-c"; "a.c"; "-o"; "a.o"]) as (Hmain & _ & Hblock & _).
  - right. right. exists Example.engine. split; [reflexivity|].
    split; cbn; intuition discriminate.
  - split; [exact Hmain | exact Hblock].
Defined.

(** ** The link step *)

Lemma bindM_ok {A B : Type} (a : A) (f : A -> M B) : bindM (lift (Ok a)) f = f a.
Proof. cbn. now destruct (f a). Qed.

Lemma bindM_raise {A B : Type} (f : A -> M B) : bindM (lift Raise) f = ([], Stop Uncaught).
Proof. reflexivity. Qed.

Lemma assert_flag_some (s : string) : s <> "" -> assert_flag (Some s) = Ok s.
Proof. intros H%String.eqb_neq. cbn. now rewrite H. Qed.

Lemma run_fails (w : World) (argv command : list string) (rc : Z) (stdout : string) :
  in_usr_local_bin argv = Ok command ->
  subprocess_run w command = Some (rc, stdout) ->
  rc <> 0%Z ->
  run w argv = ([AboutToRun command], Stop (SysExit rc)).
Proof.
  intros E R H%Z.eqb_neq. unfold run. rewrite E. unfold bindM, emit. rewrite R, H.
  reflexivity.
Qed.

Lemma run_succeeds (w : World) (argv command : list string) (stdout : string) :
  in_usr_local_bin argv = Ok command ->
  subprocess_run w command = Some (0%Z, stdout) ->
  run w argv = ([AboutToRun command], Done command).
Proof.
  intros E R. unfold run. rewrite E. unfold bindM, emit. rewrite R. reflexivity.
Qed.



(** X6.  When the linker returns a non-zero code, [main] stops right
    after the line that announces the command, with [sys.exit] of that
    same code: the status of the linker is the status of the wrapper. *)
Theorem linker_status_propagated (w : World) (fuzzer_engine : string) (argv : list string)
    (output_file cdb_path : string) (rest command : list string) (rc : Z) (stdout : string) :
  captures w fuzzer_engine argv ->
  get_flag_value argv "-o" = Some output_file ->
  output_file <> "" ->
  get_flag_value argv "-gen-cdb-fragment-path" = Some cdb_path ->
  cdb_path <> "" ->
  remove_flag_and_value argv "-gen-cdb-fragment-path" = Some rest ->
  in_usr_local_bin (rest ++ linker_flags cdb_path output_file) = Ok command ->
  subprocess_run w command = Some (rc, stdout) ->
  rc <> 0%Z ->
  main w argv = ([AboutToRun command], Stop (SysExit rc)).
Proof.
  intros Hc Ho Hne Hp Hpne Hr Hb Hrun Hrc.
  rewrite (main_captures w fuzzer_engine argv Hc). unfold capture.
  rewrite Ho, Hp, Hr, !assert_flag_some by assumption.
  cbn [of_option]. rewrite !bindM_ok.
  now rewrite (run_fails w _ command rc stdout).
Qed.

Lemma linker_status_propagated_witness :
  main Scenario.failing_linker_world Example.link_argv
  = ([AboutToRun Scenario.link_command], Stop (SysExit 3%Z)).
Proof.
  apply (linker_status_propagated Scenario.failing_linker_world Example.engine
           Example.link_argv "/out/foo" "/cdb"
           ["clang"; "a.o"; "-o"; "/out/foo"; "-lFuzzingEngine"]
           Scenario.link_command 3%Z "").
  - split; [reflexivity|]. split; [discriminate|]. right. cbn. tauto.
  - reflexivity.
  - discriminate.
  - reflexivity.
  - discriminate.
  - reflexivity.
  - reflexivity.
  - reflexivity.
  - discriminate.
Defined.

(** X7.  The status of [llvm-readelf] is not passed on.  With
    [check=True] a non-zero code raises inside [subprocess.run], so
    [get_build_id] raises, the test of [ret.returncode] below the call is
    never reached, and [main] stops with an uncaught exception after the
    link step, whatever the code was. *)
Theorem readelf_status_not_propagated (w : World) (fuzzer_engine : string)
    (argv : list string) (output_file cdb_path : string) (rest command : list string)
    (stdout notes : string) (rc : Z) :
  captures w fuzzer_engine argv ->
  get_flag_value argv "-o" = Some output_file ->
  output_file <> "" ->
  get_flag_value argv "-gen-cdb-fragment-path" = Some cdb_path ->
  cdb_path <> "" ->
  remove_flag_and_value argv "-gen-cdb-fragment-path" = Some rest ->
  in_usr_local_bin (rest ++ linker_flags cdb_path output_file) = Ok command ->
  subprocess_run w command = Some (0%Z, stdout) ->
  subprocess_run w [_LLVM_READELF_PATH; "--notes"; "--elf-output-style=JSON"; output_file]
  = Some (rc, notes) ->
  rc <> 0%Z ->
  get_build_id w output_file = Raise
  /\ main w argv = ([AboutToRun command], Stop Uncaught).
Proof.
  intros Hc Ho Hne Hp Hpne Hr Hb Hrun Helf Hrc%Z.eqb_neq.
  assert (B : get_build_id w output_file = Raise).
  { unfold get_build_id, check_output. now rewrite Helf, Hrc. }
  split; [assumption|].
  rewrite (main_captures w fuzzer_engine argv Hc). unfold capture.
  rewrite Ho, Hp, Hr, !assert_flag_some by assumption.
  cbn [of_option]. rewrite !bindM_ok.
  rewrite (run_succeeds w _ command stdout) by assumption.
  cbn [bindM]. rewrite B, bindM_raise. reflexivity.
Qed.

Lemma readelf_status_not_propagated_witness :
  get_build_id Scenario.failing_readelf_world "/out/foo" = Raise
  /\ main Scenario.failing_readelf_world Example.link_argv
     = ([AboutToRun Scenario.link_command], Stop Uncaught).
Proof.
  apply (readelf_status_not_propagated Scenario.failing_readelf_world Example.engine
           Example.link_argv "/out/foo" "/cdb"
           ["clang"; "a.o"; "-o"; "/out/foo"; "-lFuzzingEngine"]
           Scenario.link_command "" "" 2%Z).
  - split; [reflexivity|]. split; [discriminate|]. right. cbn. tauto.
  - reflexivity.
  - discriminate.
  - reflexivity.
  - discriminate.
  - reflexivity.
  - reflexivity.
  - reflexivity.
  - reflexivity.
  - discriminate.
Defined.

(** ** The record of a run that reaches its end *)

Lemma lift_done_nil {A : Type} (r : res A) (trace : list event) (a : A) :
  lift r = (trace, Done a) -> r = Ok a /\ trace = [].
Proof. destruct r; [now intros [= <- ->] | discriminate]. Qed.

Lemma run_done_trace (w : World) (argv command : list string) (trace : list event) :
  run w argv = (trace, Done command) ->
  in_usr_local_bin argv = Ok command /\ trace = [AboutToRun command].
Proof.
  unfold run. destruct (in_usr_local_bin argv) as [command'|]; [|discriminate].
  unfold bindM, emit.
  destruct (subprocess_run w command') as [[rc out]|]; cbn; [|discriminate].
  destruct (Z.eqb_spec rc 0) as [->|]; cbn; [|discriminate].
  intros [= <- <-]. now split.
Qed.

Lemma execute_not_done (argv : list string) (trace : list event) :
  execute argv <> (trace, Done tt).
Proof. unfold execute. now destruct (in_usr_local_bin argv). Qed.

(** Only a capturing invocation returns. *)
Lemma main_done (w : World) (argv : list string) (trace : list event) :
  main w argv = (trace, Done tt) ->
  exists fuzzer_engine,
    captures w fuzzer_engine argv /\ capture w fuzzer_engine argv = (trace, Done tt).
Proof.
  unfold main, captures.
  destruct (getenv w "LIB_FUZZING_ENGINE") as [fuzzer_engine|];
    [|now intros H%execute_not_done].
  destruct (String.eqb_spec fuzzer_engine "") as [->|Hne]; cbn [orb];
    [now intros H%execute_not_done|].
  destruct (Py.mem fuzzer_engine argv) eqn:E1; cbn [negb andb].
  - intros H. exists fuzzer_engine. repeat split; try assumption.
    left. now apply mem_In.
  - destruct (Py.mem "-lFuzzingEngine" argv) eqn:E2; cbn [negb];
      [|now intros H%execute_not_done].
    intros H. exists fuzzer_engine. repeat split; try assumption.
    right. now apply mem_In.
Qed.

(** Every step of a run that reaches its end, with what it printed. *)
Lemma capture_done_trace (w : World) (fuzzer_engine : string) (argv : list string)
    (trace : list event) :
  capture w fuzzer_engine argv = (trace, Done tt) ->
  exists output_file cdb_path rest command build_id output_hash ignored_deps deps
         archive_deps cdb lines commands,
    get_flag_value argv "-o" = Some output_file
    /\ get_flag_value argv "-gen-cdb-fragment-path" = Some cdb_path
    /\ remove_flag_and_value argv "-gen-cdb-fragment-path" = Some rest
    /\ in_usr_local_bin (rest ++ linker_flags cdb_path output_file) = Ok command
    /\ get_build_id w output_file = Ok (JStr build_id)
    /\ sha256 w output_file = Ok output_hash
    /\ load_ignored_deps w = Ok ignored_deps
    /\ parse_dependency_file w (dependency_file_of cdb_path output_file) output_file
         ignored_deps = Ok deps
    /\ archive_members w (ar_deps_of fuzzer_engine deps) [] = Ok archive_deps
    /\ read_cdb_fragments w cdb_path = Ok cdb
    /\ match_commands w fuzzer_engine cdb (obj_deps_of deps) archive_deps
       = (lines, Done commands)
    /\ trace
       = (AboutToRun command :: lines
          ++ [Wrote (OsPath.join cdb_path (build_id ++ "_linker_commands.json"))
                (record_of w output_file command (obj_deps_of deps ++ archive_deps)
                   output_hash build_id commands)])%list.
Proof.
  unfold capture. intros H.
  apply bindM_done in H as (? & output_file & ? & [H1%assert_flag_ok ->]%lift_done_nil & H & ->).
  apply bindM_done in H as (? & cdb_path & ? & [H2%assert_flag_ok ->]%lift_done_nil & H & ->).
  apply bindM_done in H as (? & rest & ? & [H3 ->]%lift_done_nil & H & ->).
  apply bindM_done in H as (? & command & ? & (H4 & ->)%run_done_trace & H & ->).
  apply bindM_done in H as (? & build_id & ? & [H6 ->]%lift_done_nil & H & ->).
  apply bindM_done in H as (? & [] & ? & [_ ->]%lift_done_nil & H & ->).
  apply bindM_done in H as (? & output_hash & ? & [H7 ->]%lift_done_nil & H & ->).
  apply bindM_done in H as (? & ignored_deps & ? & [H8 ->]%lift_done_nil & H & ->).
  apply bindM_done in H as (? & deps & ? & [H9 ->]%lift_done_nil & H & ->).
  apply bindM_done in H as (? & archive_deps & ? & [H10 ->]%lift_done_nil & H & ->).
  apply bindM_done in H as (? & cdb & ? & [H11 ->]%lift_done_nil & H & ->).
  apply bindM_done in H as (lines & commands & ? & H12 & H & ->).
  apply bindM_done in H as (? & id & ? & [H13 ->]%lift_done_nil & H & ->).
  destruct build_id as [| | |build_id| |]; try discriminate H13. injection H13 as <-.
  injection H as <-.
  destruct (remove_flag_and_value argv "-gen-cdb-fragment-path") as [rest'|];
    [|discriminate]. injection H3 as ->.
  exists output_file, cdb_path, rest, command, build_id, output_hash, ignored_deps, deps,
    archive_deps, cdb, lines, commands.
  repeat split; assumption || reflexivity.
Qed.

Lemma endswith_join (a b suffix : string) :
  Py.endswith (OsPath.join a (b ++ suffix)) suffix = true.
Proof.
  apply endswith_spec. unfold OsPath.join.
  destruct (Py.startswith _ "/"); [now exists b|].
  destruct (_ || _).
  - exists (a ++ b). now rewrite append_assoc.
  - exists (a ++ "/" ++ b). now rewrite !append_assoc.
Qed.

(** X8.  A run of [main] that reaches its end has written exactly one
    file, as its last act: [<build id>_linker_commands.json] in the
    fragment directory, for the build identifier that [llvm-readelf]
    reported.  The fragment reader passes over a file of that name, so no
    later link in the same directory takes the record for a fragment. *)
Theorem record_written_last (w : World) (argv : list string) (trace : list event) :
  main w argv = (trace, Done tt) ->
  exists before output_file cdb_path build_id doc,
    get_flag_value argv "-o" = Some output_file
    /\ get_flag_value argv "-gen-cdb-fragment-path" = Some cdb_path
    /\ get_build_id w output_file = Ok (JStr build_id)
    /\ trace = (before
                ++ [Wrote (OsPath.join cdb_path (build_id ++ "_linker_commands.json")) doc])%list
    /\ writes_nothing before
    /\ is_fragment (OsPath.join cdb_path (build_id ++ "_linker_commands.json")) = false.
Proof.
  intros (fuzzer_engine & _ & H)%main_done.
  apply capture_done_trace in H
    as (output_file & cdb_path & rest & command & build_id & output_hash & ignored_deps
        & deps & archive_deps & cdb & lines & commands & Ho & Hp & _ & _ & Hid & _ & _ & _
        & _ & _ & Hm & ->).
  exists (AboutToRun command :: lines), output_file, cdb_path, build_id.
  eexists. repeat split; try eassumption.
  - constructor; [reflexivity|].
    pose proof (silent_match_commands w fuzzer_engine cdb (obj_deps_of deps) archive_deps)
      as [S _].
    now rewrite Hm in S.
  - unfold is_fragment. now rewrite (endswith_join cdb_path build_id), andb_false_r.
Qed.

Lemma record_written_last_witness :
  exists before output_file cdb_path build_id doc,
    get_flag_value Example.link_argv "-o" = Some output_file
    /\ get_flag_value Example.link_argv "-gen-cdb-fragment-path" = Some cdb_path
    /\ get_build_id Example.link_world output_file = Ok (JStr build_id)
    /\ fst (main Example.link_world Example.link_argv)
       = (before
          ++ [Wrote (OsPath.join cdb_path (build_id ++ "_linker_commands.json")) doc])%list
    /\ writes_nothing before
    /\ is_fragment (OsPath.join cdb_path (build_id ++ "_linker_commands.json")) = false.
Proof.
  apply (record_written_last Example.link_world Example.link_argv).
  vm_compute. reflexivity.
Defined.

(** X9.  The record of a run that reaches its end tells what was done.
    Its [args] are the command that was run and announced first: the
    arguments without the fragment-directory flag and its value, then the
    four linker flags, with [argv[0]] replaced by the program in
    [/usr/local/bin] (the list is shared with [run], which assigns to it).
    Its [output], [sha256] and [gnu_build_id] are those of the file named
    by [-o], its [deps] the object files followed by the archive members,
    its [directory] the working directory. *)
Theorem record_contents (w : World) (argv : list string) (trace : list event) :
  main w argv = (trace, Done tt) ->
  exists fuzzer_engine output_file cdb_path rest command build_id output_hash ignored_deps
         deps archive_deps commands path,
    getenv w "LIB_FUZZING_ENGINE" = Some fuzzer_engine
    /\ get_flag_value argv "-o" = Some output_file
    /\ get_flag_value argv "-gen-cdb-fragment-path" = Some cdb_path
    /\ remove_flag_and_value argv "-gen-cdb-fragment-path" = Some rest
    /\ in_usr_local_bin (rest ++ linker_flags cdb_path output_file) = Ok command
    /\ hd_error trace = Some (AboutToRun command)
    /\ get_build_id w output_file = Ok (JStr build_id)
    /\ sha256_hexdigest w output_file = Some output_hash
    /\ parse_dependency_file w (dependency_file_of cdb_path output_file) output_file
         ignored_deps = Ok deps
    /\ archive_members w (ar_deps_of fuzzer_engine deps) [] = Ok archive_deps
    /\ last trace (AboutToRun command)
       = Wrote path
           (record_of w output_file command (obj_deps_of deps ++ archive_deps)
              output_hash build_id commands).
Proof.
  intros (fuzzer_engine & (Henv & _) & H)%main_done.
  apply capture_done_trace in H
    as (output_file & cdb_path & rest & command & build_id & output_hash & ignored_deps
        & deps & archive_deps & cdb & lines & commands & Ho & Hp & Hr & Hb & Hid & Hsha & _
        & Hdeps & Har & _ & Hm & ->).
  exists fuzzer_engine, output_file, cdb_path, rest, command, build_id, output_hash,
    ignored_deps, deps, archive_deps, commands.
  eexists. repeat split; try eassumption; try reflexivity.
  - unfold sha256 in Hsha. destruct (sha256_hexdigest w output_file); [|discriminate].
    now injection Hsha as ->.
  - change (AboutToRun command :: lines ++ ?l)%list with ((AboutToRun command :: lines) ++ l)%list.
    apply last_last.
Qed.

Lemma record_contents_witness :
  exists fuzzer_engine output_file cdb_path rest command build_id output_hash ignored_deps
         deps archive_deps commands path,
    getenv Example.link_world "LIB_FUZZING_ENGINE" = Some fuzzer_engine
    /\ get_flag_value Example.link_argv "-o" = Some output_file
    /\ get_flag_value Example.link_argv "-gen-cdb-fragment-path" = Some cdb_path
    /\ remove_flag_and_value Example.link_argv "-gen-cdb-fragment-path" = Some rest
    /\ in_usr_local_bin (rest ++ linker_flags cdb_path output_file) = Ok command
    /\ hd_error (fst (main Example.link_world Example.link_argv))
       = Some (AboutToRun command)
    /\ get_build_id Example.link_world output_file = Ok (JStr build_id)
    /\ sha256_hexdigest Example.link_world output_file = Some output_hash
    /\ parse_dependency_file Example.link_world (dependency_file_of cdb_path output_file)
         output_file ignored_deps = Ok deps
    /\ archive_members Example.link_world (ar_deps_of fuzzer_engine deps) []
       = Ok archive_deps
    /\ last (fst (main Example.link_world Example.link_argv)) (AboutToRun command)
       = Wrote path
           (record_of Example.link_world output_file command
              (obj_deps_of deps ++ archive_deps) output_hash build_id commands).
Proof.
  apply (record_contents Example.link_world Example.link_argv).
  vm_compute. reflexivity.
Defined.

(** ** Build identifier *)

Lemma notes_loop_skip (pre rest : list json) :
  Forall note_without_build_id pre ->
  notes_loop (pre ++ rest) = notes_loop rest.
Proof.
  induction 1 as [|entry pre (section & name & E1 & E2 & H) _ IH]; [reflexivity|].
  cbn [app notes_loop]. rewrite E1. cbn [bind]. rewrite E2. cbn [bind].
  destruct H as [->|(details & E3 & E4)]; [exact IH|].
  destruct (is_str name ".note.gnu.build-id"); [|exact IH].
  rewrite E3. cbn [bind]. now rewrite E4.
Qed.

Lemma notes_loop_found (build_id : json) (entry : json) (post : list json) :
  note_with_build_id build_id entry ->
  notes_loop (entry :: post) = Ok (Some build_id).
Proof.
  intros (section & details & E1 & E2 & E3 & E4).
  cbn [notes_loop]. rewrite E1. cbn [bind]. rewrite E2. cbn [bind is_str].
  rewrite String.eqb_refl, E3. cbn [bind]. now rewrite E4.
Qed.

Lemma files_loop_skip (before rest : list json) :
  Forall file_without_build_id before ->
  files_loop (before ++ rest) = files_loop rest.
Proof.
  induction 1 as [|file before (notes & E & H) _ IH]; [reflexivity|].
  cbn [app files_loop]. rewrite E. cbn [bind py_iter].
  rewrite <- (app_nil_r notes), (notes_loop_skip notes [] H). cbn [notes_loop bind].
  exact IH.
Qed.

(** X10.  [_get_build_id_from_elf_notes] returns the [Build ID] of the
    first note, in the order of the files and of their notes, whose
    section is [.note.gnu.build-id] and whose note has that field.  Notes
    of other sections are passed over, whatever they hold, and so is a
    build-id section without the field; what comes after the first find
    is not looked at. *)
Theorem first_build_id_returned (contents : string) (before after : list json)
    (file_info : json) (pre post : list json) (note_entry build_id : json) :
  json_loads contents = Ok (JArr (before ++ file_info :: after)) ->
  Forall file_without_build_id before ->
  py_getitem file_info "Notes" = Ok (JArr (pre ++ note_entry :: post)) ->
  Forall note_without_build_id pre ->
  note_with_build_id build_id note_entry ->
  _get_build_id_from_elf_notes contents = Ok build_id.
Proof.
  intros Hload Hbefore Hnotes Hpre Hentry.
  assert (F : files_loop (before ++ file_info :: after) = Ok (Some build_id)).
  { rewrite files_loop_skip by assumption. cbn [files_loop].
    rewrite Hnotes. cbn [bind py_iter].
    now rewrite notes_loop_skip, (notes_loop_found build_id) by assumption. }
  unfold _get_build_id_from_elf_notes. rewrite Hload. cbn [bind].
  destruct before; cbn [app] in *; now rewrite F.
Qed.

Lemma first_build_id_returned_witness :
  _get_build_id_from_elf_notes Scenario.two_notes = Ok (JStr "a03df61c5b0c26f3").
Proof.
  apply (first_build_id_returned Scenario.two_notes [] []
           (JObj [("Notes", JArr [Scenario.abi_note; Scenario.id_note])])
           [Scenario.abi_note] [] Scenario.id_note).
  - reflexivity.
  - constructor.
  - reflexivity.
  - constructor; [|constructor].
    eexists _, _. split; [reflexivity|]. split; [reflexivity|]. now left.
  - eexists _, _. split; [reflexivity|]. split; [reflexivity|]. now split.
Defined.

(** X11.  When the notes hold at least one file and no note of any file
    gives a build identifier, [_get_build_id_from_elf_notes] returns
    [None] (it raises nothing). *)
Theorem no_build_id_found (contents : string) (file_info : json) (files : list json) :
  json_loads contents = Ok (JArr (file_info :: files)) ->
  Forall file_without_build_id (file_info :: files) ->
  _get_build_id_from_elf_notes contents = Ok JNull.
Proof.
  intros Hload Hfiles.
  unfold _get_build_id_from_elf_notes. rewrite Hload. cbn [bind].
  rewrite <- (app_nil_r (file_info :: files)), files_loop_skip by assumption.
  reflexivity.
Qed.

Lemma no_build_id_found_witness :
  _get_build_id_from_elf_notes Scenario.abi_only = Ok JNull.
Proof.
  apply (no_build_id_found Scenario.abi_only
           (JObj [("Notes", JArr [Scenario.abi_note])]) []).
  - reflexivity.
  - constructor; [|constructor]. eexists. split; [reflexivity|].
    constructor; [|constructor].
    eexists _, _. split; [reflexivity|]. split; [reflexivity|]. now left.
Defined.

(** ** Dependency file parser, on any file *)

Lemma dependency_loop_kept (w : World) (ignored_deps : list string) (P : string -> Prop)
    (lines : list string) :
  (forall line, In line lines ->
                kept ignored_deps (dependency_of_line w line) = true ->
                P (dependency_of_line w line)) ->
  forall deps, Forall P deps ->
               Forall P (dependency_loop w ignored_deps (map Py.strip lines) deps).
Proof.
  induction lines as [|line lines IH]; intros H deps Hdeps; [assumption|].
  cbn [map dependency_loop].
  destruct (String.eqb (Py.strip line) ""); [assumption|].
  rewrite system_path_test. fold (dependency_of_line w line).
  specialize (H line (or_introl eq_refl)) as Hline. unfold kept in Hline.
  assert (IH' := fun deps => IH (fun l Hl => H l (or_intror Hl)) deps).
  destruct (is_system_path _); [now apply IH'|].
  destruct (Py.mem _ ignored_deps); [now apply IH'|].
  apply IH', Forall_app. split; [assumption|]. constructor; [now apply Hline | constructor].
Qed.

(** X12.  Whatever the dependency file holds, a list the parser returns
    has only dependencies read from lines after the first, each made
    canonical; none of them starts with [/usr], [/clang] or [/lib] (the
    test is on the characters of the path, so [/lib64] and [/library] are
    left out as well), and none is in the ignored set. *)
Theorem parse_dependency_file_never_system (w : World) (file_path output_file : string)
    (ignored_deps deps : list string) :
  parse_dependency_file w file_path output_file ignored_deps = Ok deps ->
  exists text,
    read_text w file_path = Some text
    /\ forall dep, In dep deps ->
         (exists line, In line (tl (Py.readlines text)) /\ dep = dependency_of_line w line)
         /\ Py.startswith dep "/usr" = false
         /\ Py.startswith dep "/clang" = false
         /\ Py.startswith dep "/lib" = false
         /\ ~ In dep ignored_deps.
Proof.
  unfold parse_dependency_file.
  destruct (read_text w file_path) as [text|]; [|discriminate]. cbn [of_option bind].
  destruct (Py.readlines text) as [|first lines] eqn:E; [discriminate|]. cbn [map].
  destruct (Py.endswith _ _); [|discriminate]. cbn [assert bind]. intros [= <-].
  exists text. split; [reflexivity|]. rewrite E. cbn [tl]. apply Forall_forall.
  apply dependency_loop_kept; [|constructor].
  intros line Hin [Hsys Hign]%andb_true_iff. split; [now exists line|].
  apply negb_true_iff in Hsys, Hign. unfold is_system_path in Hsys.
  apply orb_false_iff in Hsys as [[H1 H2]%orb_false_iff H3].
  repeat split; try assumption.
  intros Hmem%mem_In. congruence.
Qed.

Lemma parse_dependency_file_never_system_witness :
  exists text,
    read_text Example.parser_world "/cdb/foo.deps" = Some text
    /\ forall dep, In dep ["/src/a.o"; "/src/b.a"] ->
         (exists line, In line (tl (Py.readlines text))
                       /\ dep = dependency_of_line Example.parser_world line)
         /\ Py.startswith dep "/usr" = false
         /\ Py.startswith dep "/clang" = false
         /\ Py.startswith dep "/lib" = false
         /\ ~ In dep [].
Proof.
  apply (parse_dependency_file_never_system Example.parser_world "/cdb/foo.deps" "foo" []).
  reflexivity.
Defined.

(** ** The order of the directory *)

Lemma StronglySorted_nth {A : Type} (R : A -> A -> Prop) (l : list A) :
  StronglySorted R l ->
  forall i j x y, i < j -> nth_error l i = Some x -> nth_error l j = Some y -> R x y.
Proof.
  induction 1 as [|a l Hl IH Ha]; intros i j x y Hij Hi Hj.
  - now destruct i.
  - destruct j as [|j]; [lia|]. cbn in Hj. destruct i as [|i].
    + injection Hi as <-. rewrite Forall_forall in Ha.
      now apply Ha, (nth_error_In _ j).
    + cbn in Hi. apply (IH i j); [lia | assumption | assumption].
Qed.

Lemma key_le_trans : Relations_1.Transitive key_le.
Proof. intros x y z. unfold key_le. lia. Qed.

(** X13.  [files_by_creation_time] returns the regular files of the
    folder, each once, joined with the folder path, and in the order of
    their creation times: a file never comes before one that was created
    earlier. *)
Theorem files_in_creation_order (w : World) (folder_path : string) (files : list string) :
  files_by_creation_time w folder_path = Ok files ->
  (exists names,
      listdir w folder_path = Some names
      /\ Permutation files (filter (isfile w) (map (OsPath.join folder_path) names)))
  /\ forall i j earlier later,
       i < j ->
       nth_error files i = Some earlier ->
       nth_error files j = Some later ->
       exists t t', getctime w earlier = Some t /\ getctime w later = Some t' /\ (t <= t')%Z.
Proof.
  intros H. split.
  - destruct (listdir w folder_path) as [names|] eqn:E.
    + exists names. split; [reflexivity|].
      now apply (files_by_creation_time_inv w folder_path names files E).
    + unfold files_by_creation_time in H. now rewrite E in H.
  - apply files_by_creation_time_sorted in H as (keyed & -> & Hkeys & Hsorted).
    apply Sorted_StronglySorted in Hsorted; [|exact key_le_trans].
    intros i j earlier later Hij Hi Hj.
    rewrite nth_error_map in Hi, Hj.
    destruct (nth_error keyed i) as [[t f]|] eqn:Ei; [|discriminate].
    destruct (nth_error keyed j) as [[t' g]|] eqn:Ej; [|discriminate].
    injection Hi as <-. injection Hj as <-. exists t, t'.
    rewrite Forall_forall in Hkeys.
    split; [exact (Hkeys _ (nth_error_In _ _ Ei))|].
    split; [exact (Hkeys _ (nth_error_In _ _ Ej))|].
    exact (StronglySorted_nth key_le keyed Hsorted i j _ _ Hij Ei Ej).
Qed.

Lemma files_in_creation_order_witness :
  (exists names,
      listdir Example.link_world "/cdb" = Some names
      /\ Permutation
           ["/cdb/old_linker_commands.json"; "/cdb/a.json"; "/cdb/b.json"; "/cdb/foo.deps"]
           (filter (isfile Example.link_world) (map (OsPath.join "/cdb") names)))
  /\ forall i j earlier later,
       i < j ->
       nth_error
         ["/cdb/old_linker_commands.json"; "/cdb/a.json"; "/cdb/b.json"; "/cdb/foo.deps"] i
       = Some earlier ->
       nth_error
         ["/cdb/old_linker_commands.json"; "/cdb/a.json"; "/cdb/b.json"; "/cdb/foo.deps"] j
       = Some later ->
       exists t t',
         getctime Example.link_world earlier = Some t
         /\ getctime Example.link_world later = Some t' /\ (t <= t')%Z.
Proof.
  apply (files_in_creation_order Example.link_world "/cdb"). reflexivity.
Defined.

Lemma insert_by_key_filter (t : Z) (x : Z * string) (l : list (Z * string)) :
  filter (fun y => (fst y =? t)%Z) (insert_by_key x l)
  = filter (fun y => (fst y =? t)%Z) (x :: l).
Proof.
  induction l as [|y l IH]; [reflexivity|]. cbn [insert_by_key].
  destruct (Z.leb_spec (fst x) (fst y)) as [|Hlt]; [reflexivity|].
  cbn [filter] in *. rewrite IH.
  destruct (Z.eqb_spec (fst x) t) as [Ex|]; [|reflexivity].
  destruct (Z.eqb_spec (fst y) t) as [Ey|]; [lia | reflexivity].
Qed.

Lemma sort_by_key_filter (t : Z) (l : list (Z * string)) :
  filter (fun y => (fst y =? t)%Z) (sort_by_key l) = filter (fun y => (fst y =? t)%Z) l.
Proof.
  induction l as [|x l IH]; [reflexivity|].
  unfold sort_by_key in *. cbn [fold_right].
  rewrite insert_by_key_filter. cbn [filter]. now rewrite IH.
Qed.

Lemma created_at_keyed (w : World) (t : Z) (keyed : list (Z * string)) :
  Forall (fun x => getctime w (snd x) = Some (fst x)) keyed ->
  filter (created_at w t) (map snd keyed)
  = map snd (filter (fun y => (fst y =? t)%Z) keyed).
Proof.
  induction 1 as [|[t' f] keyed E _ IH]; [reflexivity|].
  cbn [map filter fst snd] in *. unfold created_at at 1. rewrite E.
  destruct (t' =? t)%Z; cbn [map snd]; now rewrite IH.
Qed.

Lemma keyed_times (w : World) (files : list string) (l : list (Z * string)) :
  mapM (ctime_key w) files = Ok l ->
  Forall (fun x => getctime w (snd x) = Some (fst x)) l.
Proof.
  revert l. induction files as [|file files IH]; intros l; cbn.
  - intros [= <-]. constructor.
  - unfold ctime_key at 1. destruct (getctime w file) as [t|] eqn:Et; [|discriminate]. cbn.
    destruct (mapM _ files) as [l'|]; [|discriminate]. cbn.
    intros [= <-]. constructor; [assumption | now apply IH].
Qed.

(** X14.  The sort is stable: files with the same creation time come in
    the order in which [os.listdir] gave them. *)
Theorem files_by_creation_time_stable (w : World) (folder_path : string)
    (names files : list string) (t : Z) :
  listdir w folder_path = Some names ->
  files_by_creation_time w folder_path = Ok files ->
  filter (created_at w t) files
  = filter (created_at w t) (filter (isfile w) (map (OsPath.join folder_path) names)).
Proof.
  intros Hdir. unfold files_by_creation_time. rewrite Hdir. cbn [of_option bind].
  destruct (mapM _ _) as [keyed|] eqn:E; [|discriminate]. cbn [bind].
  intros [= <-].
  pose proof (keyed_times w _ _ E) as Hkeys.
  rewrite <- (keyed_inv w _ _ E).
  rewrite !created_at_keyed, sort_by_key_filter; [reflexivity | assumption|].
  apply (Permutation_Forall (Permutation_sym (sort_by_key_perm keyed))). exact Hkeys.
Qed.

Lemma files_by_creation_time_stable_witness :
  files_by_creation_time Scenario.tied_world "/cdb"
  = Ok ["/cdb/c.json"; "/cdb/b.json"; "/cdb/a.json"]
  /\ filter (created_at Scenario.tied_world 1%Z)
       ["/cdb/c.json"; "/cdb/b.json"; "/cdb/a.json"]
     = ["/cdb/b.json"; "/cdb/a.json"].
Proof.
  split; [reflexivity|].
  apply (files_by_creation_time_stable Scenario.tied_world "/cdb"
           (map fst Scenario.tied_dir) ["/cdb/c.json"; "/cdb/b.json"; "/cdb/a.json"] 1%Z).
  - reflexivity.
  - reflexivity.
Defined.

Lemma keyed_raise (w : World) (files : list string) :
  mapM (ctime_key w) files = Raise <-> exists file, In file files /\ getctime w file = None.
Proof.
  induction files as [|file files IH]; cbn.
  - split; [discriminate | now intros (? & [] & _)].
  - unfold ctime_key at 1. destruct (getctime w file) as [t|] eqn:Et; cbn.
    + destruct (mapM _ files) as [l|]; cbn.
      * split; [discriminate|]. intros (f & [<-|Hf] & E); [congruence|].
        enough (@Ok (list (Z * string)) l = Raise) by discriminate.
        apply IH. now exists f.
      * split; [|reflexivity]. intros _.
        destruct (proj1 IH eq_refl) as (f & Hf & E). exists f. split; [now right | assumption].
    + split; [|reflexivity]. intros _. exists file. split; [now left | assumption].
Qed.

(** X15.  [files_by_creation_time] raises in two cases only: the folder
    cannot be listed, or one of its regular files has no creation time
    (it is gone by the time the list is sorted).  Entries that are not
    regular files are never asked for their time. *)
Theorem files_by_creation_time_raises (w : World) (folder_path : string) :
  files_by_creation_time w folder_path = Raise
  <-> listdir w folder_path = None
      \/ exists names name,
           listdir w folder_path = Some names
           /\ In name names
           /\ isfile w (OsPath.join folder_path name) = true
           /\ getctime w (OsPath.join folder_path name) = None.
Proof.
  unfold files_by_creation_time.
  destruct (listdir w folder_path) as [names|]; cbn [of_option bind].
  - set (files := filter _ _).
    assert (R : mapM (ctime_key w) files = Raise
                <-> exists name, In name names
                                 /\ isfile w (OsPath.join folder_path name) = true
                                 /\ getctime w (OsPath.join folder_path name) = None).
    { rewrite keyed_raise. subst files. split.
      - intros (file & [(name & <- & Hin)%in_map_iff Hfile]%filter_In & E). now exists name.
      - intros (name & Hin & Hfile & E). exists (OsPath.join folder_path name).
        split; [|assumption]. apply filter_In. split; [now apply in_map | assumption]. }
    destruct (mapM _ files) as [l|]; cbn [bind].
    + split; [discriminate|]. intros [|(names' & name & [= <-] & H)]; [discriminate|].
      enough (@Ok (list (Z * string)) l = Raise) by discriminate.
      apply R. now exists name.
    + split; [|reflexivity]. intros _. right.
      destruct (proj1 R eq_refl) as (name & H). now exists names, name.
  - split; [now left | reflexivity].
Qed.

(** ** What the fragment reader reads *)

Lemma filter_none {A : Type} (f : A -> bool) (l : list A) :
  (forall x, In x l -> f x = false) -> filter f l = [].
Proof.
  induction l as [|x l IH]; intros H; [reflexivity|]. cbn.
  rewrite (H x (or_introl eq_refl)). apply IH. intros y Hy. apply H. now right.
Qed.

(** X16.  A directory without fragment files (it is empty, or holds
    only files of other names and records of earlier runs) gives the empty
    database: no file is read, and [json.loads] is given the text of an
    empty list. *)
Theorem read_cdb_fragments_none (w : World) (cdb_path : string) (names : list string) :
  listdir w cdb_path = Some names ->
  (forall name, In name names ->
                isfile w (OsPath.join cdb_path name) = true ->
                getctime w (OsPath.join cdb_path name) <> None
                /\ is_fragment (OsPath.join cdb_path name) = false) ->
  read_cdb_fragments w cdb_path = Ok (JArr []).
Proof.
  intros Hdir H.
  assert (Hfiles : forall file,
             In file (filter (isfile w) (map (OsPath.join cdb_path) names)) ->
             getctime w file <> None /\ is_fragment file = false).
  { intros file [(name & <- & Hin)%in_map_iff Hfile]%filter_In. now apply H. }
  destruct (files_by_creation_time_ok w cdb_path names Hdir) as (files & E);
    [intros file Hin; now apply Hfiles|].
  pose proof (files_by_creation_time_inv w cdb_path names files Hdir E) as Hperm.
  unfold read_cdb_fragments. rewrite E. cbn [bind].
  rewrite (fragments_loop_ok w files [] []).
  - reflexivity.
  - rewrite filter_none; [constructor|].
    intros file Hin. now apply Hfiles, (Permutation_in _ Hperm).
Qed.

Lemma read_cdb_fragments_none_witness :
  read_cdb_fragments Scenario.bare_world "/cdb" = Ok (JArr []).
Proof.
  apply (read_cdb_fragments_none Scenario.bare_world "/cdb" (map fst Scenario.bare_dir)).
  - reflexivity.
  - intros name [<-|[<-|[]]] _; split; discriminate || reflexivity.
Defined.

Lemma fragments_loop_ext (w w' : World) (files contents : list string) :
  (forall file, is_fragment file = true -> read_text w file = read_text w' file) ->
  fragments_loop w files contents = fragments_loop w' files contents.
Proof.
  intros H. revert contents.
  induction files as [|file files IH]; intros contents; [reflexivity|].
  cbn [fragments_loop]. specialize (H file). unfold is_fragment in H.
  destruct (Py.endswith file "_linker_commands.json"); [apply IH|].
  destruct (Py.endswith file ".json"); cbn [negb]; [|apply IH].
  rewrite <- H by reflexivity.
  destruct (read_text w file) as [data|]; [|reflexivity]. cbn [of_option bind].
  destruct (assert _); [|reflexivity]. cbn [bind]. apply IH.
Qed.

Lemma mapM_ext {A B : Type} (f g : A -> res B) (l : list A) :
  (forall x, f x = g x) -> mapM f l = mapM g l.
Proof. intros H. induction l as [|x l IH]; cbn; [reflexivity|]. now rewrite H, IH. Qed.

(** X17.  The fragment reader reads fragment files only.  Its result is
    the same in two states of the file system that list the same
    directory, with the same regular files and creation times, and agree
    on the text of every fragment file: what the records of earlier runs,
    the dependency file and any other file hold, and whether they can be
    read at all, makes no difference. *)
Theorem read_cdb_fragments_reads_fragments_only (w w' : World) (cdb_path : string) :
  listdir w cdb_path = listdir w' cdb_path ->
  (forall file, isfile w file = isfile w' file) ->
  (forall file, getctime w file = getctime w' file) ->
  (forall file, is_fragment file = true -> read_text w file = read_text w' file) ->
  read_cdb_fragments w cdb_path = read_cdb_fragments w' cdb_path.
Proof.
  intros Hdir Hfile Htime Hread.
  assert (E : files_by_creation_time w cdb_path = files_by_creation_time w' cdb_path).
  { unfold files_by_creation_time. rewrite Hdir.
    destruct (listdir w' cdb_path) as [names|]; [|reflexivity]. cbn [of_option bind].
    rewrite (filter_ext (isfile w) (isfile w') Hfile).
    rewrite (mapM_ext (ctime_key w) (ctime_key w')); [reflexivity|].
    intros file. unfold ctime_key. now rewrite Htime. }
  unfold read_cdb_fragments. rewrite E.
  destruct (files_by_creation_time w' cdb_path) as [files|]; [|reflexivity]. cbn [bind].
  now rewrite (fragments_loop_ext w w' files [] Hread).
Qed.

Lemma read_cdb_fragments_reads_fragments_only_witness :
  read_cdb_fragments Example.link_world "/cdb" = read_cdb_fragments Scenario.rerun_world "/cdb".
Proof.
  apply (read_cdb_fragments_reads_fragments_only Example.link_world Scenario.rerun_world "/cdb").
  - reflexivity.
  - reflexivity.
  - reflexivity.
  - intros file Hfile. symmetry. apply get_set_neq. intros <-. discriminate Hfile.
Defined.

(** X18.  What the fragment reader returns is always a JSON list: the
    text it parses starts with a bracket, so the matcher iterates over
    commands and never over the keys of an object or the characters of a
    string. *)
Theorem read_cdb_fragments_is_list (w : World) (cdb_path : string) (cdb : json) :
  read_cdb_fragments w cdb_path = Ok cdb ->
  exists commands, cdb = JArr commands.
Proof.
  unfold read_cdb_fragments.
  destruct (files_by_creation_time w cdb_path) as [files|]; [|discriminate]. cbn [bind].
  destruct (fragments_loop w files []) as [contents|]; [|discriminate]. cbn [bind].
  generalize (Py.join sentinel contents ++ "]"). intros text.
  unfold json_loads. change (Py.startswith _ Json.bom) with false.
  cbn [append Json.skip_ws]. change (Json.is_ws "[") with false.
  cbn [String.length Json.scan_once].
  change (Ascii.eqb "[" Py.dquote) with false.
  change (Ascii.eqb "[" "{") with false.
  change (Ascii.eqb "[" "[") with true. cbn match.
  destruct (Json.expect "]" _) as [r|].
  - destruct (String.eqb _ ""); [|discriminate]. intros [= <-]. now exists [].
  - destruct (Json.array_loop _ _) as [[items r]|]; [|discriminate].
    destruct (String.eqb _ ""); [|discriminate]. intros [= <-]. now exists items.
Qed.

Lemma read_cdb_fragments_is_list_witness :
  exists commands,
    JArr [Example.command "/src" "a.o" "a.c"; Example.command "/src" "b.o" "b.c"]
    = JArr commands.
Proof.
  apply (read_cdb_fragments_is_list Example.link_world "/cdb"). reflexivity.
Defined.

(** ** Archive members *)

Lemma splitlines_line (line rest : string) :
  one_line line ->
  Py.splitlines (line ++ String Py.lf rest) = line :: Py.splitlines rest.
Proof.
  induction line as [|c line IH]; intros [Hlf Hcr]; cbn [append Py.splitlines].
  - reflexivity.
  - cbn in Hlf, Hcr.
    destruct (Ascii.eqb_spec c Py.lf) as [->|_]; [now destruct Hlf; left|].
    destruct (Ascii.eqb_spec c Py.cr) as [->|_]; [now destruct Hcr; left|].
    rewrite IH; [reflexivity|]. split; intros ?; [apply Hlf | apply Hcr]; now right.
Qed.

Lemma concat_cons (x : string) (l : list string) :
  String.concat "" (x :: l) = x ++ String.concat "" l.
Proof.
  destruct l as [|y l]; cbn [String.concat]; [|reflexivity].
  induction x; cbn; congruence.
Qed.

(** Splitting the listing of an archive gives its members back. *)
Lemma splitlines_listing (members : list string) :
  Forall one_line members -> Py.splitlines (ar_listing members) = members.
Proof.
  induction 1 as [|member members H _ IH]; [reflexivity|].
  unfold ar_listing in *. cbn [map]. rewrite concat_cons, append_assoc. cbn [append].
  now rewrite splitlines_line, IH.
Qed.

(** X19.  When [ar -t] succeeds on every archive and prints one member
    per line, the archive dependencies are the members of all archives:
    in the order of the archives, each with its members in the order of
    the listing, a member as often as it is listed. *)
Theorem archive_members_listed (w : World) (ar_deps : list string)
    (listings : list (list string)) (archive_deps : list string) :
  Forall2 (fun archive members =>
             subprocess_run w ["ar"; "-t"; archive] = Some (0%Z, ar_listing members)
             /\ Forall one_line members)
    ar_deps listings ->
  archive_members w ar_deps archive_deps = Ok (archive_deps ++ List.concat listings)%list.
Proof.
  intros H. revert archive_deps.
  induction H as [|archive members ar_deps listings [Hrun Hlines] _ IH]; intros archive_deps.
  - cbn. now rewrite app_nil_r.
  - cbn [archive_members List.concat]. unfold check_output at 1. rewrite Hrun.
    cbn [Z.eqb bind].
    now rewrite IH, splitlines_listing, app_assoc.
Qed.

Lemma archive_members_listed_witness :
  archive_members Example.link_world ["/src/libb.a"; "/src/libc.a"] []
  = Ok ["b.o"; "b.o"].
Proof.
  apply (archive_members_listed Example.link_world ["/src/libb.a"; "/src/libc.a"]
           [["b.o"]; ["b.o"]] []).
  repeat constructor; cbn; intuition discriminate.
Defined.

(** ** The matcher at its edges *)

Lemma match_obj_deps_empty (w : World) (fuzzer_engine : string) (obj_deps : list string) :
  match_obj_deps w fuzzer_engine (JArr []) obj_deps []
  = (unmatched_lines w fuzzer_engine obj_deps [], Done []).
Proof.
  unfold unmatched_lines. cbn [map]. rewrite app_nil_r.
  induction obj_deps as [|dep rest IH]; [reflexivity|].
  rewrite match_obj_deps_cons. cbn [flat_map py_iter bind assign_matches].
  rewrite IH. destruct (String.eqb dep fuzzer_engine); reflexivity.
Qed.

Lemma match_archive_deps_empty (archive_deps : list string) :
  match_archive_deps (JArr []) archive_deps [] = (map NotFound archive_deps, Done []).
Proof.
  induction archive_deps as [|dep rest IH]; [reflexivity|].
  rewrite match_archive_deps_cons. cbn [py_iter bind assign_matches]. now rewrite IH.
Qed.

(** X20.  On an empty database the matcher raises nothing and matches
    nothing: it announces every object file, reports every dependency but
    the fuzzing engine as not found (object files by their canonical path,
    then the archive members), and leaves the dictionary empty. *)
Theorem empty_database (w : World) (fuzzer_engine : string)
    (obj_deps archive_deps : list string) :
  match_commands w fuzzer_engine (JArr []) obj_deps archive_deps
  = (unmatched_lines w fuzzer_engine obj_deps archive_deps, Done []).
Proof.
  unfold match_commands. rewrite match_obj_deps_empty. cbn [bindM].
  rewrite match_archive_deps_empty. unfold unmatched_lines. cbn [map].
  now rewrite app_nil_r.
Qed.

Lemma match_archive_deps_announces (cdb : json) (archive_deps : list string)
    (commands : Dict.t json) :
  filter is_announcement (fst (match_archive_deps cdb archive_deps commands)) = [].
Proof.
  revert commands. induction archive_deps as [|dep rest IH]; intros commands; [reflexivity|].
  rewrite match_archive_deps_cons. destruct (bind _ _) as [commands'|]; [|reflexivity].
  cbn [fst]. rewrite filter_app, IH, app_nil_r. now destruct (Dict.mem _ _).
Qed.

Lemma match_obj_deps_announces (w : World) (fuzzer_engine : string) (cdb : json)
    (obj_deps : list string) (commands commands' : Dict.t json) (trace : list event) :
  match_obj_deps w fuzzer_engine cdb obj_deps commands = (trace, Done commands') ->
  filter is_announcement trace = map LookingFor obj_deps.
Proof.
  revert commands trace. induction obj_deps as [|dep rest IH]; intros commands trace.
  - now intros [= <- _].
  - rewrite match_obj_deps_cons. destruct (String.eqb dep fuzzer_engine).
    + destruct (match_obj_deps _ _ _ rest commands) as [tr r] eqn:E. cbn [fst snd].
      intros [= <- ->]. cbn [filter is_announcement map]. f_equal. now apply (IH commands).
    + destruct (bind _ _) as [commands1|]; [|discriminate].
      destruct (match_obj_deps _ _ _ rest commands1) as [tr r] eqn:E. cbn [fst snd].
      intros [= <- ->]. cbn [filter is_announcement map]. f_equal.
      rewrite filter_app, (IH commands1 tr E). now destruct (Dict.mem _ _).
Qed.

(** X21.  A run of the matcher that returns has printed one
    [Looking for dep] line for every object file, in their order, the
    fuzzing engine included and duplicates repeated, with the path as the
    parser gave it; archive members are never announced. *)
Theorem looking_for_lines (w : World) (fuzzer_engine : string) (cdb : json)
    (obj_deps archive_deps : list string) (trace : list event) (commands : Dict.t json) :
  match_commands w fuzzer_engine cdb obj_deps archive_deps = (trace, Done commands) ->
  filter is_announcement trace = map LookingFor obj_deps.
Proof.
  unfold match_commands.
  intros (tr1 & commands1 & tr2 & H1 & H2 & ->)%bindM_done.
  rewrite filter_app, (match_obj_deps_announces _ _ _ _ _ _ _ H1).
  pose proof (match_archive_deps_announces cdb archive_deps commands1) as A.
  rewrite H2 in A. cbn [fst] in A. now rewrite A, app_nil_r.
Qed.

Lemma looking_for_lines_witness :
  filter is_announcement
    (fst (match_commands Example.matcher_world Example.engine
            (JArr [Example.first_a; Example.only_b])
            ["/src/a.o"; Example.engine; "/src/c.o"] ["b.o"; "d.o"]))
  = map LookingFor ["/src/a.o"; Example.engine; "/src/c.o"].
Proof.
  apply (looking_for_lines Example.matcher_world Example.engine
           (JArr [Example.first_a; Example.only_b])
           ["/src/a.o"; Example.engine; "/src/c.o"] ["b.o"; "d.o"] _
           [("/src/a.o", Example.first_a); ("b.o", Example.only_b)]).
  reflexivity.
Defined.

Lemma assign_matches_raises (name_of : json -> res string) (dep : string)
    (cdb : list json) (commands : Dict.t json) (c : json) :
  In c cdb -> name_of c = Raise -> assign_matches name_of dep cdb commands = Raise.
Proof.
  intros Hin Hc. revert commands.
  induction cdb as [|c' cdb IH]; intros commands; [easy|]. cbn [assign_matches].
  destruct Hin as [->|Hin]; [now rewrite Hc|].
  destruct (name_of c'); [|reflexivity]. cbn [bind]. now apply IH.
Qed.

Lemma command_path_needs_output (w : World) (c : json) :
  command_basename c = Raise -> command_path w c = Raise.
Proof.
  unfold command_basename, command_path.
  destruct (py_getitem c "directory") as [directory|]; [|reflexivity]. cbn [bind].
  destruct (py_getitem c "output") as [output|]; [|reflexivity]. cbn [bind].
  destruct (as_str output); [discriminate|]. now destruct (as_str directory).
Qed.

Lemma match_obj_deps_stops (w : World) (fuzzer_engine : string) (items : list json)
    (c : json) (obj_deps : list string) (commands : Dict.t json) :
  In c items ->
  command_path w c = Raise ->
  without_engine fuzzer_engine obj_deps <> [] ->
  snd (match_obj_deps w fuzzer_engine (JArr items) obj_deps commands) = Stop Uncaught.
Proof.
  intros Hin Hc. induction obj_deps as [|dep rest IH]; intros Hne; [easy|].
  rewrite match_obj_deps_cons. cbn [without_engine filter] in Hne.
  destruct (String.eqb dep fuzzer_engine); cbn [negb] in Hne.
  - cbn [snd]. now apply IH.
  - cbn [py_iter bind]. now rewrite (assign_matches_raises _ _ _ _ c).
Qed.

Lemma match_obj_deps_engine_only (w : World) (fuzzer_engine : string) (cdb : json)
    (obj_deps : list string) (commands : Dict.t json) :
  without_engine fuzzer_engine obj_deps = [] ->
  match_obj_deps w fuzzer_engine cdb obj_deps commands
  = (map LookingFor obj_deps, Done commands).
Proof.
  induction obj_deps as [|dep rest IH]; intros H; [reflexivity|].
  rewrite match_obj_deps_cons. cbn [without_engine filter] in H.
  destruct (String.eqb dep fuzzer_engine); cbn [negb] in H; [|discriminate].
  now rewrite IH.
Qed.

(** X22.  A command of the database without an [output] that is a str
    (the key is missing, or the command is no object) stops the matcher
    with an uncaught exception as soon as there is a dependency to look
    for, an object file other than the fuzzing engine or an archive
    member: every command is inspected for every dependency, whether it
    would match or not.  Nothing is written. *)
Theorem malformed_command_stops (w : World) (fuzzer_engine : string) (items : list json)
    (c : json) (obj_deps archive_deps : list string) :
  In c items ->
  command_basename c = Raise ->
  (without_engine fuzzer_engine obj_deps ++ archive_deps)%list <> [] ->
  exists trace,
    match_commands w fuzzer_engine (JArr items) obj_deps archive_deps
    = (trace, Stop Uncaught)
    /\ writes_nothing trace.
Proof.
  intros Hin Hc Hne.
  enough (E : snd (match_commands w fuzzer_engine (JArr items) obj_deps archive_deps)
              = Stop Uncaught).
  { pose proof (silent_match_commands w fuzzer_engine (JArr items) obj_deps archive_deps)
      as [S _].
    destruct (match_commands _ _ _ _ _) as [trace r]. cbn [fst snd] in *.
    exists trace. now rewrite E. }
  unfold match_commands.
  destruct (without_engine fuzzer_engine obj_deps) as [|dep deps] eqn:E.
  - rewrite match_obj_deps_engine_only by assumption. cbn [bindM].
    destruct archive_deps as [|a rest]; [now destruct Hne|].
    rewrite match_archive_deps_cons. cbn [py_iter bind].
    now rewrite (assign_matches_raises _ _ _ _ c).
  - pose proof (match_obj_deps_stops w fuzzer_engine items c obj_deps []
                  Hin (command_path_needs_output w c Hc)) as S.
    rewrite E in S. assert (N : dep :: deps <> []) by discriminate.
    specialize (S N).
    destruct (match_obj_deps _ _ _ _ _) as [tr r]. cbn [snd] in S. now rewrite S.
Qed.

Lemma malformed_command_stops_witness :
  exists trace,
    match_commands Example.matcher_world Example.engine
      (JArr [Example.first_a; Scenario.no_output]) [Example.engine] ["a.o"]
    = (trace, Stop Uncaught)
    /\ writes_nothing trace.
Proof.
  apply (malformed_command_stops Example.matcher_world Example.engine
           [Example.first_a; Scenario.no_output] Scenario.no_output
           [Example.engine] ["a.o"]).
  - right. now left.
  - reflexivity.
  - discriminate.
Defined.

(** ** Hashing the output file *)

Lemma append_nil_r (s : string) : s ++ "" = s.
Proof. induction s; cbn; congruence. Qed.

Lemma substring_drop (n : nat) (s : string) : String.substring 0 n s ++ Py.drop n s = s.
Proof.
  revert s. induction n as [|n IH]; intros [|c s]; cbn; try reflexivity.
  now rewrite IH.
Qed.

Lemma substring_empty (n : nat) (s : string) :
  0 < n -> String.substring 0 n s = "" -> s = "".
Proof. destruct n as [|n]; [lia|]. now destruct s. Qed.

Lemma read_loop_whole {hash : Type} (update : hash -> string -> hash) (size : nat) :
  0 < size ->
  (forall h a b, update (update h a) b = update h (a ++ b)) ->
  (forall h, update h "" = h) ->
  forall fuel data h,
    String.length data < fuel ->
    read_loop update size fuel h data = Some (update h data).
Proof.
  intros Hsize Happ Hnil. induction fuel as [|fuel IH]; intros data h Hfuel; [lia|].
  cbn [read_loop].
  destruct (String.eqb_spec (String.substring 0 size data) "") as [E|N].
  - apply substring_empty in E as ->; [|assumption]. now rewrite Hnil.
  - pose proof (substring_drop size data) as D.
    assert (L : String.length (Py.drop size data) < String.length data).
    { rewrite <- D at 2. rewrite length_append.
      destruct (String.substring 0 size data); [contradiction | cbn; lia]. }
    rewrite IH by lia. now rewrite Happ, D.
Qed.

(** X23.  [sha256] hashes the whole file.  For a hash object whose
    [update] calls concatenate (as those of [hashlib] do), reading the
    file in chunks of 4096 bytes until a read returns nothing leaves the
    object in the state of a single update with the contents of the file,
    whatever their length: the loop ends, and no byte is skipped or fed
    twice. *)
Theorem sha256_reads_whole_file {hash : Type} (update : hash -> string -> hash)
    (initial : hash) (data : string) :
  (forall h a b, update (update h a) b = update h (a ++ b)) ->
  (forall h, update h "" = h) ->
  sha256_state update initial data = Some (update initial data).
Proof.
  intros Happ Hnil. unfold sha256_state.
  apply read_loop_whole; try assumption; [|lia].
  change 4096 with (S 4095). apply Nat.lt_0_succ.
Qed.

Lemma sha256_reads_whole_file_witness :
  sha256_state String.append "" (String.concat "" (repeat "0123456789abcdef" 300))
  = Some (String.concat "" (repeat "0123456789abcdef" 300)).
Proof.
  apply (sha256_reads_whole_file String.append ""
           (String.concat "" (repeat "0123456789abcdef" 300))).
  - intros h a b. apply append_assoc.
  - intros h. apply append_nil_r.
Defined.

(** ** A dependency file without a blank line *)

(** X24.  When no line after the header is blank, the parser reads the
    file to its end: the end of the file ends the list as a blank line
    does, and the last line needs no line feed. *)
Theorem parse_dependency_file_unterminated (w : World) (file_path output_file : string)
    (ignored_deps : list string) (text first : string) (body : list string) :
  read_text w file_path = Some text ->
  Py.readlines text = first :: body ->
  (exists pre, realpath w output_file ++ ": \" = pre ++ Py.strip first) ->
  Forall (fun line => Py.strip line <> "") body ->
  parse_dependency_file w file_path output_file ignored_deps
  = Ok (filter (kept ignored_deps) (map (dependency_of_line w) body)).
Proof.
  intros Hread Hlines Hfirst Hbody.
  unfold parse_dependency_file. rewrite Hread. cbn [of_option bind].
  rewrite Hlines. cbn [map].
  apply endswith_spec in Hfirst. rewrite Hfirst. cbn [assert bind].
  now rewrite dependency_loop_all.
Qed.

Lemma parse_dependency_file_unterminated_witness :
  parse_dependency_file Scenario.unterminated_world "/cdb/foo.deps" "foo" []
  = Ok ["/src/a.o"; "/src/b.a"].
Proof.
  apply (parse_dependency_file_unterminated Scenario.unterminated_world "/cdb/foo.deps"
           "foo" [] Scenario.unterminated_deps ("foo: \" ++ Example.nl)
           [("  a.o \" ++ Example.nl)%string; ("  /lib64/libm.a \" ++ Example.nl)%string;
            "  b.a"]).
  - reflexivity.
  - reflexivity.
  - exists "/src/". reflexivity.
  - repeat constructor; discriminate.
Defined.

(** ** A run that reaches its end *)

(** X25.  When every step succeeds, [main] returns: with both flags
    given, a linker that returns 0, a build identifier that is a str, a
    hash, a readable list of ignored dependencies, a dependency file that
    parses, archives that can be listed, fragments that can be read and a
    matcher that raises nothing, it prints the command, then the lines of
    the matcher, and writes the record as its last act. *)
Theorem main_succeeds (w : World) (fuzzer_engine : string) (argv : list string)
    (output_file cdb_path : string) (rest command : list string) (stdout : string)
    (build_id output_hash : string) (ignored_deps deps archive_deps : list string)
    (cdb : json) (lines : list event) (commands : Dict.t json) :
  captures w fuzzer_engine argv ->
  get_flag_value argv "-o" = Some output_file ->
  output_file <> "" ->
  get_flag_value argv "-gen-cdb-fragment-path" = Some cdb_path ->
  cdb_path <> "" ->
  remove_flag_and_value argv "-gen-cdb-fragment-path" = Some rest ->
  in_usr_local_bin (rest ++ linker_flags cdb_path output_file) = Ok command ->
  subprocess_run w command = Some (0%Z, stdout) ->
  get_build_id w output_file = Ok (JStr build_id) ->
  sha256_hexdigest w output_file = Some output_hash ->
  load_ignored_deps w = Ok ignored_deps ->
  parse_dependency_file w (dependency_file_of cdb_path output_file) output_file ignored_deps
  = Ok deps ->
  archive_members w (ar_deps_of fuzzer_engine deps) [] = Ok archive_deps ->
  read_cdb_fragments w cdb_path = Ok cdb ->
  match_commands w fuzzer_engine cdb (obj_deps_of deps) archive_deps
  = (lines, Done commands) ->
  main w argv
  = ((AboutToRun command :: lines
      ++ [Wrote (OsPath.join cdb_path (build_id ++ "_linker_commands.json"))
            (record_of w output_file command (obj_deps_of deps ++ archive_deps)
               output_hash build_id commands)])%list,
     Done tt).
Proof.
  intros Hc Ho Hne Hp Hpne Hr Hb Hrun Hid Hsha Hign Hdeps Har Hcdb Hm.
  rewrite (main_captures w fuzzer_engine argv Hc). unfold capture.
  rewrite Ho, Hp, Hr, !assert_flag_some by assumption.
  cbn [of_option]. rewrite !bindM_ok.
  rewrite (run_succeeds w _ command stdout) by assumption. cbn [bindM].
  rewrite Hid, bindM_ok. cbn [is_none negb assert]. rewrite bindM_ok.
  unfold sha256. rewrite Hsha. cbn [of_option]. rewrite bindM_ok.
  rewrite Hign, bindM_ok, Hdeps, bindM_ok, Har, bindM_ok, Hcdb, bindM_ok, Hm.
  reflexivity.
Qed.

Lemma main_succeeds_witness :
  exists lines commands,
    main Example.link_world Example.link_argv
    = ((AboutToRun Scenario.link_command :: lines
        ++ [Wrote "/cdb/deadbeef_linker_commands.json"
              (record_of Example.link_world "/out/foo" Scenario.link_command
                 ["/src/a.o"; "b.o"] "9f86d081884c7d65" "deadbeef" commands)])%list,
       Done tt).
Proof.
  eexists _, _.
  apply (main_succeeds Example.link_world Example.engine Example.link_argv "/out/foo" "/cdb"
           ["clang"; "a.o"; "-o"; "/out/foo"; "-lFuzzingEngine"] Scenario.link_command ""
           "deadbeef" "9f86d081884c7d65" [] ["/src/a.o"; "/src/libb.a"] ["b.o"]
           (JArr [Example.command "/src" "a.o" "a.c"; Example.command "/src" "b.o" "b.c"])).
  - split; [reflexivity|]. split; [discriminate|]. right. cbn. tauto.
  - reflexivity.
  - discriminate.
  - reflexivity.
  - discriminate.
  - reflexivity.
  - reflexivity.
  - reflexivity.
  - reflexivity.
  - reflexivity.
  - reflexivity.
  - reflexivity.
  - reflexivity.
  - reflexivity.
  - reflexivity.
Defined.
